(** * ITSM front end: session core, role checks and ticket actions

    A shallow embedding of the TypeScript sources of the ITSM portal:

    - [auth/roles.ts]            role constants and the "at least" checks;
    - [api/mutations.ts]         the request each ticket mutation sends;
    - [components/tickets/TicketActions.tsx] and [components/common/MutationForm.tsx]
                                 which actions a ticket offers and when a form submits;
    - [pages/DashboardPage.tsx]  the assign control of a row of the ticket table;
    - [auth/tokenStorage.ts]     the credential store;
    - [api/client.ts]            the axios client: request and response interceptors,
                                 the single-flight refresh and its waiter queue;
    - [router/AppRouter.tsx], [auth/ProtectedRoute.tsx], [auth/useAuth.ts] and
      [components/layout/Sidebar.tsx]
                                 the route table, its guards and the links shown;
    - [types/api.ts]             the readers of an error value;
    - [components/tickets/TicketActions.tsx]
                                 the upload, priority, reassign and close dialogs;
    - [components/common/Pagination.tsx], [utils/dateFormat.ts] and
      [components/common/TimeElapsed.tsx]
                                 the pager and the age of a ticket;
    - [api/auth.ts] and [auth/AuthContext.tsx]
                                 login, logout and the restoring of a session.

    JavaScript numbers are modelled by [Z] (identifiers, seconds and milliseconds
    are integers here), strings by [string], [null]/[undefined] by [None]. *)

From Stdlib Require Import String Ascii List ZArith Bool Arith Lia DecimalString.
Import ListNotations.

Local Open Scope string_scope.
Local Open Scope list_scope.

(* ================================================================= *)
(** ** JavaScript helpers *)

Module JS.

(** Truthiness of a string value: the empty string is falsy. *)
Definition truthy (s : string) : bool :=
  match s with
  | EmptyString => false
  | String _ _ => true
  end.

(** Truthiness of [string | null | undefined]. *)
Definition truthyO (o : option string) : bool :=
  match o with
  | Some s => truthy s
  | None => false
  end.

(** [s.includes(p)]: [p] occurs in [s] as a contiguous substring. *)
Fixpoint includes (s p : string) : bool :=
  if String.prefix p s then true
  else match s with
       | EmptyString => false
       | String _ s' => includes s' p
       end.

(** [arr.includes(x)] on an array of strings. *)
Definition arrayIncludes (arr : list string) (x : string) : bool :=
  existsb (String.eqb x) arr.

(** [Number.MAX_SAFE_INTEGER], 2^53 - 1 *)
Definition MAX_SAFE_INTEGER : Z := 9007199254740991.

(** [Number.isSafeInteger] on an integer.  A JavaScript number holds every
    such integer exactly, and [+], [-] and [*] between them are exact as
    long as the result is one of them; outside that range a number is
    rounded.  Times and durations are integers in [Z] here: what is computed
    on them is what the source computes as long as the operands and the
    results are safe integers. *)
Definition safeInteger (x : Z) : Prop :=
  (- MAX_SAFE_INTEGER <= x <= MAX_SAFE_INTEGER)%Z.

End JS.

(* ================================================================= *)
(** ** auth/roles.ts *)

Module Roles.

Local Open Scope Z_scope.

(** [export const Roles = { USER: 1, EMPLOYEE: 2, MANAGER: 3, ADMIN: 4 }] *)
Definition USER : Z := 1.
Definition EMPLOYEE : Z := 2.
Definition MANAGER : Z := 3.
Definition ADMIN : Z := 4.

(** What reading a property of the [RoleNameToId] object literal can give:
    nothing, one of the four numbers, or (for a name that [Object.prototype]
    defines, such as ["constructor"]) a function or object. *)
Inductive jsval : Type :=
| JUndefined
| JNum (n : Z)
| JObject.

(** Property names every object literal inherits from [Object.prototype]. *)
Definition objectPrototypeKeys : list string :=
  [ "constructor"; "hasOwnProperty"; "isPrototypeOf"; "propertyIsEnumerable";
    "toLocaleString"; "toString"; "valueOf"; "__proto__";
    "__defineGetter__"; "__defineSetter__"; "__lookupGetter__"; "__lookupSetter__" ]%string.

(** [RoleIdToName[roleId]] *)
Definition RoleIdToName (roleId : Z) : option string :=
  if roleId =? USER then Some "USER"%string
  else if roleId =? EMPLOYEE then Some "EMPLOYEE"%string
  else if roleId =? MANAGER then Some "MANAGER"%string
  else if roleId =? ADMIN then Some "ADMIN"%string
  else None.

(** [RoleNameToId[name]] *)
Definition RoleNameToId (name : string) : jsval :=
  if (name =? "USER")%string then JNum USER
  else if (name =? "EMPLOYEE")%string then JNum EMPLOYEE
  else if (name =? "MANAGER")%string then JNum MANAGER
  else if (name =? "ADMIN")%string then JNum ADMIN
  else if JS.arrayIncludes objectPrototypeKeys name then JObject
  else JUndefined.

(** [id !== undefined] *)
Definition isDefined (v : jsval) : bool :=
  match v with
  | JUndefined => false
  | _ => true
  end.

(** [id >= minRoleId]: a function or object converts to [NaN], and every
    comparison with [NaN] is false. *)
Definition jsGe (v : jsval) (m : Z) : bool :=
  match v with
  | JNum n => n >=? m
  | _ => false
  end.

(** [hasRole(userRoles, roleId)] *)
Definition hasRole (userRoles : list string) (roleId : Z) : bool :=
  match RoleIdToName roleId with
  | None => false
  | Some roleName =>
      if negb (JS.truthy roleName) then false
      else JS.arrayIncludes userRoles roleName
  end.

(** [hasAnyRole(userRoles, roleIds)] *)
Definition hasAnyRole (userRoles : list string) (roleIds : list Z) : bool :=
  existsb (fun roleId => hasRole userRoles roleId) roleIds.

(** [hasMinRole(userRoles, minRoleId)] *)
Definition hasMinRole (userRoles : list string) (minRoleId : Z) : bool :=
  let userRoleIds := filter isDefined (map RoleNameToId userRoles) in
  existsb (fun id => jsGe id minRoleId) userRoleIds.

(** A number that may be [NaN]. *)
Inductive jsnum : Type :=
| Num (n : Z)
| NaN.

(** [ToNumber]: a function or an object of [Object.prototype] gives [NaN]. *)
Definition toNumber (v : jsval) : jsnum :=
  match v with
  | JNum n => Num n
  | _ => NaN
  end.

(** [Math.max] of two arguments: [NaN] as soon as one of them is. *)
Definition maxNum (a b : jsnum) : jsnum :=
  match a, b with
  | Num x, Num y => Num (Z.max x y)
  | _, _ => NaN
  end.

(** [getMaxRoleId(userRoles)]: [0] for an empty list of identifiers,
    otherwise [Math.max(...userRoleIds)]. *)
Definition getMaxRoleId (userRoles : list string) : jsnum :=
  let userRoleIds := filter isDefined (map RoleNameToId userRoles) in
  match userRoleIds with
  | [] => Num 0
  | id :: ids => fold_left (fun acc v => maxNum acc (toNumber v)) ids (toNumber id)
  end.

Definition isAtLeastEmployee (userRoles : list string) : bool :=
  hasMinRole userRoles EMPLOYEE.

Definition isAtLeastManager (userRoles : list string) : bool :=
  hasMinRole userRoles MANAGER.

Definition isAdmin (userRoles : list string) : bool :=
  hasRole userRoles ADMIN.

(** A role name is recognized when it is one of the four the backend returns. *)
Definition recognizedName (name : string) : bool :=
  JS.arrayIncludes ["USER"; "EMPLOYEE"; "MANAGER"; "ADMIN"]%string name.

Definition recognizedId (roleId : Z) : bool :=
  (1 <=? roleId) && (roleId <=? 4).

End Roles.

(* ================================================================= *)
(** ** Text typed by the user

    A note is kept as its sequence of UTF-16 code units, so that
    [String.prototype.trim] can be written out with the whole ECMAScript
    white-space set, not only its ASCII part. *)

Module Text.

Definition text : Type := list N.

Local Open Scope N_scope.

(** ECMAScript [WhiteSpace] and [LineTerminator] code units: the characters
    [trim] removes. *)
Definition isWhiteSpace (c : N) : bool :=
  (c =? 9) || (c =? 10) || (c =? 11) || (c =? 12) || (c =? 13) || (c =? 32)
  || (c =? 160) || (c =? 5760)
  || ((8192 <=? c) && (c <=? 8202))
  || (c =? 8232) || (c =? 8233) || (c =? 8239) || (c =? 8287)
  || (c =? 12288) || (c =? 65279).

(** [s.trimStart()] *)
Fixpoint trimStart (s : text) : text :=
  match s with
  | [] => []
  | c :: s' => if isWhiteSpace c then trimStart s' else s
  end.

(** [s.trimEnd()] *)
Definition trimEnd (s : text) : text := rev (trimStart (rev s)).

(** [s.trim()] *)
Definition trim (s : text) : text := trimEnd (trimStart s).

(** A note made of white space only (the empty note included). *)
Definition whitespaceOnly (s : text) : bool := forallb isWhiteSpace s.

(** The code units of an ASCII literal. *)
Fixpoint ofString (s : string) : text :=
  match s with
  | EmptyString => []
  | String c s' => N_of_ascii c :: ofString s'
  end.

End Text.

(* ================================================================= *)
(** ** api/mutations.ts: the request each mutation sends *)

Module Mutations.

Inductive Method : Type := GET | POST | PATCH | DELETE.

Inductive JsonValue : Type :=
| JStr (s : string)
| JText (t : Text.text)
| JNumber (n : Z).

(** A call of [post]/[patch]: method, URL and the JSON body as the list of
    its fields in insertion order. *)
Record Request : Type := mkRequest {
  method : Method;
  url : string;
  data : list (string * JsonValue)
}.

(** [assignTicket(id, assignedTo?)]; [None] is an omitted or [undefined]
    argument. *)
Definition assignTicket (id : string) (assignedTo : option string) : Request :=
  let data := [] in
  let data :=
    match assignedTo with
    | Some a => if JS.truthy a then data ++ [("assigned_to", JStr a)] else data
    | None => data
    end in
  mkRequest POST ("/api/tickets/" ++ id ++ "/assign/") data.

(** [updateTicketStatus(id, status, note)] *)
Definition updateTicketStatus (id status : string) (note : Text.text) : Request :=
  mkRequest PATCH ("/api/tickets/" ++ id ++ "/status/")
            [("status", JStr status); ("note", JText note)].

(** [closeTicket(id, closureCodeId, note)] *)
Definition closeTicket (id closureCodeId : string) (note : Text.text) : Request :=
  mkRequest POST ("/api/tickets/" ++ id ++ "/close/")
            [("closure_code_id", JStr closureCodeId); ("note", JText note)].

(** [updateTicketPriority(id, priority, note)] *)
Definition updateTicketPriority (id : string) (priority : Z) (note : Text.text) : Request :=
  mkRequest PATCH ("/api/tickets/" ++ id ++ "/priority/")
            [("priority", JNumber priority); ("note", JText note)].

(** [reassignTicket(id, assignedTo, note)] *)
Definition reassignTicket (id assignedTo : string) (note : Text.text) : Request :=
  mkRequest POST ("/api/tickets/" ++ id ++ "/reassign/")
            [("assigned_to", JStr assignedTo); ("note", JText note)].

End Mutations.

(* ================================================================= *)
(** ** components/common/MutationForm.tsx and
       components/tickets/TicketActions.tsx *)

Module TicketActions.

(** [UserRef]: only the identifier matters here. *)
Record UserRef : Type := mkUserRef { user_id : string }.

(** The fields of [TicketDetail] the component reads. *)
Record TicketDetail : Type := mkTicket {
  id : string;
  status : string;
  is_closed : bool;
  priority : option Z;
  assigned_to : option UserRef;
  attachments : nat   (* [ticket.attachments.length] *)
}.

(** What [useAuth()] gives: the current user and the role names. *)
Record Auth : Type := mkAuth {
  user : option UserRef;
  roles : list string   (* [context.user?.roles ?? []] *)
}.

Definition isEmployee (a : Auth) : bool := Roles.isAtLeastEmployee (roles a).
Definition isManager (a : Auth) : bool := Roles.isAtLeastManager (roles a).

(** [x?.id] *)
Definition optId (u : option UserRef) : option string := option_map user_id u.

(** [a === b] on [string | undefined] *)
Definition strictEq (a b : option string) : bool :=
  match a, b with
  | Some x, Some y => String.eqb x y
  | None, None => true
  | _, _ => false
  end.

Definition isSome {A : Type} (o : option A) : bool :=
  match o with Some _ => true | None => false end.

(** [ticket.assigned_to?.id === user?.id] *)
Definition isAssignedToMe (a : Auth) (t : TicketDetail) : bool :=
  strictEq (optId (assigned_to t)) (optId (user a)).

Definition canSelfAssign (a : Auth) (t : TicketDetail) : bool :=
  isEmployee a && negb (isSome (assigned_to t)) && negb (is_closed t).

Definition canUpdateStatus (a : Auth) (t : TicketDetail) : bool :=
  isEmployee a && isAssignedToMe a t && negb (is_closed t).

Definition canClose (a : Auth) (t : TicketDetail) : bool :=
  isEmployee a && isAssignedToMe a t && negb (is_closed t).

Definition canUpdatePriority (a : Auth) (t : TicketDetail) : bool :=
  isEmployee a && (isAssignedToMe a t || isManager a) && negb (is_closed t).

Definition canUploadAttachment (a : Auth) (t : TicketDetail) : bool :=
  isEmployee a && negb (is_closed t).

Definition canReassign (a : Auth) (t : TicketDetail) : bool :=
  isManager a && isSome (assigned_to t) && negb (is_closed t).

(** The buttons the card can show. *)
Inductive ActionKind : Type :=
| AssignToMe | UpdateStatus | UploadAttachment | UpdatePriority | Reassign | CloseTicket.

Definition showIf (b : bool) (k : ActionKind) : list ActionKind :=
  if b then [k] else [].

(** The buttons rendered, in the order of the JSX. *)
Definition offered (a : Auth) (t : TicketDetail) : list ActionKind :=
  showIf (canSelfAssign a t) AssignToMe
  ++ showIf (canUpdateStatus a t) UpdateStatus
  ++ showIf (canUploadAttachment a t) UploadAttachment
  ++ showIf (canUpdatePriority a t) UpdatePriority
  ++ showIf (canReassign a t) Reassign
  ++ showIf (canClose a t) CloseTicket.

(** [TicketActions({ ticket })]: [None] is the [return null]. *)
Definition TicketActions (a : Auth) (t : TicketDetail) : option (list ActionKind) :=
  if negb (canSelfAssign a t) && negb (canUpdateStatus a t) && negb (canClose a t)
     && negb (canUpdatePriority a t) && negb (canUploadAttachment a t)
     && negb (canReassign a t)
  then None
  else Some (offered a t).

(** *** MutationForm *)

(** [MutationForm]'s [handleSubmit]: [onSubmit] runs only for a valid form
    that is not already submitting.  [None]: nothing is sent. *)
Definition MutationForm_handleSubmit {A : Type}
           (isValid isSubmitting : bool) (onSubmit : A) : option A :=
  if isValid && negb isSubmitting then Some onSubmit else None.

(** [note.trim().length > 0] *)
Definition noteValid (note : Text.text) : bool :=
  (0 <? length (Text.trim note))%nat.

(** [s.length > 0] on a string *)
Definition nonEmpty (s : string) : bool := (0 <? String.length s)%nat.

(** [NoteInput]'s own flag: [!required || value.trim().length >= minLength] *)
Definition NoteInput_isValid (required : bool) (minLength : nat) (value : Text.text) : bool :=
  negb required || (minLength <=? length (Text.trim value))%nat.

(** The message under the text area: [!isValid && value] shows it. *)
Definition NoteInput_message (required : bool) (minLength : nat) (value : Text.text)
  : option string :=
  if negb (NoteInput_isValid required minLength value) && (0 <? length value)%nat
  then Some "Note is required"
  else None.

(** *** UpdateStatusButton *)

(** [UPDATABLE_STATUSES] of types/mutations.ts *)
Definition UPDATABLE_STATUSES : list string :=
  ["In Progress"; "Waiting"; "On Hold"; "Assigned"].

(** [TICKET_STATUSES] of types/ticket.ts *)
Definition TICKET_STATUSES : list string :=
  ["New"; "Assigned"; "In Progress"; "Waiting"; "On Hold"; "Closed"].

(** [UPDATABLE_STATUSES.filter(s => s !== ticket.status)] *)
Definition availableStatuses (t : TicketDetail) : list string :=
  filter (fun s => negb (String.eqb s (status t))) UPDATABLE_STATUSES.

(** The component's state: the [useMutationForm] flags and the two
    [useState] cells. *)
Record StatusForm : Type := mkStatusForm {
  sf_isOpen : bool;
  sf_isSubmitting : bool;
  sf_status : string;
  sf_note : Text.text
}.

Definition StatusForm_initial : StatusForm :=
  mkStatusForm false false "In Progress" [].

(** What the user can do with the button and its dialog. *)
Inductive StatusEvent : Type :=
| SfOpen                       (* click on "Update Status" *)
| SfSelect (s : string)        (* pick an option of the select *)
| SfType (note : Text.text)    (* edit the note *)
| SfSubmit                     (* submit the form *)
| SfSettled (ok : bool)        (* the request sent by a submit comes back *)
| SfCancel.

(** [availableStatuses[0] || 'In Progress'] *)
Definition firstAvailable (t : TicketDetail) : string :=
  match availableStatuses t with
  | s :: _ => if JS.truthy s then s else "In Progress"
  | [] => "In Progress"
  end.

(** One event on the button of ticket [t]: the new state and the request
    sent, if any.  The dialog exists only while the form is open; the select
    lists [availableStatuses] and is disabled while submitting. *)
Definition statusStep (t : TicketDetail) (ev : StatusEvent) (f : StatusForm)
  : StatusForm * option Mutations.Request :=
  match ev with
  | SfOpen =>
      (mkStatusForm true (sf_isSubmitting f) (firstAvailable t) [], None)
  | SfSelect s =>
      if sf_isOpen f && negb (sf_isSubmitting f) && JS.arrayIncludes (availableStatuses t) s
      then (mkStatusForm (sf_isOpen f) (sf_isSubmitting f) s (sf_note f), None)
      else (f, None)
  | SfType note =>
      if sf_isOpen f
      then (mkStatusForm (sf_isOpen f) (sf_isSubmitting f) (sf_status f) note, None)
      else (f, None)
  | SfSubmit =>
      if sf_isOpen f then
        match MutationForm_handleSubmit (noteValid (sf_note f)) (sf_isSubmitting f)
                (Mutations.updateTicketStatus (id t) (sf_status f) (sf_note f)) with
        | Some req => (mkStatusForm (sf_isOpen f) true (sf_status f) (sf_note f), Some req)
        | None => (f, None)
        end
      else (f, None)
  | SfSettled ok =>
      if sf_isSubmitting f then
        if ok
        then (mkStatusForm false false (sf_status f) [], None)
        else (mkStatusForm (sf_isOpen f) false (sf_status f) (sf_note f), None)
      else (f, None)
  | SfCancel =>
      if negb (sf_isSubmitting f)
      then (mkStatusForm false (sf_isSubmitting f) (sf_status f) (sf_note f), None)
      else (f, None)
  end.

(** A session on [UpdateStatusButton], once [TicketActions] has rendered
    it: the requests sent, oldest first. *)
Fixpoint statusRun (t : TicketDetail) (evs : list StatusEvent) (f : StatusForm)
  : StatusForm * list Mutations.Request :=
  match evs with
  | [] => (f, [])
  | ev :: evs' =>
      let '(f1, r) := statusStep t ev f in
      let '(f2, rs) := statusRun t evs' f1 in
      (f2, match r with Some req => req :: rs | None => rs end)
  end.

(** The status a request of [updateTicketStatus] carries. *)
Definition targetOf (r : Mutations.Request) : option string :=
  match Mutations.data r with
  | ("status", Mutations.JStr s) :: _ => Some s
  | _ => None
  end.

(** *** The other forms: validity flag and what a submit sends *)

(** [CloseTicketButton] *)
Definition closeSubmit (t : TicketDetail) (closureCodeId : string)
           (note : Text.text) (isSubmitting : bool) : option Mutations.Request :=
  MutationForm_handleSubmit (nonEmpty closureCodeId && noteValid note) isSubmitting
    (Mutations.closeTicket (id t) closureCodeId note).

(** [UpdatePriorityButton] *)
Definition prioritySubmit (t : TicketDetail) (priority : Z)
           (note : Text.text) (isSubmitting : bool) : option Mutations.Request :=
  MutationForm_handleSubmit (noteValid note) isSubmitting
    (Mutations.updateTicketPriority (id t) priority note).

(** [ReassignButton] *)
Definition reassignSubmit (t : TicketDetail) (assignedTo : string)
           (note : Text.text) (isSubmitting : bool) : option Mutations.Request :=
  MutationForm_handleSubmit (nonEmpty assignedTo && noteValid note) isSubmitting
    (Mutations.reassignTicket (id t) assignedTo note).

(** [UpdateStatusButton] *)
Definition statusSubmit (t : TicketDetail) (status : string)
           (note : Text.text) (isSubmitting : bool) : option Mutations.Request :=
  MutationForm_handleSubmit (noteValid note) isSubmitting
    (Mutations.updateTicketStatus (id t) status note).

(** *** The forms as the card shows them *)

(** [{canX && <XButton ticket={ticket} ... />}]: a button, and with it its
    form, is there only under its gate; without it nothing can be
    submitted. *)
Definition gated {A : Type} (can : bool) (sent : option A) : option A :=
  if can then sent else None.

Definition cardStatusSubmit (a : Auth) (t : TicketDetail) (status : string)
           (note : Text.text) (isSubmitting : bool) : option Mutations.Request :=
  gated (canUpdateStatus a t) (statusSubmit t status note isSubmitting).

Definition cardCloseSubmit (a : Auth) (t : TicketDetail) (closureCodeId : string)
           (note : Text.text) (isSubmitting : bool) : option Mutations.Request :=
  gated (canClose a t) (closeSubmit t closureCodeId note isSubmitting).

Definition cardPrioritySubmit (a : Auth) (t : TicketDetail) (priority : Z)
           (note : Text.text) (isSubmitting : bool) : option Mutations.Request :=
  gated (canUpdatePriority a t) (prioritySubmit t priority note isSubmitting).

Definition cardReassignSubmit (a : Auth) (t : TicketDetail) (assignedTo : string)
           (note : Text.text) (isSubmitting : bool) : option Mutations.Request :=
  gated (canReassign a t) (reassignSubmit t assignedTo note isSubmitting).

(** A session on the "Update Status" button of the card that user [a] sees
    for ticket [t]: the requests sent, oldest first. *)
Definition cardStatusRun (a : Auth) (t : TicketDetail) (evs : list StatusEvent)
  : list Mutations.Request :=
  if canUpdateStatus a t then snd (statusRun t evs StatusForm_initial) else [].

End TicketActions.

(* ================================================================= *)
(** ** pages/DashboardPage.tsx: the assign control of a ticket row *)

Module Dashboard.

Import TicketActions.













End Dashboard.

(* ================================================================= *)
(** ** auth/tokenStorage.ts: the credential store *)

Module TokenStorage.

Local Open Scope Z_scope.

(** The two module variables and the [localStorage] entry.  When
    [localStorage] is unavailable every access to it throws, which the
    accessors catch.  Times are the integer milliseconds of [Date.now()] and
    lifetimes integer seconds, within [JS.safeInteger], where the arithmetic
    of JavaScript numbers is that of [Z]. *)
Record Store : Type := mkStore {
  accessToken : option string;
  tokenExpiresAt : option Z;       (* milliseconds *)
  storageAvailable : bool;
  persisted : option string        (* [localStorage['itsm_refresh_token']] *)
}.

Definition empty (available : bool) (item : option string) : Store :=
  mkStore None None available item.

Definition getAccessToken (s : Store) : option string := accessToken s.

(** [setAccessToken(token, expiresIn)] at time [now]; exact when [now],
    [expiresIn * 1000] and their sum are safe integers. *)
Definition setAccessToken (token : string) (expiresIn : Z) (now : Z) (s : Store) : Store :=
  mkStore (Some token) (Some (now + expiresIn * 1000))
          (storageAvailable s) (persisted s).

Definition getRefreshToken (s : Store) : option string :=
  if storageAvailable s then persisted s else None.

Definition setRefreshToken (token : string) (s : Store) : Store :=
  if storageAvailable s
  then mkStore (accessToken s) (tokenExpiresAt s) (storageAvailable s) (Some token)
  else s.

Definition clearTokens (s : Store) : Store :=
  mkStore None None (storageAvailable s)
          (if storageAvailable s then None else persisted s).

(** [isTokenExpiringSoon(thresholdSeconds)] at time [now]; [!tokenExpiresAt]
    holds for [null] and for [0].  Exact when [now], the expiry,
    [thresholdSeconds * 1000] and the difference are safe integers. *)
Definition isTokenExpiringSoon (thresholdSeconds : Z) (now : Z) (s : Store) : bool :=
  match tokenExpiresAt s with
  | None => true
  | Some e =>
      if e =? 0 then true
      else
        let thresholdMs := thresholdSeconds * 1000 in
        now >=? e - thresholdMs
  end.

Definition hasValidToken (now : Z) (s : Store) : bool :=
  match accessToken s with
  | Some _ => negb (isTokenExpiringSoon 0 now s)
  | None => false
  end.

(** [getTokenTTL()] at time [now]; exact when [now], the expiry and their
    difference are safe integers. *)
Definition getTokenTTL (now : Z) (s : Store) : Z :=
  match tokenExpiresAt s with
  | None => 0
  | Some e => if e =? 0 then 0 else Z.max 0 (e - now)
  end.

Definition hasPersistedSession (s : Store) : bool :=
  match getRefreshToken s with Some _ => true | None => false end.

(** The store holds nothing: what [clearTokens] leaves behind. *)
Definition cleared (s : Store) : Prop :=
  getAccessToken s = None /\ tokenExpiresAt s = None /\ getRefreshToken s = None.

(** The expiry checks at time [now] with a threshold of [t] seconds compute
    on safe integers only. *)
Definition exactAt (t now : Z) (s : Store) : Prop :=
  JS.safeInteger now
  /\ JS.safeInteger (t * 1000)
  /\ match tokenExpiresAt s with
     | Some e => JS.safeInteger e /\ JS.safeInteger (e - t * 1000) /\ JS.safeInteger (e - now)
     | None => True
     end.

(** Storing a token for [expires_in] seconds at time [t0] computes on safe
    integers only. *)
Definition exactStore (expires_in t0 : Z) : Prop :=
  JS.safeInteger t0
  /\ JS.safeInteger (expires_in * 1000)
  /\ JS.safeInteger (t0 + expires_in * 1000).

End TokenStorage.

(* ================================================================= *)
(** ** api/client.ts: the axios client

    JavaScript runs one task at a time: the code between two [await]s is
    atomic.  Each atomic piece of the interceptors is a function on the
    client's state; which piece runs next (a caller starts, a response
    arrives, the refresh call returns, a suspended interceptor resumes) is an
    [Action] chosen by the environment. *)

Module Client.

Import TokenStorage.

Local Open Scope Z_scope.

(** The fields of [InternalAxiosRequestConfig] the interceptors touch.
    [retries] is a ghost counter: how many times the response interceptor
    has re-issued this call with [apiClient(originalRequest)]. *)
Record RequestConfig : Type := mkConfig {
  url : option string;
  Authorization : option string;   (* [headers.Authorization] *)
  _retry : bool;
  retries : nat
}.

(** A rejection: a plain [Error], or an [AxiosError] with the response
    status (if a response came) and the config of the failed request. *)
Inductive Error : Type :=
| PlainError (message : string)
| AxiosError (status : option Z) (config : option RequestConfig).

(** How a call ends for its caller. *)
Inductive Outcome : Type :=
| Responded (status : Z)
| Rejected (e : Error).

(** An entry of [refreshQueue]: the pair of callbacks pushed by the request
    interceptor (its promise resumes the interceptor) or by the response
    interceptor (its [resolve] re-issues the original request). *)
Inductive Waiter : Type :=
| ReqWaiter (config : RequestConfig)
| RespWaiter (originalRequest : RequestConfig).

(** Why [refreshAccessToken] rejects. *)
Inductive RefreshFailure : Type :=
| NoRefreshToken
| PostFailed (status : option Z).

(** The promise of [refreshAccessToken()]: its POST is outstanding, or it
    has settled and the interceptor awaiting it has not resumed yet. *)
Inductive Await : Type :=
| AwaitNet
| Settled (r : RefreshFailure + string).

Inductive LeaderKind : Type := ReqLeader | RespLeader.

(** The promise of [refreshToken()] of api/auth.ts, which
    [tryRestoreSession] of AuthContext awaits: its POST is outstanding, or
    it has settled (with the token and lifetime it stored, or with an error)
    and [tryRestoreSession] has not resumed yet.  This refresh is made with
    plain axios, outside the interceptors and their flag. *)
Inductive RestoreAwait : Type :=
| RestoreNet
| RestoreSettled (r : RefreshFailure + string * Z).

(** An interceptor suspended at [await refreshAccessToken()], with the
    request it is working for. *)
Record Leader : Type := mkLeader {
  lkind : LeaderKind;
  lcfg : RequestConfig;
  lawait : Await
}.

(** What the client does that the outside can see. *)
Inductive Event : Type :=
| EvRefreshCall                          (* [refreshAccessToken()] is invoked *)
| EvRefreshPost (refresh_token : string) (* [refreshAccessToken] sends its POST
                                            to /api/auth/refresh/ *)
| EvRestorePost (refresh_token : string) (* [refreshToken] of api/auth.ts sends
                                            its POST to /api/auth/refresh/ *)
| EvDispatch (cfg : RequestConfig)       (* a request leaves for the server *)
| EvRetry (cfg : RequestConfig).         (* [apiClient(originalRequest)] *)

(** The client.  [isRefreshing] and [refreshQueue] are the two module
    variables.  [leaders] holds the interceptors suspended at
    [await refreshAccessToken()]: the code keeps no such list, and nothing
    here limits its length, so that "one refresh at a time" is a property to
    prove about the flag, not part of the model.  [restores] holds the
    calls of [tryRestoreSession] suspended at [await apiRefresh()].  The
    other fields record where each call is. *)
Record State : Type := mkState {
  store : Store;
  isRefreshing : bool;
  refreshQueue : list Waiter;
  leaders : list Leader;
  pending : list RequestConfig;    (* [apiClient(cfg)] called, interceptor not run yet *)
  wire : list RequestConfig;       (* sent, no response yet *)
  settled : list (RequestConfig * Outcome);
  trace : list Event;              (* oldest first *)
  restores : list RestoreAwait
}.

Definition init (s : Store) : State :=
  mkState s false [] [] [] [] [] [] [].

(** *** Field updates *)

Definition set_store (v : Store) (st : State) : State :=
  mkState v (isRefreshing st) (refreshQueue st) (leaders st)
          (pending st) (wire st) (settled st) (trace st) (restores st).

Definition set_isRefreshing (v : bool) (st : State) : State :=
  mkState (store st) v (refreshQueue st) (leaders st)
          (pending st) (wire st) (settled st) (trace st) (restores st).

Definition set_refreshQueue (v : list Waiter) (st : State) : State :=
  mkState (store st) (isRefreshing st) v (leaders st)
          (pending st) (wire st) (settled st) (trace st) (restores st).

Definition set_leaders (v : list Leader) (st : State) : State :=
  mkState (store st) (isRefreshing st) (refreshQueue st) v
          (pending st) (wire st) (settled st) (trace st) (restores st).

Definition set_pending (v : list RequestConfig) (st : State) : State :=
  mkState (store st) (isRefreshing st) (refreshQueue st) (leaders st)
          v (wire st) (settled st) (trace st) (restores st).

Definition set_wire (v : list RequestConfig) (st : State) : State :=
  mkState (store st) (isRefreshing st) (refreshQueue st) (leaders st)
          (pending st) v (settled st) (trace st) (restores st).

Definition set_restores (v : list RestoreAwait) (st : State) : State :=
  mkState (store st) (isRefreshing st) (refreshQueue st) (leaders st)
          (pending st) (wire st) (settled st) (trace st) v.

Definition emit (e : Event) (st : State) : State :=
  mkState (store st) (isRefreshing st) (refreshQueue st) (leaders st)
          (pending st) (wire st) (settled st) (trace st ++ [e]) (restores st).

(** The request goes out. *)
Definition dispatch (cfg : RequestConfig) (st : State) : State :=
  emit (EvDispatch cfg) (set_wire (wire st ++ [cfg]) st).

(** The caller's promise settles. *)
Definition settle (cfg : RequestConfig) (o : Outcome) (st : State) : State :=
  mkState (store st) (isRefreshing st) (refreshQueue st) (leaders st)
          (pending st) (wire st) (settled st ++ [(cfg, o)]) (trace st) (restores st).

(** [apiClient(originalRequest)]: the call re-enters the client; its request
    interceptor runs in a later task. *)
Definition reissue (cfg : RequestConfig) (st : State) : State :=
  let cfg' := mkConfig (url cfg) (Authorization cfg) (_retry cfg) (S (retries cfg)) in
  emit (EvRetry cfg') (set_pending (pending st ++ [cfg']) st).

(** *** Headers and URLs *)

Definition bearer (token : string) : string := ("Bearer " ++ token)%string.

(** [config.headers.Authorization = `Bearer ${token}`] *)
Definition setAuthorization (token : string) (cfg : RequestConfig) : RequestConfig :=
  mkConfig (url cfg) (Some (bearer token)) (_retry cfg) (retries cfg).

(** [if (token) { config.headers.Authorization = ... }] *)
Definition attach (token : option string) (cfg : RequestConfig) : RequestConfig :=
  match token with
  | Some t => if JS.truthy t then setAuthorization t cfg else cfg
  | None => cfg
  end.

(** [originalRequest._retry = true] *)
Definition markRetry (cfg : RequestConfig) : RequestConfig :=
  mkConfig (url cfg) (Authorization cfg) true (retries cfg).

(** [isAuthEndpoint] of the request interceptor *)
Definition reqIsAuthEndpoint (cfg : RequestConfig) : bool :=
  match url cfg with
  | Some u => JS.includes u "/api/auth/login" || JS.includes u "/api/auth/refresh"
  | None => false
  end.

(** [isAuthEndpoint] of the response interceptor *)
Definition respIsAuthEndpoint (cfg : RequestConfig) : bool :=
  match url cfg with
  | Some u => JS.includes u "/api/auth/login" || JS.includes u "/api/auth/refresh"
              || JS.includes u "/api/auth/logout"
  | None => false
  end.

(** [error.config] *)
Definition configOf (error : Error) : option RequestConfig :=
  match error with
  | PlainError _ => None
  | AxiosError _ config => config
  end.

(** [error.response?.status === 401] *)
Definition is401 (error : Error) : bool :=
  match error with
  | AxiosError (Some s) _ => s =? 401
  | _ => false
  end.

(** [k]-th element of a list and the rest. *)
Fixpoint pick {A : Type} (k : nat) (l : list A) {struct l} : option (A * list A) :=
  match l with
  | [] => None
  | x :: l' =>
      match k with
      | O => Some (x, l')
      | S k' =>
          match pick k' l' with
          | Some (y, r) => Some (y, x :: r)
          | None => None
          end
      end
  end.

(** Replace the [k]-th element. *)
Fixpoint replace {A : Type} (k : nat) (y : A) (l : list A) {struct l} : list A :=
  match l with
  | [] => []
  | x :: l' =>
      match k with
      | O => y :: l'
      | S k' => x :: replace k' y l'
      end
  end.

Section WithBaseURL.

(** [BASE_URL], from [import.meta.env.VITE_API_BASE_URL]. *)
Variable BASE_URL : string.

(** The config of the POST that [refreshAccessToken] sends with plain axios. *)
Definition refreshConfig : RequestConfig :=
  mkConfig (Some (BASE_URL ++ "/api/auth/refresh/")%string) None false 0.

(** The error [refreshAccessToken] throws. *)
Definition errorOf (f : RefreshFailure) : Error :=
  match f with
  | NoRefreshToken => PlainError "No refresh token available"
  | PostFailed st => AxiosError st (Some refreshConfig)
  end.

(** *** refreshAccessToken *)

(** Up to its [await]: with no refresh token it throws at once; otherwise the
    POST is sent.  The caller has just set [isRefreshing = true]. *)
Definition startRefresh (kind : LeaderKind) (cfg : RequestConfig) (st : State) : State :=
  let st := emit EvRefreshCall (set_isRefreshing true st) in
  match getRefreshToken (store st) with
  | Some rt =>
      if JS.truthy rt
      then set_leaders (leaders st ++ [mkLeader kind cfg AwaitNet])
                       (emit (EvRefreshPost rt) st)
      else set_leaders (leaders st ++ [mkLeader kind cfg (Settled (inl NoRefreshToken))]) st
  | None =>
      set_leaders (leaders st ++ [mkLeader kind cfg (Settled (inl NoRefreshToken))]) st
  end.

(** What the refresh endpoint answers. *)
Inductive RefreshResponse : Type :=
| RefreshOk (access_token : string) (expires_in : Z)
| RefreshFailed (status : option Z).

(** After its [await]: store the new token, or clear everything and rethrow. *)
Definition finishRefresh (r : RefreshResponse) (now : Z) (s : Store)
  : Store * (RefreshFailure + string) :=
  match r with
  | RefreshOk access_token expires_in =>
      (setAccessToken access_token expires_in now s, inr access_token)
  | RefreshFailed status =>
      (clearTokens s, inl (PostFailed status))
  end.

(** *** The session restore of AuthContext

    [tryRestoreSession] calls [refreshToken()] of api/auth.ts, which posts
    to the refresh endpoint with plain axios.  None of it looks at
    [isRefreshing]. *)

(** [tryRestoreSession()] up to its [await apiRefresh()].  With an access
    token in memory it goes on to [loadUser] (whose [getMe()] is a call like
    any other); with no persisted session it stops; otherwise
    [refreshToken()] runs up to its [await]: it throws when the refresh token
    is empty, and sends its POST otherwise. *)
Definition restoreStart (st : State) : State :=
  if JS.truthyO (getAccessToken (store st)) then st
  else if negb (hasPersistedSession (store st)) then st
  else
    match getRefreshToken (store st) with
    | Some currentRefreshToken =>
        if JS.truthy currentRefreshToken
        then set_restores (restores st ++ [RestoreNet])
                          (emit (EvRestorePost currentRefreshToken) st)
        else set_restores (restores st ++ [RestoreSettled (inl NoRefreshToken)]) st
    | None => set_restores (restores st ++ [RestoreSettled (inl NoRefreshToken)]) st
    end.

(** [refreshToken()] after its [await]: the new token is stored; an error of
    the POST is passed on (this function clears nothing). *)
Definition restoreReply (r : RefreshResponse) (now : Z) (s : Store)
  : Store * (RefreshFailure + string * Z) :=
  match r with
  | RefreshOk access_token expires_in =>
      (setAccessToken access_token expires_in now s, inr (access_token, expires_in))
  | RefreshFailed status => (s, inl (PostFailed status))
  end.

(** [tryRestoreSession()] after its [await]: the token is stored once more
    and [loadUser] follows; on an error [catch] clears the tokens. *)
Definition restoreResume (r : RefreshFailure + string * Z) (now : Z) (s : Store) : Store :=
  match r with
  | inr (access_token, expires_in) => setAccessToken access_token expires_in now s
  | inl _ => clearTokens s
  end.

(** *** Response interceptor, error branch

    [caller] is the call whose promise the handler settles; [error.config]
    is the request the handler works on (the same config for a response
    error). *)
Definition handleError (caller : RequestConfig) (error : Error) (st : State) : State :=
  if negb (is401 error) then settle caller (Rejected error) st
  else
    match configOf error with
    | None => settle caller (Rejected error) st
    | Some originalRequest =>
        if respIsAuthEndpoint originalRequest then
          settle caller (Rejected error) st
        else if _retry originalRequest then
          settle caller (Rejected error) (set_store (clearTokens (store st)) st)
        else
          let originalRequest := markRetry originalRequest in
          if negb (isRefreshing st) then
            startRefresh RespLeader originalRequest st
          else
            set_refreshQueue (refreshQueue st ++ [RespWaiter originalRequest]) st
    end.

(** *** Request interceptor, up to its first [await] *)
Definition requestInterceptor (now : Z) (config : RequestConfig) (st : State) : State :=
  if reqIsAuthEndpoint config then dispatch config st
  else
    let token := getAccessToken (store st) in
    if JS.truthyO token && isTokenExpiringSoon 60 now (store st) then
      if negb (isRefreshing st) then
        startRefresh ReqLeader config st
      else
        set_refreshQueue (refreshQueue st ++ [ReqWaiter config]) st
    else
      dispatch (attach token config) st.

(** *** processQueue

    [forEach] over the queue.  A rejected [RespWaiter] settles its caller; a
    resolved one sets the header and re-issues the request.  A resolved
    [ReqWaiter] resumes its interceptor, which attaches the token and lets
    the request go; a rejected one makes its interceptor throw, and the
    error then reaches the response interceptor: those are returned. *)
Fixpoint processQueue (error : option Error) (token : option string)
         (q : list Waiter) (st : State) : State * list (RequestConfig * Error) :=
  match q with
  | [] => (st, [])
  | w :: q' =>
      let '(st1, thrown) :=
        match error with
        | Some e =>
            match w with
            | ReqWaiter cfg => (st, [(cfg, e)])
            | RespWaiter orig => (settle orig (Rejected e) st, [])
            end
        | None =>
            match token with
            | Some t =>
                if JS.truthy t then
                  match w with
                  | ReqWaiter cfg => (dispatch (attach (Some t) cfg) st, [])
                  | RespWaiter orig => (reissue (setAuthorization t orig) st, [])
                  end
                else (st, [])
            | None => (st, [])
            end
        end in
      let '(st2, thrown') := processQueue error token q' st1 in
      (st2, thrown ++ thrown')
  end.

(** Errors thrown by request interceptors travel down the promise chain to
    the response interceptor's error handler. *)
Fixpoint rethrow (thrown : list (RequestConfig * Error)) (st : State) : State :=
  match thrown with
  | [] => st
  | (cfg, e) :: rest => rethrow rest (handleError cfg e st)
  end.

(** *** The interceptor resumes after [await refreshAccessToken()] *)
Definition leaderResume (l : Leader) (r : RefreshFailure + string) (st : State) : State :=
  match lkind l, r with
  | ReqLeader, inr token =>
      let '(st1, thrown) := processQueue None (Some token) (refreshQueue st) st in
      let st2 := set_isRefreshing false (set_refreshQueue [] st1) in
      rethrow thrown (dispatch (attach (Some token) (lcfg l)) st2)
  | ReqLeader, inl f =>
      let error := errorOf f in
      let '(st1, thrown) := processQueue (Some error) None (refreshQueue st) st in
      let st2 := set_isRefreshing false (set_refreshQueue [] st1) in
      rethrow (thrown ++ [(lcfg l, error)]) st2
  | RespLeader, inr newToken =>
      let '(st1, thrown) := processQueue None (Some newToken) (refreshQueue st) st in
      let st2 := reissue (setAuthorization newToken (lcfg l)) (set_refreshQueue [] st1) in
      rethrow thrown (set_isRefreshing false st2)
  | RespLeader, inl f =>
      let refreshError := errorOf f in
      let '(st1, thrown) := processQueue (Some refreshError) None (refreshQueue st) st in
      let st2 := set_store (clearTokens (store st1)) (set_refreshQueue [] st1) in
      let st3 := settle (lcfg l) (Rejected refreshError) st2 in
      rethrow thrown (set_isRefreshing false st3)
  end.

(** *** The environment *)

(** [Login] is [login] of api/auth.ts (it stores the pair it received).
    [RestoreStart], [RestoreReply] and [RestoreResume] are the three atomic
    pieces of the session restore of AuthContext: [tryRestoreSession] up to
    its [await], the answer to the POST of [refreshToken], and
    [tryRestoreSession] after its [await].  [Logout] stands for every
    [clearTokens()] made outside the client. *)
Inductive Action : Type :=
| Submit (u : option string)                       (* a caller calls [apiClient] *)
| RunRequest (k : nat) (now : Z)                   (* a request interceptor starts *)
| Reply (k : nat) (status : option Z)              (* a response, or a network error *)
| RefreshReply (k : nat) (r : RefreshResponse) (now : Z)
| LeaderResume (k : nat)
| Login (access_token : string) (expires_in : Z) (refresh_token : string) (now : Z)
| RestoreStart
| RestoreReply (k : nat) (r : RefreshResponse) (now : Z)
| RestoreResume (k : nat) (now : Z)
| Logout.

(** One atomic step; [None] when the action is not possible in [st]. *)
Definition step (a : Action) (st : State) : option State :=
  match a with
  | Submit u =>
      Some (set_pending (pending st ++ [mkConfig u None false 0]) st)
  | RunRequest k now =>
      match pick k (pending st) with
      | Some (cfg, rest) => Some (requestInterceptor now cfg (set_pending rest st))
      | None => None
      end
  | Reply k status =>
      match pick k (wire st) with
      | Some (cfg, rest) =>
          let st := set_wire rest st in
          match status with
          | Some s =>
              if (200 <=? s) && (s <? 300)
              then Some (settle cfg (Responded s) st)
              else Some (handleError cfg (AxiosError status (Some cfg)) st)
          | None => Some (handleError cfg (AxiosError None (Some cfg)) st)
          end
      | None => None
      end
  | RefreshReply k r now =>
      match nth_error (leaders st) k with
      | Some l =>
          match lawait l with
          | AwaitNet =>
              let '(s', res) := finishRefresh r now (store st) in
              Some (set_leaders (replace k (mkLeader (lkind l) (lcfg l) (Settled res))
                                         (leaders st))
                                (set_store s' st))
          | Settled _ => None
          end
      | None => None
      end
  | LeaderResume k =>
      match pick k (leaders st) with
      | Some (l, rest) =>
          match lawait l with
          | Settled r => Some (leaderResume l r (set_leaders rest st))
          | AwaitNet => None
          end
      | None => None
      end
  | Login access_token expires_in refresh_token now =>
      Some (set_store (setRefreshToken refresh_token
                         (setAccessToken access_token expires_in now (store st))) st)
  | RestoreStart =>
      Some (restoreStart st)
  | RestoreReply k r now =>
      match nth_error (restores st) k with
      | Some RestoreNet =>
          let '(s', res) := restoreReply r now (store st) in
          Some (set_restores (replace k (RestoreSettled res) (restores st))
                             (set_store s' st))
      | _ => None
      end
  | RestoreResume k now =>
      match pick k (restores st) with
      | Some (RestoreSettled r, rest) =>
          Some (set_restores rest (set_store (restoreResume r now (store st)) st))
      | _ => None
      end
  | Logout =>
      Some (set_store (clearTokens (store st)) st)
  end.

(** A schedule, run from [st]. *)
Fixpoint run (acts : list Action) (st : State) : option State :=
  match acts with
  | [] => Some st
  | a :: acts' =>
      match step a st with
      | Some st' => run acts' st'
      | None => None
      end
  end.

End WithBaseURL.

(** *** Observations *)

Definition isRefreshCall (e : Event) : bool :=
  match e with EvRefreshCall => true | _ => false end.

Definition isRefreshPost (e : Event) : bool :=
  match e with EvRefreshPost _ => true | _ => false end.

(** Invocations of [refreshAccessToken] so far. *)
Definition refreshCalls (st : State) : nat :=
  length (filter isRefreshCall (trace st)).

(** Refresh POSTs sent by [refreshAccessToken] so far. *)
Definition refreshPosts (st : State) : nat :=
  length (filter isRefreshPost (trace st)).

Definition isRestorePost (e : Event) : bool :=
  match e with EvRestorePost _ => true | _ => false end.

(** Refresh POSTs sent by [refreshToken] of api/auth.ts so far. *)
Definition restorePosts (st : State) : nat :=
  length (filter isRestorePost (trace st)).

Definition awaitingNet (l : Leader) : bool :=
  match lawait l with AwaitNet => true | Settled _ => false end.

(** POSTs of [refreshAccessToken] outstanding now. *)
Definition inFlight (st : State) : nat :=
  length (filter awaitingNet (leaders st)).

Definition awaitingRestore (r : RestoreAwait) : bool :=
  match r with RestoreNet => true | RestoreSettled _ => false end.

(** POSTs of [refreshToken] of api/auth.ts outstanding now. *)
Definition restoresInFlight (st : State) : nat :=
  length (filter awaitingRestore (restores st)).

(** POSTs to the refresh endpoint outstanding now, whoever sent them. *)
Definition refreshesInFlight (st : State) : nat :=
  (inFlight st + restoresInFlight st)%nat.

End Client.

(* ================================================================= *)
(** ** Vocabulary for the ticket properties *)

Module TicketSpec.

Import TicketActions.

(** A status is a target of the status-update action for user [a] on ticket
    [t] when some session on the button of the card sends a request carrying
    it. *)
Definition reachesTarget (a : Auth) (t : TicketDetail) (s : string) : Prop :=
  exists evs r, In r (cardStatusRun a t evs) /\ targetOf r = Some s.

(** While the dialog is open the selected status is one of the options. *)
Definition selectionOK (t : TicketDetail) (f : StatusForm) : Prop :=
  sf_isOpen f = true -> In (sf_status f) (availableStatuses t).

(** *** Sample data *)

(** An administrator looking at a closed ticket assigned to them. *)
Definition adminAuth : Auth :=
  mkAuth (Some (mkUserRef "u1")) ["ADMIN"; "MANAGER"; "EMPLOYEE"].

Definition closedTicket : TicketDetail :=
  mkTicket "t1" "Closed" true (Some 2%Z) (Some (mkUserRef "u1")) 0.

(** A ticket in status Assigned, assigned to the employee looking at it. *)
Definition assignedTicket : TicketDetail :=
  mkTicket "t2" "Assigned" false (Some 3%Z) (Some (mkUserRef "u1")) 0.

(** An employee who is not the assignee of that ticket. *)
Definition otherEmployee : Auth :=
  mkAuth (Some (mkUserRef "u7")) ["EMPLOYEE"].


End TicketSpec.

(* ================================================================= *)
(** ** Vocabulary for the client properties: closed forms of the steps,
       invariants, windows of concurrent callers and what a caller observes *)

Module ClientSpec.

Import TokenStorage Client.

(** *** Closed forms *)

(** The entries a schedule adds to the state. *)
Definition add_settled (l : list (RequestConfig * Outcome)) (st : State) : State :=
  mkState (store st) (isRefreshing st) (refreshQueue st) (leaders st)
          (pending st) (wire st) (settled st ++ l) (trace st) (restores st).

(** What [refreshAccessToken] does before its [await], by the store. *)
Definition startAwait (s : Store) : Await :=
  if JS.truthyO (getRefreshToken s) then AwaitNet else Settled (inl NoRefreshToken).

Definition startEvents (s : Store) : list Event :=
  match getRefreshToken s with
  | Some rt => if JS.truthy rt then [EvRefreshPost rt] else []
  | None => []
  end.

(** The configs of the waiters, by kind. *)
Fixpoint reqConfigs (q : list Waiter) : list RequestConfig :=
  match q with
  | [] => []
  | ReqWaiter c :: q' => c :: reqConfigs q'
  | RespWaiter _ :: q' => reqConfigs q'
  end.

Fixpoint respConfigs (q : list Waiter) : list RequestConfig :=
  match q with
  | [] => []
  | ReqWaiter _ :: q' => respConfigs q'
  | RespWaiter o :: q' => o :: respConfigs q'
  end.

(** A re-issued config: the ghost counter goes up. *)
Definition reissued (cfg : RequestConfig) : RequestConfig :=
  mkConfig (url cfg) (Authorization cfg) (_retry cfg) (S (retries cfg)).

(** What resolving a waiter with [t] makes visible. *)
Definition resumeEvent (t : string) (w : Waiter) : Event :=
  match w with
  | ReqWaiter c => EvDispatch (setAuthorization t c)
  | RespWaiter o => EvRetry (reissued (setAuthorization t o))
  end.

Definition resolved (t : string) (q : list Waiter) (st : State) : State :=
  mkState (store st) (isRefreshing st) (refreshQueue st) (leaders st)
          (pending st ++ map (fun o => reissued (setAuthorization t o)) (respConfigs q))
          (wire st ++ map (setAuthorization t) (reqConfigs q))
          (settled st)
          (trace st ++ map (resumeEvent t) q)
          (restores st).

(** The waiters [processQueue] wakes when the refresh gave [t]: all of them,
    or none when [t] is the empty string. *)
Definition woken (t : string) (q : list Waiter) : list Waiter :=
  if JS.truthy t then q else [].

Definition rejections (e : Error) (cs : list RequestConfig)
  : list (RequestConfig * Outcome) :=
  map (fun c => (c, Rejected e)) cs.

(** *** Invariants *)

(** Either a refresh is under way, with exactly one interceptor awaiting
    it, or none is, and then nobody waits. *)
Definition singleFlight (st : State) : Prop :=
  (isRefreshing st = true /\ exists l, leaders st = [l])
  \/ (isRefreshing st = false /\ leaders st = [] /\ refreshQueue st = []).

(** A config anywhere in the client: re-issued at most once, only with its
    [_retry] flag set, and the flag is only ever set on ordinary requests. *)
Definition cfgOK (c : RequestConfig) : Prop :=
  (retries c <= 1)%nat
  /\ (retries c = 1%nat -> _retry c = true)
  /\ (_retry c = true -> respIsAuthEndpoint c = false).

(** A config held by the response interceptor between [_retry = true] and
    [apiClient(originalRequest)]: flagged, not re-issued yet. *)
Definition heldOK (c : RequestConfig) : Prop :=
  retries c = 0%nat /\ _retry c = true /\ respIsAuthEndpoint c = false.

Definition waiterOK (w : Waiter) : Prop :=
  match w with
  | ReqWaiter c => cfgOK c
  | RespWaiter o => heldOK o
  end.

Definition leaderOK (l : Leader) : Prop :=
  match lkind l with
  | ReqLeader => cfgOK (lcfg l)
  | RespLeader => heldOK (lcfg l)
  end.

Definition eventOK (e : Event) : Prop :=
  match e with
  | EvRetry c => retries c = 1%nat /\ _retry c = true
  | EvDispatch c => cfgOK c
  | _ => True
  end.

Definition retryInv (st : State) : Prop :=
  Forall cfgOK (pending st)
  /\ Forall cfgOK (wire st)
  /\ Forall (fun p => cfgOK (fst p)) (settled st)
  /\ Forall waiterOK (refreshQueue st)
  /\ Forall leaderOK (leaders st)
  /\ Forall eventOK (trace st).

Definition waiterConfig (w : Waiter) : RequestConfig :=
  match w with
  | ReqWaiter c => c
  | RespWaiter o => o
  end.

(** Every config the client holds or has settled. *)
Definition allConfigs (st : State) : list RequestConfig :=
  pending st ++ wire st ++ map fst (settled st)
  ++ map waiterConfig (refreshQueue st) ++ map lcfg (leaders st).

(** *** Concurrent callers *)

(** The arrival [a] needs a refresh in [st]: a request interceptor that
    finds the stored token about to expire, or a first 401 for an ordinary
    request. *)
Definition needsRefresh (a : Action) (st : State) : bool :=
  match a with
  | RunRequest k now =>
      match nth_error (pending st) k with
      | Some cfg =>
          negb (reqIsAuthEndpoint cfg)
          && JS.truthyO (getAccessToken (store st))
          && isTokenExpiringSoon 60 now (store st)
      | None => false
      end
  | Reply k (Some s) =>
      match nth_error (wire st) k with
      | Some cfg => (s =? 401)%Z && negb (respIsAuthEndpoint cfg) && negb (_retry cfg)
      | None => false
      end
  | _ => false
  end.

(** The entry a follower pushes on the queue. *)
Definition waiterOf (kind : LeaderKind) (cfg : RequestConfig) : Waiter :=
  match kind with
  | ReqLeader => ReqWaiter cfg
  | RespLeader => RespWaiter cfg
  end.

(** Every action but the resumption of the interceptor that performs the
    refresh. *)
Definition quiet (a : Action) : bool :=
  match a with
  | LeaderResume _ => false
  | _ => true
  end.

(** The steps of the session restore of AuthContext. *)
Definition isRestoreAction (a : Action) : bool :=
  match a with
  | RestoreStart | RestoreReply _ _ _ | RestoreResume _ _ => true
  | _ => false
  end.

(** A schedule in which no session restore takes a step. *)
Definition noRestore (acts : list Action) : bool :=
  forallb (fun a => negb (isRestoreAction a)) acts.

(** The refresh ended with an error, or with a token that is not empty. *)
Definition sharedOutcome (r : RefreshFailure + string) : Prop :=
  match r with
  | inl _ => True
  | inr t => t <> ""
  end.

(** Whether the refresh behind this promise sent its POST: it did unless it
    failed for lack of a refresh token. *)
Definition posted (aw : Await) : bool :=
  match aw with
  | Settled (inl NoRefreshToken) => false
  | _ => true
  end.

(** The refresh POSTs behind an outcome. *)
Definition postsOf (r : RefreshFailure + string) : nat :=
  if posted (Settled r) then 1%nat else 0%nat.

Section WithBaseURL.

Variable B : string.

(** The state an interceptor leaves when it resumes from the refresh, field
    by field. *)
Definition resumed (l : Leader) (r : RefreshFailure + string) (st : State) : State :=
  let q := refreshQueue st in
  match lkind l, r with
  | ReqLeader, inl f =>
      mkState (store st) false [] (leaders st) (pending st) (wire st)
              (settled st ++ rejections (errorOf B f) (respConfigs q)
                          ++ rejections (errorOf B f) (reqConfigs q ++ [lcfg l]))
              (trace st) (restores st)
  | RespLeader, inl f =>
      mkState (clearTokens (store st)) false [] (leaders st) (pending st) (wire st)
              (settled st ++ rejections (errorOf B f) (respConfigs q)
                          ++ [(lcfg l, Rejected (errorOf B f))]
                          ++ rejections (errorOf B f) (reqConfigs q))
              (trace st) (restores st)
  | ReqLeader, inr t =>
      mkState (store st) false [] (leaders st)
              (pending st ++ map (fun o => reissued (setAuthorization t o))
                                 (respConfigs (woken t q)))
              (wire st ++ map (setAuthorization t) (reqConfigs (woken t q))
                       ++ [attach (Some t) (lcfg l)])
              (settled st)
              (trace st ++ map (resumeEvent t) (woken t q)
                        ++ [EvDispatch (attach (Some t) (lcfg l))])
              (restores st)
  | RespLeader, inr t =>
      mkState (store st) false [] (leaders st)
              (pending st ++ map (fun o => reissued (setAuthorization t o))
                                 (respConfigs (woken t q))
                          ++ [reissued (setAuthorization t (lcfg l))])
              (wire st ++ map (setAuthorization t) (reqConfigs (woken t q)))
              (settled st)
              (trace st ++ map (resumeEvent t) (woken t q)
                        ++ [EvRetry (reissued (setAuthorization t (lcfg l)))])
              (restores st)
  end.

(** A window of concurrent activity: any schedule in which the interceptor
    performing the refresh does not resume.  The result is the state reached
    and the number of callers that needed a refresh when they arrived. *)
Fixpoint window (acts : list Action) (st : State) : option (State * nat) :=
  match acts with
  | [] => Some (st, 0%nat)
  | a :: rest =>
      if quiet a then
        match step B a st with
        | Some st' =>
            match window rest st' with
            | Some (st'', n) => Some (st'', if needsRefresh a st then S n else n)
            | None => None
            end
        | None => None
        end
      else None
  end.

(** What a queued caller sees when the refresh ends with [r]: its promise
    rejected with the refresh error, or its request on its way with the new
    token ([ReqWaiter]: sent; [RespWaiter]: re-issued). *)
Definition waiterObserves (w : Waiter) (r : RefreshFailure + string) (st : State) : Prop :=
  match r with
  | inl f => In (waiterConfig w, Rejected (errorOf B f)) (settled st)
  | inr t =>
      match w with
      | ReqWaiter c => In (setAuthorization t c) (wire st)
      | RespWaiter o => In (reissued (setAuthorization t o)) (pending st)
      end
  end.

(** The same for the caller whose interceptor performed the refresh. *)
Definition leaderObserves (l : Leader) (r : RefreshFailure + string) (st : State) : Prop :=
  waiterObserves (waiterOf (lkind l) (lcfg l)) r st.

End WithBaseURL.

(** *** Schedules used as examples *)

(** A request answered 401, re-issued after a refresh, and answered 401
    again. *)
Definition twice401 : list Action :=
  [ Login "tok0" 900 "rt0" 0;
    Submit (Some "/api/tickets/");
    RunRequest 0 1000;
    Reply 0 (Some 401%Z);
    RefreshReply 0 (RefreshOk "tok1" 900) 2000;
    LeaderResume 0;
    RunRequest 0 3000 ].

(** The state that schedule leads to: the re-issued request is on the wire. *)
Definition twice401_state : option State :=
  Eval vm_compute in run "http://localhost:5003" twice401 (init (empty true None)).

(** A session logged in while [localStorage] is unavailable: the access
    token is in memory, no refresh token was persisted.  Forty seconds before
    the token expires a ticket request starts. *)
Definition noRefreshTokenRun : list Action :=
  [ Login "tok0" 900 "rt0" 0;
    Submit (Some "/api/tickets/");
    RunRequest 0 860000;
    LeaderResume 0 ].

(** Two ticket requests are sent with the same token and both answered
    401; the refresh POST comes back before the interceptor resumes. *)
Definition two401_pre : list Action :=
  [ Login "tok0" 900 "rt0" 0;
    Submit (Some "/api/tickets/1"); Submit (Some "/api/tickets/2");
    RunRequest 0 1000; RunRequest 0 1000 ].

Definition two401_window (r : RefreshResponse) : list Action :=
  [ Reply 0 (Some 401%Z); Reply 0 (Some 401%Z); RefreshReply 0 r 901000 ].

(** A page reload with a persisted refresh token: [tryRestoreSession] has
    sent its POST and waits for the answer when a request of the page (the
    categories of the quick-ticket dialog, which the layout shows outside
    the route guards) leaves without a token and is answered 401. *)
Definition reloadedStore : Store := empty true (Some "rt0").

Definition restoreOverlap : list Action :=
  [ RestoreStart;
    Submit (Some "/api/categories/");
    RunRequest 0 1000;
    Reply 0 (Some 401%Z) ].

Definition two401_idle : option State :=
  Eval vm_compute in run "http://localhost:5003" two401_pre (init (empty true None)).

Definition two401_settled : option (State * nat) :=
  Eval vm_compute in
    match two401_idle with
    | Some st => window "http://localhost:5003" (two401_window (RefreshOk "tok1" 900)) st
    | None => None
    end.

(** A caller answered 401 in a session that holds no refresh token (the
    login happened while [localStorage] was unavailable). *)
Definition one401_pre : list Action :=
  [ Login "tok0" 900 "rt0" 0; Submit (Some "/api/tickets/1"); RunRequest 0 1000 ].

(** The proactive scenario: the token expires in 30 seconds when a ticket
    request starts; the refresh returns [tok1]. *)
Definition expiring_pre : list Action :=
  [ Login "tok0" 900 "rt0" 0; Submit (Some "/api/tickets/") ].

Definition expiring_state : option State :=
  Eval vm_compute in run "http://localhost:5003" expiring_pre (init (empty true None)).

(** The same request in a session that holds no refresh token, up to the
    resumption of its interceptor. *)
Definition expiring_noRefreshToken : list Action :=
  expiring_pre ++ [ RunRequest 0 870000; LeaderResume 0 ].

(** Two requests made while the token is expiring, and a refresh that is
    answered with an empty token. *)
Definition expiring_emptyToken : list Action :=
  [ Login "tok0" 900 "rt0" 0;
    Submit (Some "/api/tickets/1"); Submit (Some "/api/tickets/2");
    RunRequest 0 870000; RunRequest 0 870000;
    RefreshReply 0 (RefreshOk "" 900) 871000;
    LeaderResume 0 ].

End ClientSpec.

(* ================================================================= *)
(** ** router/AppRouter.tsx, auth/ProtectedRoute.tsx, auth/useAuth.ts and
       components/layout/Sidebar.tsx: who gets where *)

Module Routing.

Import Roles.

(** [EMPLOYEE_ROLES] and [MANAGER_ROLES] of router/AppRouter.tsx *)
Definition EMPLOYEE_ROLES : list Z := [EMPLOYEE; MANAGER; ADMIN].
Definition MANAGER_ROLES : list Z := [MANAGER; ADMIN].

(** The field of [User] the guards read. *)
Record User : Type := mkUser { roles : list string }.

(** The fields of [AuthContextValue] the guards read. *)
Record AuthContextValue : Type := mkContext {
  user : option User;
  isLoading : bool
}.

(** [isAuthenticated: user !== null] *)
Definition isAuthenticated (ctx : AuthContextValue) : bool :=
  match user ctx with Some _ => true | None => false end.

(** [context.user?.roles ?? []] *)
Definition rolesOf (ctx : AuthContextValue) : list string :=
  match user ctx with Some u => roles u | None => [] end.

(** The flags [useAuth()] adds to the context. *)
Definition isEmployee (ctx : AuthContextValue) : bool := isAtLeastEmployee (rolesOf ctx).
Definition isManager (ctx : AuthContextValue) : bool := isAtLeastManager (rolesOf ctx).
Definition isAdminUser (ctx : AuthContextValue) : bool := isAdmin (rolesOf ctx).

(** What a route element renders. *)
Inductive Element : Type :=
| LoadingContainer
| Navigate (to : string)
| Page (name : string)
| NotFound.

(** [ProtectedRoute({ children, requiredRoles, loginPath, fallbackPath })];
    [None] is an omitted [requiredRoles]. *)
Definition ProtectedRoute (ctx : AuthContextValue) (children : Element)
           (requiredRoles : option (list Z)) (loginPath fallbackPath : string) : Element :=
  if isLoading ctx then LoadingContainer
  else if negb (isAuthenticated ctx) then Navigate loginPath
  else
    match requiredRoles with
    | Some required =>
        if (0 <? length required)%nat then
          let userRoles := rolesOf ctx in
          if negb (hasAnyRole userRoles required) then Navigate fallbackPath
          else children
        else children
    | None => children
    end.

(** An entry of the route table: how its [element] is built. *)
Inductive RouteElement : Type :=
| Plain (e : Element)
| Protected (requiredRoles : option (list Z)) (page : string).

(** The routes of [createBrowserRouter], in the order of the file. *)
Definition routes : list (string * RouteElement) :=
  [ ("/login", Plain (Page "LoginPage"));
    ("/", Plain (Navigate "/dashboard"));
    ("/dashboard", Protected None "DashboardPage");
    ("/tickets", Protected None "TicketListPage");
    ("/tickets/new", Protected None "CreateTicketPage");
    ("/tickets/:id", Protected None "TicketDetailPage");
    ("/employee/queue", Protected (Some EMPLOYEE_ROLES) "QueuePage");
    ("/employee/tickets", Protected (Some EMPLOYEE_ROLES) "MyTicketsPage");
    ("/employee/emails", Protected (Some EMPLOYEE_ROLES) "EmailInboxPage");
    ("/employee/performance", Protected (Some EMPLOYEE_ROLES) "MyPerformancePage");
    ("/manager/team", Protected (Some MANAGER_ROLES) "TeamPage");
    ("/manager/analytics", Protected (Some MANAGER_ROLES) "AdvancedAnalyticsPage");
    ("*", Plain NotFound) ].

(** The element of a route; [ProtectedRoute] is given neither [loginPath]
    nor [fallbackPath], so both take their defaults. *)
Definition render (ctx : AuthContextValue) (r : RouteElement) : Element :=
  match r with
  | Plain e => e
  | Protected requiredRoles page =>
      ProtectedRoute ctx (Page page) requiredRoles "/login" "/tickets"
  end.

(** The route a location matches when it fits no path with a parameter (the
    only such path is [/tickets/:id]): the entry with that very path, or
    else the splat route.  The links of the sidebar and the targets of the
    guards are such locations. *)
Fixpoint routeOf (table : list (string * RouteElement)) (location : string) : RouteElement :=
  match table with
  | [] => Plain NotFound
  | (path, r) :: rest =>
      if String.eqb path location then r else routeOf rest location
  end.

(** [Sidebar()]: the targets of its [NavItem]s, top to bottom; [None] is the
    [return null] for a visitor who is not authenticated. *)
Definition Sidebar (ctx : AuthContextValue) : option (list string) :=
  if negb (isAuthenticated ctx) then None
  else Some
    (["/dashboard"; "/tickets"]
     ++ (if isEmployee ctx
         then ["/employee/queue"; "/employee/tickets"; "/employee/emails";
               "/employee/performance"]
         else [])
     ++ (if isManager ctx then ["/manager/team"; "/manager/analytics"] else [])
     ++ (if isAdminUser ctx then ["/admin/settings"] else [])).

End Routing.

(* ================================================================= *)
(** ** types/api.ts: reading an error *)

Module Api.

#[local] Unset Elimination Schemes.

(** A value caught as an error, as far as the type guards look at it.  An
    object is given by its own properties (the first entry of a key counts);
    [isError] tells the instances of [Error], an AxiosError included. *)
Inductive Value : Type :=
| VUndefined
| VNull
| VBoolean (b : bool)
| VNumber (n : Z)
| VString (s : string)
| VObject (isError : bool) (props : list (string * Value)).

#[local] Set Elimination Schemes.

(** What evaluating an expression gives: a value, or a thrown TypeError. *)
Inductive Result : Type :=
| Returns (v : Value)
| Throws.

(** The own property [k]. *)
Fixpoint getOwn (k : string) (props : list (string * Value)) : option Value :=
  match props with
  | [] => None
  | (k', v) :: rest => if String.eqb k' k then Some v else getOwn k rest
  end.

(** [typeof v === 'object'] *)
Definition typeofObject (v : Value) : bool :=
  match v with
  | VNull | VObject _ _ => true
  | _ => false
  end.

(** [v !== null] *)
Definition notNull (v : Value) : bool :=
  match v with
  | VNull => false
  | _ => true
  end.

(** The names an object inherits: those of [Object.prototype] and, for an
    error, [name] and [message] of [Error.prototype]. *)
Definition inherited (isError : bool) (k : string) : bool :=
  JS.arrayIncludes Roles.objectPrototypeKeys k
  || (isError && JS.arrayIncludes ["name"; "message"] k).

(** [k in v], for [v] an object. *)
Definition hasProperty (k : string) (v : Value) : bool :=
  match v with
  | VObject isError props =>
      match getOwn k props with
      | Some _ => true
      | None => inherited isError k
      end
  | _ => false
  end.

(** [v.k] for one of the names read here ([response], [data], [error],
    [code], [message]), none of which [Object.prototype] or the wrapper of a
    primitive defines: the own property, else [message] of
    [Error.prototype] (the empty string), else [undefined].  On [null] and
    [undefined] the access throws. *)
Definition read (k : string) (v : Value) : Result :=
  match v with
  | VUndefined | VNull => Throws
  | VObject isError props =>
      match getOwn k props with
      | Some x => Returns x
      | None =>
          if isError && String.eqb k "message" then Returns (VString "")
          else Returns VUndefined
      end
  | _ => Returns VUndefined
  end.

(** The same access where the guards have already excluded [null] and
    [undefined]. *)
Definition field (k : string) (v : Value) : Value :=
  match read k v with
  | Returns x => x
  | Throws => VUndefined
  end.

(** [isApiError(error)] *)
Definition isApiError (error : Value) : bool :=
  typeofObject error
  && notNull error
  && hasProperty "response" error
  && typeofObject (field "response" error)
  && notNull (field "response" error)
  && hasProperty "data" (field "response" error)
  && typeofObject (field "data" (field "response" error))
  && notNull (field "data" (field "response" error))
  && hasProperty "error" (field "data" (field "response" error)).

(** [error.response.data.error] *)
Definition envelope (error : Value) : Value :=
  field "error" (field "data" (field "response" error)).

(** [error instanceof Error] *)
Definition instanceofError (v : Value) : bool :=
  match v with
  | VObject isError _ => isError
  | _ => false
  end.

(** [getErrorCode(error)] *)
Definition getErrorCode (error : Value) : Result :=
  if isApiError error then read "code" (envelope error)
  else Returns (VString "UNKNOWN_ERROR").

(** [getErrorMessage(error)] *)
Definition getErrorMessage (error : Value) : Result :=
  if isApiError error then read "message" (envelope error)
  else if instanceofError error then read "message" error
  else Returns (VString "An unexpected error occurred").

(** The body the backend sends with an error:
    [{ error: { code, message } }]. *)
Definition errorBody (code message : string) : Value :=
  VObject false [("error", VObject false [("code", VString code);
                                            ("message", VString message)])].

End Api.

(* ================================================================= *)
(** ** The other dialogs of components/tickets/TicketActions.tsx *)

Module Dialogs.

Import TicketActions.

(** *** useMutationForm *)

(** The three state cells of the hook; [error] starts as [null]. *)
Record Form : Type := mkForm {
  isOpen : bool;
  isSubmitting : bool;
  error : Api.Value
}.

Definition useMutationForm : Form := mkForm false false Api.VNull.

(** [open] *)
Definition open (f : Form) : Form := mkForm true (isSubmitting f) Api.VNull.

(** [close], as created by a render in which [isSubmitting] was [captured]. *)
Definition close (captured : bool) (f : Form) : Form :=
  if negb captured then mkForm false (isSubmitting f) Api.VNull else f.

Definition setIsSubmitting (v : bool) (f : Form) : Form :=
  mkForm (isOpen f) v (error f).

Definition setError (e : Api.Value) (f : Form) : Form :=
  mkForm (isOpen f) (isSubmitting f) e.

(** How an awaited call ends: [None] when it succeeded, the error caught
    otherwise. *)
Definition Answer : Type := option Api.Value.

(** Where a [handleSubmit] is: not running, awaiting its request, or
    awaiting [onSuccess()].  The components keep no such cell; it is carried
    along to tell which answer can arrive. *)
Inductive Phase : Type := Idle | Requesting | Refreshing.

(** The common part of every [handleSubmit] when its request comes back.
    On success [form.close()] runs (the function captured when the submit
    was accepted, so with [isSubmitting] false) and [onSuccess()] is
    awaited; on failure [catch] stores the error and [finally] resets the
    flag. *)
Definition answered (a : Answer) (f : Form) : Form * Phase :=
  match a with
  | None => (close false f, Refreshing)
  | Some e => (setIsSubmitting false (setError e f), Idle)
  end.

(** [onSuccess()] comes back: an error is caught as above; [finally] resets
    the flag. *)
Definition refreshed (a : Answer) (f : Form) : Form :=
  setIsSubmitting false
    (match a with
     | None => f
     | Some e => setError e f
     end).

(** *** api/mutations.ts: uploadAttachment *)

(** A [File]: its name and its size in bytes. *)
Record File : Type := mkFile { file_name : string; file_size : Z }.

(** A request whose body is a [FormData]: the parts in the order they were
    appended. *)
Inductive Part : Type :=
| Field (value : string)
| FilePart (f : File).

Record MultipartRequest : Type := mkMultipart {
  m_url : string;
  m_parts : list (string * Part);
  m_contentType : string
}.

(** [uploadAttachment(id, file)] *)
Definition uploadAttachment (id : string) (file : File) : MultipartRequest :=
  mkMultipart ("/api/tickets/" ++ id ++ "/attachments/")
              [("file", FilePart file)]
              "multipart/form-data".

(** *** UploadAttachmentButton *)

Record UploadState : Type := mkUpload {
  u_form : Form;
  u_file : option File;
  u_phase : Phase
}.

Definition UploadState_initial : UploadState := mkUpload useMutationForm None Idle.

Inductive UploadEvent : Type :=
| UpOpen                         (* click on "Add Attachment" *)
| UpChoose (f : option File)     (* the file input changes; [None]: no file *)
| UpSubmit
| UpAnswered (a : Answer)        (* the upload comes back *)
| UpRefreshed (a : Answer)       (* [onSuccess()] comes back *)
| UpCancel.

(** [ticket.attachments.length < 5] *)
Definition canUpload (t : TicketDetail) : bool := (attachments t <? 5)%nat.

(** [25 * 1024 * 1024] *)
Definition maxFileSize : Z := 25 * 1024 * 1024.

(** The error object the component makes up for a file that is too big. *)
Definition fileTooLarge : Api.Value :=
  Api.VObject false
    [("response", Api.VObject false [("data", Api.errorBody "FILE_TOO_LARGE" "File too large")])].

(** One event on the button, rendered for ticket [t].  With five
    attachments or more only a disabled button is rendered, so nothing can
    be clicked; the input and the form exist while the dialog is open; the
    input is disabled while submitting. *)
Definition uploadStep (t : TicketDetail) (ev : UploadEvent) (st : UploadState)
  : UploadState * option MultipartRequest :=
  let form := u_form st in
  match ev with
  | UpOpen =>
      if canUpload t
      then (mkUpload (open form) (u_file st) (u_phase st), None)
      else (st, None)
  | UpChoose f =>
      if canUpload t && isOpen form && negb (isSubmitting form) then
        match f with
        | Some f' =>
            if (file_size f' >? maxFileSize)%Z
            then (mkUpload (setError fileTooLarge form) (u_file st) (u_phase st), None)
            else (mkUpload form (Some f') (u_phase st), None)
        | None => (mkUpload form None (u_phase st), None)
        end
      else (st, None)
  | UpSubmit =>
      if canUpload t && isOpen form then
        let isValid := isSome (u_file st) in
        match MutationForm_handleSubmit isValid (isSubmitting form) tt with
        | Some _ =>
            match u_file st with
            | Some file =>
                (mkUpload (setError Api.VNull (setIsSubmitting true form))
                          (u_file st) Requesting,
                 Some (uploadAttachment (id t) file))
            | None => (st, None)
            end
        | None => (st, None)
        end
      else (st, None)
  | UpAnswered a =>
      match u_phase st with
      | Requesting =>
          let '(form', phase) := answered a form in
          (mkUpload form' (match a with None => None | Some _ => u_file st end) phase,
           None)
      | _ => (st, None)
      end
  | UpRefreshed a =>
      match u_phase st with
      | Refreshing => (mkUpload (refreshed a form) (u_file st) Idle, None)
      | _ => (st, None)
      end
  | UpCancel =>
      if canUpload t && isOpen form
      then (mkUpload (close (isSubmitting form) form) (u_file st) (u_phase st), None)
      else (st, None)
  end.

(** A session on the button; each event comes with the ticket as it is
    rendered at that moment.  The result holds the requests sent, oldest
    first. *)
Fixpoint uploadRun (evs : list (TicketDetail * UploadEvent)) (st : UploadState)
  : UploadState * list MultipartRequest :=
  match evs with
  | [] => (st, [])
  | (t, ev) :: evs' =>
      let '(st1, r) := uploadStep t ev st in
      let '(st2, rs) := uploadRun evs' st1 in
      (st2, match r with Some req => req :: rs | None => rs end)
  end.

(** *** UpdatePriorityButton *)

(** [PRIORITY_VALUES] of types/mutations.ts *)
Definition PRIORITY_VALUES : list Z := [1; 2; 3; 4]%Z.

(** [ticket.priority || 3] *)
Definition priorityOrDefault (t : TicketDetail) : Z :=
  match priority t with
  | Some p => if (p =? 0)%Z then 3%Z else p
  | None => 3%Z
  end.

Record PriorityState : Type := mkPriority {
  p_form : Form;
  p_priority : Z;
  p_note : Text.text;
  p_phase : Phase
}.

Definition PriorityState_initial (t : TicketDetail) : PriorityState :=
  mkPriority useMutationForm (priorityOrDefault t) [] Idle.

Inductive PriorityEvent : Type :=
| PrOpen
| PrSelect (p : Z)
| PrType (note : Text.text)
| PrSubmit
| PrAnswered (a : Answer)
| PrRefreshed (a : Answer)
| PrCancel.

Definition priorityStep (t : TicketDetail) (ev : PriorityEvent) (st : PriorityState)
  : PriorityState * option Mutations.Request :=
  let form := p_form st in
  match ev with
  | PrOpen => (mkPriority (open form) (priorityOrDefault t) [] (p_phase st), None)
  | PrSelect p =>
      if isOpen form && negb (isSubmitting form) && existsb (Z.eqb p) PRIORITY_VALUES
      then (mkPriority form p (p_note st) (p_phase st), None)
      else (st, None)
  | PrType note =>
      if isOpen form
      then (mkPriority form (p_priority st) note (p_phase st), None)
      else (st, None)
  | PrSubmit =>
      if isOpen form then
        match MutationForm_handleSubmit (noteValid (p_note st)) (isSubmitting form)
                (Mutations.updateTicketPriority (id t) (p_priority st) (p_note st)) with
        | Some req =>
            (mkPriority (setError Api.VNull (setIsSubmitting true form))
                        (p_priority st) (p_note st) Requesting, Some req)
        | None => (st, None)
        end
      else (st, None)
  | PrAnswered a =>
      match p_phase st with
      | Requesting =>
          let '(form', phase) := answered a form in
          (mkPriority form' (p_priority st)
                      (match a with None => [] | Some _ => p_note st end) phase, None)
      | _ => (st, None)
      end
  | PrRefreshed a =>
      match p_phase st with
      | Refreshing =>
          (mkPriority (refreshed a form) (p_priority st) (p_note st) Idle, None)
      | _ => (st, None)
      end
  | PrCancel =>
      if isOpen form
      then (mkPriority (close (isSubmitting form) form) (p_priority st) (p_note st)
                       (p_phase st), None)
      else (st, None)
  end.

(** A session on the button; each event comes with the ticket as it is
    rendered at that moment. *)
Fixpoint priorityRun (evs : list (TicketDetail * PriorityEvent)) (st : PriorityState)
  : PriorityState * list Mutations.Request :=
  match evs with
  | [] => (st, [])
  | (t, ev) :: evs' =>
      let '(st1, r) := priorityStep t ev st in
      let '(st2, rs) := priorityRun evs' st1 in
      (st2, match r with Some req => req :: rs | None => rs end)
  end.

(** *** ReassignButton *)

(** [TeamMember]: only the identifier matters here. *)
Record TeamMember : Type := mkMember { member_id : string }.

(** [r_loads] is a ghost list: one entry for each call of [loadTeamMembers]
    whose [getManagerTeam()] has not come back yet, holding the
    [ticket.assigned_to?.id] that the call captured when it was made. *)
Record ReassignState : Type := mkReassign {
  r_form : Form;
  r_teamMembers : list TeamMember;
  r_assignedTo : string;
  r_note : Text.text;
  r_loadingTeam : bool;
  r_loads : list (option string);
  r_phase : Phase
}.

Definition ReassignState_initial : ReassignState :=
  mkReassign useMutationForm [] "" [] false [] Idle.

Inductive ReassignEvent : Type :=
| ReOpen
| ReTeam (k : nat) (members : Api.Value + list TeamMember)
                             (* the [k]-th outstanding [getManagerTeam] comes back *)
| ReSelect (memberId : string)
| ReType (note : Text.text)
| ReSubmit
| ReAnswered (a : Answer)
| ReRefreshed (a : Answer)
| ReCancel.

(** [members.filter(m => m.id !== ticket.assigned_to?.id)], with the
    identifier the call captured. *)
Definition selectable (assignee : option string) (members : list TeamMember)
  : list TeamMember :=
  filter (fun m => negb (strictEq (Some (member_id m)) assignee)) members.

Definition reassignStep (t : TicketDetail) (ev : ReassignEvent) (st : ReassignState)
  : ReassignState * option Mutations.Request :=
  let form := r_form st in
  match ev with
  | ReOpen =>
      (mkReassign (open form) (r_teamMembers st) (r_assignedTo st) [] true
                  (r_loads st ++ [optId (assigned_to t)]) (r_phase st), None)
  | ReTeam k answer =>
      match Client.pick k (r_loads st) with
      | None => (st, None)
      | Some (assignee, rest) =>
          match answer with
          | inr members =>
              let filtered := selectable assignee members in
              (mkReassign form filtered
                          (match filtered with
                           | m :: _ => member_id m
                           | [] => r_assignedTo st
                           end)
                          (r_note st) false rest (r_phase st), None)
          | inl e =>
              (mkReassign (setError e form) (r_teamMembers st) (r_assignedTo st)
                          (r_note st) false rest (r_phase st), None)
          end
      end
  | ReSelect memberId =>
      if isOpen form && negb (r_loadingTeam st) && negb (isSubmitting form)
         && existsb (fun m => String.eqb (member_id m) memberId) (r_teamMembers st)
      then (mkReassign form (r_teamMembers st) memberId (r_note st)
                       (r_loadingTeam st) (r_loads st) (r_phase st), None)
      else (st, None)
  | ReType note =>
      if isOpen form
      then (mkReassign form (r_teamMembers st) (r_assignedTo st) note
                       (r_loadingTeam st) (r_loads st) (r_phase st), None)
      else (st, None)
  | ReSubmit =>
      if isOpen form then
        match MutationForm_handleSubmit
                (nonEmpty (r_assignedTo st) && noteValid (r_note st)) (isSubmitting form)
                (Mutations.reassignTicket (id t) (r_assignedTo st) (r_note st)) with
        | Some req =>
            (mkReassign (setError Api.VNull (setIsSubmitting true form))
                        (r_teamMembers st) (r_assignedTo st) (r_note st)
                        (r_loadingTeam st) (r_loads st) Requesting, Some req)
        | None => (st, None)
        end
      else (st, None)
  | ReAnswered a =>
      match r_phase st with
      | Requesting =>
          let '(form', phase) := answered a form in
          (mkReassign form' (r_teamMembers st) (r_assignedTo st)
                      (match a with None => [] | Some _ => r_note st end)
                      (r_loadingTeam st) (r_loads st) phase, None)
      | _ => (st, None)
      end
  | ReRefreshed a =>
      match r_phase st with
      | Refreshing =>
          (mkReassign (refreshed a form) (r_teamMembers st) (r_assignedTo st)
                      (r_note st) (r_loadingTeam st) (r_loads st) Idle, None)
      | _ => (st, None)
      end
  | ReCancel =>
      if isOpen form
      then (mkReassign (close (isSubmitting form) form) (r_teamMembers st)
                       (r_assignedTo st) (r_note st) (r_loadingTeam st) (r_loads st)
                       (r_phase st), None)
      else (st, None)
  end.

Fixpoint reassignRun (evs : list (TicketDetail * ReassignEvent)) (st : ReassignState)
  : ReassignState * list Mutations.Request :=
  match evs with
  | [] => (st, [])
  | (t, ev) :: evs' =>
      let '(st1, r) := reassignStep t ev st in
      let '(st2, rs) := reassignRun evs' st1 in
      (st2, match r with Some req => req :: rs | None => rs end)
  end.

(** *** CloseTicketButton *)

(** [ClosureCode]: only the identifier matters here. *)
Record ClosureCode : Type := mkCode { code_id : string }.

(** [c_loads] is a ghost counter: the calls of [getClosureCodes] that have
    not come back yet. *)
Record CloseState : Type := mkClose {
  c_form : Form;
  c_closureCodes : list ClosureCode;
  c_closureCodeId : string;
  c_note : Text.text;
  c_loadingCodes : bool;
  c_loads : nat;
  c_phase : Phase
}.

Definition CloseState_initial : CloseState :=
  mkClose useMutationForm [] "" [] false 0 Idle.

Inductive CloseEvent : Type :=
| ClOpen
| ClCodes (codes : Api.Value + list ClosureCode)   (* [getClosureCodes] comes back *)
| ClSelect (codeId : string)
| ClType (note : Text.text)
| ClSubmit
| ClAnswered (a : Answer)
| ClRefreshed (a : Answer)
| ClCancel.

Definition closeStep (t : TicketDetail) (ev : CloseEvent) (st : CloseState)
  : CloseState * option Mutations.Request :=
  let form := c_form st in
  match ev with
  | ClOpen =>
      (mkClose (open form) (c_closureCodes st) (c_closureCodeId st) [] true
               (S (c_loads st)) (c_phase st), None)
  | ClCodes answer =>
      match c_loads st with
      | O => (st, None)
      | S n =>
          match answer with
          | inr codes =>
              (mkClose form codes
                       (match codes with
                        | c :: _ => code_id c
                        | [] => c_closureCodeId st
                        end)
                       (c_note st) false n (c_phase st), None)
          | inl e =>
              (mkClose (setError e form) (c_closureCodes st) (c_closureCodeId st)
                       (c_note st) false n (c_phase st), None)
          end
      end
  | ClSelect codeId =>
      if isOpen form && negb (c_loadingCodes st) && negb (isSubmitting form)
         && existsb (fun c => String.eqb (code_id c) codeId) (c_closureCodes st)
      then (mkClose form (c_closureCodes st) codeId (c_note st)
                    (c_loadingCodes st) (c_loads st) (c_phase st), None)
      else (st, None)
  | ClType note =>
      if isOpen form
      then (mkClose form (c_closureCodes st) (c_closureCodeId st) note
                    (c_loadingCodes st) (c_loads st) (c_phase st), None)
      else (st, None)
  | ClSubmit =>
      if isOpen form then
        match MutationForm_handleSubmit
                (nonEmpty (c_closureCodeId st) && noteValid (c_note st)) (isSubmitting form)
                (Mutations.closeTicket (id t) (c_closureCodeId st) (c_note st)) with
        | Some req =>
            (mkClose (setError Api.VNull (setIsSubmitting true form))
                     (c_closureCodes st) (c_closureCodeId st) (c_note st)
                     (c_loadingCodes st) (c_loads st) Requesting, Some req)
        | None => (st, None)
        end
      else (st, None)
  | ClAnswered a =>
      match c_phase st with
      | Requesting =>
          let '(form', phase) := answered a form in
          (mkClose form' (c_closureCodes st) (c_closureCodeId st)
                   (match a with None => [] | Some _ => c_note st end)
                   (c_loadingCodes st) (c_loads st) phase, None)
      | _ => (st, None)
      end
  | ClRefreshed a =>
      match c_phase st with
      | Refreshing =>
          (mkClose (refreshed a form) (c_closureCodes st) (c_closureCodeId st)
                   (c_note st) (c_loadingCodes st) (c_loads st) Idle, None)
      | _ => (st, None)
      end
  | ClCancel =>
      if isOpen form
      then (mkClose (close (isSubmitting form) form) (c_closureCodes st)
                    (c_closureCodeId st) (c_note st) (c_loadingCodes st) (c_loads st)
                    (c_phase st), None)
      else (st, None)
  end.

Fixpoint closeRun (evs : list (TicketDetail * CloseEvent)) (st : CloseState)
  : CloseState * list Mutations.Request :=
  match evs with
  | [] => (st, [])
  | (t, ev) :: evs' =>
      let '(st1, r) := closeStep t ev st in
      let '(st2, rs) := closeRun evs' st1 in
      (st2, match r with Some req => req :: rs | None => rs end)
  end.

End Dialogs.

(* ================================================================= *)
(** ** api/mutations.ts: createTicket *)

Module CreateTicket.

Import Dialogs.







End CreateTicket.

(* ================================================================= *)
(** ** components/common/Pagination.tsx *)

Module Pagination.

Local Open Scope Z_scope.

(** [Math.ceil(a / b)] for integers [a] and [b <> 0]. *)
Definition ceilDiv (a b : Z) : Z := - ((- a) / b).

(** [i, i + 1, ...], [n] numbers. *)
Fixpoint countFrom (n : nat) (i : Z) : list Z :=
  match n with
  | O => []
  | S n' => i :: countFrom n' (i + 1)
  end.

(** [for (let i = start; i <= end; i++) pages.push(i)] *)
Definition range (start end_ : Z) : list Z :=
  countFrom (Z.to_nat (end_ - start + 1)) start.

(** [getVisiblePages()] for the current [page] and [totalPages]. *)
Definition getVisiblePages (page totalPages : Z) : list Z :=
  let maxVisible := 5 in
  let start := Z.max 1 (page - maxVisible / 2) in
  let end_ := Z.min totalPages (start + maxVisible - 1) in
  let start :=
    if end_ - start + 1 <? maxVisible then Z.max 1 (end_ - maxVisible + 1) else start in
  range start end_.

(** [pages[0] > k]; on an empty array the element is [undefined] and the
    comparison is false. *)
Definition firstAbove (pages : list Z) (k : Z) : bool :=
  match pages with
  | p :: _ => p >? k
  | [] => false
  end.

(** [pages[pages.length - 1] < k] *)
Definition lastBelow (pages : list Z) (k : Z) : bool :=
  match rev pages with
  | p :: _ => p <? k
  | [] => false
  end.

(** What the component renders. *)
Record View : Type := mkView {
  totalPages : Z;
  canGoPrevious : bool;
  canGoNext : bool;
  visiblePages : list Z;
  firstButton : bool;          (* the extra button for page 1 *)
  leadingEllipsis : bool;
  lastButton : bool;           (* the extra button for the last page *)
  trailingEllipsis : bool
}.

(** [Pagination({ page, pageSize, totalCount })], for a page size other
    than 0; [None] is the [return null]. *)
Definition Pagination (page pageSize totalCount : Z) : option View :=
  let totalPages := ceilDiv totalCount pageSize in
  if totalPages <=? 1 then None
  else
    let canGoPrevious := page >? 1 in
    let canGoNext := page <? totalPages in
    let visiblePages := getVisiblePages page totalPages in
    Some (mkView totalPages canGoPrevious canGoNext visiblePages
                 (firstAbove visiblePages 1)
                 (firstAbove visiblePages 1 && firstAbove visiblePages 2)
                 (lastBelow visiblePages totalPages)
                 (lastBelow visiblePages totalPages
                  && lastBelow visiblePages (totalPages - 1))).

End Pagination.

(* ================================================================= *)
(** ** utils/dateFormat.ts and components/common/TimeElapsed.tsx *)

Module Elapsed.

Local Open Scope Z_scope.

(** A number that may be [NaN] ([None]): [new Date(s).getTime()] is [NaN]
    for a string that is not a date. *)
Definition num : Type := option Z.

(** [a - b] *)
Definition minus (a : Z) (b : num) : num := option_map (fun y => a - y) b.

(** [Math.floor(a / d)] for a positive integer [d] *)
Definition floorDiv (a : num) (d : Z) : num := option_map (fun x => x / d) a.

(** [a % d]: the remainder has the sign of [a]. *)
Definition remainder (a : num) (d : Z) : num := option_map (fun x => Z.rem x d) a.

(** Comparisons with a number; all false on [NaN]. *)
Definition gt (a : num) (k : Z) : bool :=
  match a with Some x => x >? k | None => false end.

Definition ge (a : num) (k : Z) : bool :=
  match a with Some x => x >=? k | None => false end.

Definition lt (a : num) (k : Z) : bool :=
  match a with Some x => x <? k | None => false end.

Definition le (a : num) (k : Z) : bool :=
  match a with Some x => x <=? k | None => false end.

(** The decimal digits of an integer. *)
Definition decimal (z : Z) : string := NilZero.string_of_int (Z.to_int z).

(** [`${a}`] *)
Definition show (a : num) : string :=
  match a with Some x => decimal x | None => "NaN" end.

(** [getTimeElapsedString(dateString)] of utils/dateFormat.ts at time [now];
    [then_] is [new Date(dateString).getTime()]. *)
Definition getTimeElapsedString (now : Z) (then_ : num) : string :=
  let diffMs := minus now then_ in
  if lt diffMs 0 then "Just now"
  else
    let diffMins := floorDiv diffMs (1000 * 60) in
    let diffHours := floorDiv diffMs (1000 * 60 * 60) in
    let diffDays := floorDiv diffMs (1000 * 60 * 60 * 24) in
    if gt diffDays 0 then
      let remainingHours := remainder diffHours 24 in
      if gt remainingHours 0
      then (show diffDays ++ "d " ++ show remainingHours ++ "h ago")%string
      else (show diffDays ++ "d ago")%string
    else if gt diffHours 0 then
      let remainingMins := remainder diffMins 60 in
      if gt remainingMins 0
      then (show diffHours ++ "h " ++ show remainingMins ++ "m ago")%string
      else (show diffHours ++ "h ago")%string
    else if gt diffMins 0 then (show diffMins ++ "m ago")%string
    else "Just now".

(** [getTimeElapsedMs(dateString)] *)
Definition getTimeElapsedMs (now : Z) (then_ : num) : num := minus now then_.

Inductive Urgency : Type := normal | warning | urgent.

(** [TimeElapsed({ date })] of components/common/TimeElapsed.tsx: the text
    and the urgency that goes into the class name. *)
Definition TimeElapsed (now : Z) (then_ : num) : string * Urgency :=
  let diffMs := minus now then_ in
  let diffHours := floorDiv diffMs (1000 * 60 * 60) in
  let diffDays := floorDiv diffHours 24 in
  if gt diffDays 0 then
    ((show diffDays ++ "d ago")%string,
     if ge diffDays 7 then urgent
     else if ge diffDays 3 then warning
     else normal)
  else if gt diffHours 0 then ((show diffHours ++ "h ago")%string, normal)
  else
    let diffMins := floorDiv diffMs (1000 * 60) in
    (if le diffMins 0 then "Just now" else (show diffMins ++ "m ago")%string, normal).

(** [formatTimeElapsed(date)] of the same file *)
Definition formatTimeElapsed (now : Z) (then_ : num) : string :=
  let diffMs := minus now then_ in
  let diffHours := floorDiv diffMs (1000 * 60 * 60) in
  let diffDays := floorDiv diffHours 24 in
  if gt diffDays 0 then
    (show diffDays ++ " day" ++ (if gt diffDays 1 then "s" else "") ++ " ago")%string
  else if gt diffHours 0 then
    (show diffHours ++ " hour" ++ (if gt diffHours 1 then "s" else "") ++ " ago")%string
  else
    let diffMins := floorDiv diffMs (1000 * 60) in
    if le diffMins 0 then "Just now"
    else (show diffMins ++ " minute" ++ (if gt diffMins 1 then "s" else "") ++ " ago")%string.

End Elapsed.

(* ================================================================= *)
(** ** api/auth.ts and auth/AuthContext.tsx: the session as the
       application sees it

    Each function awaits network calls.  A call made with plain axios is
    given by its answer, if one ever comes; a call made through the client
    is given by what it does to the credential store while it is awaited
    (the interceptors may refresh or clear) together with its answer, or
    with the fact that its promise never settles. *)

Module AuthContext.

Import TokenStorage.

(** What was thrown. *)
Definition Thrown : Type := Api.Value.

(** How a call ends: its promise settles, or it never does (a POST sent with
    plain axios, which sets no timeout, and never answered; a request that
    waited in the client's refresh queue when the queue was dropped).  Either
    way the call leaves a store behind. *)
Inductive Answer (A : Type) : Type :=
| Settles (s : Store) (r : Thrown + A)
| Never (s : Store).

Arguments Settles {A} s r.
Arguments Never {A} s.

(** A call through the client. *)
Definition Call (A : Type) : Type := Store -> Answer A.

Record Ref : Type := mkRef { ref_id : string; ref_name : string }.

(** [User] of types/user.ts *)
Record User : Type := mkUser {
  id : string;
  name : string;
  email : string;
  alias : option string;
  phone : option string;
  roles : list string;
  is_active : bool;
  last_login : option string;
  team : option Ref;
  department : option Ref;
  company : option Ref;
  business_group : option Ref
}.

(** [LoginResponse] and [RefreshResponse] of types/user.ts *)
Record LoginResponse : Type := mkLoginResponse {
  access_token : string;
  refresh_token : string;
  expires_in : Z;
  user_id : string;
  user_name : string;
  user_email : string;
  user_roles : list string
}.

Record RefreshResponse : Type := mkRefreshResponse {
  new_access_token : string;
  new_expires_in : Z
}.

(** *** api/auth.ts *)

(** [login(email, password)]; [answer] is what the POST comes back with, if
    it ever does; [now] is [Date.now()] when the token is stored. *)
Definition apiLogin (answer : option (Thrown + LoginResponse)) (now : Z) (s : Store)
  : Answer LoginResponse :=
  match answer with
  | Some (inr response) =>
      Settles (setRefreshToken (refresh_token response)
                 (setAccessToken (access_token response) (expires_in response) now s))
              (inr response)
  | Some (inl e) => Settles s (inl e)
  | None => Never s
  end.

(** [new Error('No refresh token available')] *)
Definition noRefreshToken : Thrown :=
  Api.VObject true [("message", Api.VString "No refresh token available")].

(** [refreshToken()]; [server] answers the POST that carries the stored
    refresh token, if it ever does. *)
Definition apiRefresh (server : string -> option (Thrown + RefreshResponse)) (now : Z)
           (s : Store) : Answer RefreshResponse :=
  match getRefreshToken s with
  | Some currentRefreshToken =>
      if negb (JS.truthy currentRefreshToken) then Settles s (inl noRefreshToken)
      else
        match server currentRefreshToken with
        | Some (inr response) =>
            Settles (setAccessToken (new_access_token response)
                                    (new_expires_in response) now s)
                    (inr response)
        | Some (inl e) => Settles s (inl e)
        | None => Never s
        end
  | None => Settles s (inl noRefreshToken)
  end.

(** [logout()]: the POST goes through the client; however it settles,
    [finally] clears the tokens and nothing is thrown.  While it does not
    settle nothing is cleared. *)
Definition apiLogout (post : Call unit) (s : Store) : Answer unit :=
  match post s with
  | Settles s' _ => Settles (clearTokens s') (inr tt)
  | Never s' => Never s'
  end.

(** *** auth/AuthContext.tsx *)

(** The provider's two state cells and the credential store. *)
Record Session : Type := mkSession {
  store : Store;
  user : option User;
  isLoading : bool
}.

(** How an [async] function of the provider ends: it returns, or it stays
    suspended at an [await] that never settles.  Either way it leaves the
    session in a state. *)
Inductive Run (R : Type) : Type :=
| Returned (w : Session) (r : R)
| Suspended (w : Session).

Arguments Returned {R} w r.
Arguments Suspended {R} w.

(** [isAuthenticated: user !== null] *)
Definition isAuthenticated (w : Session) : bool :=
  match user w with Some _ => true | None => false end.

(** [loadUser()] *)
Definition loadUser (getMe : Call User) (w : Session) : Run unit :=
  let token := getAccessToken (store w) in
  if negb (JS.truthyO token) then Returned (mkSession (store w) None false) tt
  else
    match getMe (store w) with
    | Settles s (inr userData) => Returned (mkSession s (Some userData) false) tt
    | Settles s (inl _) => Returned (mkSession (clearTokens s) None false) tt
    | Never s => Suspended (mkSession s (user w) (isLoading w))
    end.

(** [tryRestoreSession()]; [now1] and [now2] are the two readings of
    [Date.now()]: [refreshToken] stores the new token, and the provider
    stores it once more. *)
Definition tryRestoreSession (server : string -> option (Thrown + RefreshResponse))
           (getMe : Call User) (now1 now2 : Z) (w : Session) : Run unit :=
  if JS.truthyO (getAccessToken (store w)) then loadUser getMe w
  else if negb (hasPersistedSession (store w))
  then Returned (mkSession (store w) (user w) false) tt
  else
    match apiRefresh server now1 (store w) with
    | Settles s (inr response) =>
        loadUser getMe
          (mkSession (setAccessToken (new_access_token response)
                                     (new_expires_in response) now2 s)
                     (user w) (isLoading w))
    | Settles s (inl _) => Returned (mkSession (clearTokens s) None false) tt
    | Never s => Suspended (mkSession s (user w) (isLoading w))
    end.

(** The user the provider sets from the login response, before the full
    profile is fetched. *)
Definition userOfLogin (response : LoginResponse) : User :=
  mkUser (user_id response) (user_name response) (user_email response)
         None None (user_roles response) true None None None None None.

(** [login(email, password)]: the session it leaves, and the error it
    rethrows, if any.  The loading flag is set before the first [await] and
    reset in [finally]. *)
Definition login (answer : option (Thrown + LoginResponse)) (getMe : Call User) (now : Z)
           (w : Session) : Run (option Thrown) :=
  match apiLogin answer now (store w) with
  | Settles s (inr response) =>
      match loadUser getMe (mkSession s (Some (userOfLogin response)) true) with
      | Returned w' _ => Returned (mkSession (store w') (user w') false) None
      | Suspended w' => Suspended w'
      end
  | Settles s (inl error) => Returned (mkSession (clearTokens s) None false) (Some error)
  | Never s => Suspended (mkSession s (user w) true)
  end.

(** [logout()]: the loading flag is set before the [await], user and flag
    are reset in [finally]. *)
Definition logout (post : Call unit) (w : Session) : Run unit :=
  match apiLogout post (store w) with
  | Settles s _ => Returned (mkSession s None false) tt
  | Never s => Suspended (mkSession s (user w) true)
  end.

(** [handleUnauthorized], the listener for [auth:unauthorized] *)
Definition handleUnauthorized (w : Session) : Session :=
  mkSession (clearTokens (store w)) None (isLoading w).

End AuthContext.

(* ================================================================= *)
(** ** Vocabulary for the form properties *)

Module FormSpec.

Import TicketActions.

(** The answers that came back during a session on the status dialog. *)
Definition isSettled (ev : StatusEvent) : bool :=
  match ev with SfSettled _ => true | _ => false end.

Definition settledCount (evs : list StatusEvent) : nat :=
  length (filter isSettled evs).

(** Requests without an answer yet: one while the form is submitting. *)
Definition outstanding (f : StatusForm) : nat :=
  if sf_isSubmitting f then 1%nat else 0%nat.

(** The value [useAuth()] builds: the role names are those of the user, and
    an anonymous visitor has none. *)
Definition fromContext (a : Auth) : Prop :=
  user a = None -> roles a = [].

(** An employee looking at a ticket nobody is assigned to. *)
Definition employeeAuth : Auth :=
  mkAuth (Some (mkUserRef "u7")) ["EMPLOYEE"].

Definition unassignedTicket : TicketDetail :=
  mkTicket "t3" "New" false None None 0.

End FormSpec.

(* ================================================================= *)
(** ** Vocabulary for the session properties *)

Module SessionSpec.

Import TokenStorage Client.

(** The access token an action hands to the client, if any: a login, a
    restored session, or a successful answer of the refresh endpoint. *)
Definition deliveredAccess (a : Action) : option string :=
  match a with
  | Login access_token _ _ _ => Some access_token
  | RestoreReply _ (RefreshOk access_token _) _ => Some access_token
  | RefreshReply _ (RefreshOk access_token _) _ => Some access_token
  | _ => None
  end.

(** The refresh token an action hands to the client: only a login does. *)
Definition deliveredRefresh (a : Action) : option string :=
  match a with
  | Login _ _ refresh_token _ => Some refresh_token
  | _ => None
  end.

(** What is left for a refresh under way to end: the answer to its POST if
    that is outstanding, then the resumption of the interceptor. *)
Definition completion (l : Leader) (r : RefreshResponse) (now : Z) : list Action :=
  match lawait l with
  | AwaitNet => [RefreshReply 0 r now; LeaderResume 0]
  | Settled _ => [LeaderResume 0]
  end.

(** A logout request: its URL names the logout endpoint and neither of the
    two the request interceptor skips. *)
Definition isLogoutRequest (cfg : RequestConfig) : bool :=
  match url cfg with
  | Some u => JS.includes u "/api/auth/logout"
              && negb (JS.includes u "/api/auth/login")
              && negb (JS.includes u "/api/auth/refresh")
  | None => false
  end.

(** The tokens of [s'] come from [s] or from what was handed over: the
    access token from [access], the persisted refresh token from [refresh]. *)
Definition tokensFrom (s : Store) (access refresh : list (option string)) (s' : Store) : Prop :=
  (forall t, accessToken s' = Some t -> accessToken s = Some t \/ In (Some t) access)
  /\ (forall rt, persisted s' = Some rt -> persisted s = Some rt \/ In (Some rt) refresh)
  /\ storageAvailable s' = storageAvailable s.

(** The tokens a suspended session restore holds were handed over by
    [access]. *)
Definition restoresFrom (access : list (option string)) (st : State) : Prop :=
  forall tok ex, In (RestoreSettled (inr (tok, ex))) (restores st) -> In (Some tok) access.

(** Calls handed to the client by a schedule. *)
Definition isSubmit (a : Action) : bool :=
  match a with Submit _ => true | _ => false end.

Definition submitted (acts : list Action) : nat := length (filter isSubmit acts).

(** Calls the client holds somewhere or has settled. *)
Definition accounted (st : State) : nat :=
  length (pending st) + length (wire st) + length (refreshQueue st)
  + length (leaders st) + length (settled st).

(** The queued callers a step forgets: the whole queue, when the
    interceptor performing the refresh resumes with an empty token. *)
Definition dropped (a : Action) (st : State) : nat :=
  match a with
  | LeaderResume k =>
      match nth_error (leaders st) k with
      | Some l =>
          match lawait l with
          | Settled (inr t) => if JS.truthy t then 0 else length (refreshQueue st)
          | _ => 0
          end
      | None => 0
      end
  | _ => 0
  end.

(** The same along a schedule. *)
Fixpoint droppedAlong (B : string) (acts : list Action) (st : State) : nat :=
  match acts with
  | [] => 0
  | a :: acts' =>
      match step B a st with
      | Some st' => dropped a st + droppedAlong B acts' st'
      | None => 0
      end
  end.

(** The refresh endpoint answers 2xx with an empty [access_token]. *)
Definition emptyTokenReply (a : Action) : bool :=
  match a with
  | RefreshReply _ (RefreshOk access_token _) _ => negb (JS.truthy access_token)
  | _ => false
  end.

(** No interceptor holds an empty token from its refresh. *)
Definition tokensOK (st : State) : Prop :=
  forall l t, In l (leaders st) -> lawait l = Settled (inr t) -> JS.truthy t = true.

(** A session five minutes after login, and a ticket request made then. *)
Definition freshStore : Store := setAccessToken "tok0" 900 0 (empty true (Some "rt0")).


Definition logoutRequest : RequestConfig := mkConfig (Some "/api/auth/logout/") None false 0.

(** A 401 answered while the stored refresh token is rejected by the server. *)
Definition rejectedRefresh : list Action :=
  [ Login "tok0" 900 "rt0" 0;
    Submit (Some "/api/tickets/");
    RunRequest 0 1000;
    Reply 0 (Some 401%Z);
    RefreshReply 0 (RefreshFailed (Some 401%Z)) 2000 ].

Definition rejectedRefresh_state : option State :=
  Eval vm_compute in run "http://localhost:5003" rejectedRefresh (init (empty true None)).

End SessionSpec.

(* ================================================================= *)
(** ** Vocabulary for the dialog properties *)

Module DialogSpec.

Import TicketActions Dialogs.

(** The files chosen during a session on the upload dialog. *)
Fixpoint chosenFiles (evs : list (TicketDetail * UploadEvent)) : list File :=
  match evs with
  | [] => []
  | (_, UpChoose (Some f)) :: evs' => f :: chosenFiles evs'
  | _ :: evs' => chosenFiles evs'
  end.

(** The file held by the dialog is one of [files] and within the limit. *)
Definition fileOK (files : list File) (st : UploadState) : Prop :=
  forall f, u_file st = Some f -> In f files /\ (file_size f <= maxFileSize)%Z.

(** What an upload request must be: sent for a ticket shown with fewer than
    five attachments when the submit was made, carrying one of [files],
    within the limit. *)
Definition uploadOK (evs : list (TicketDetail * UploadEvent)) (files : list File)
           (req : MultipartRequest) : Prop :=
  exists t file,
    In (t, UpSubmit) evs
    /\ (attachments t < 5)%nat
    /\ In file files
    /\ (file_size file <= maxFileSize)%Z
    /\ req = uploadAttachment (id t) file.

(** A priority the dialog can hold in a session [evs] on a button mounted
    with ticket [t0]: one of the four listed, or the one of a ticket it
    started from ([t0], or the ticket shown when the dialog was opened). *)
Definition priorityOK (t0 : TicketDetail) (evs : list (TicketDetail * PriorityEvent))
           (p : Z) : Prop :=
  In p PRIORITY_VALUES
  \/ p = priorityOrDefault t0
  \/ exists t, In (t, PrOpen) evs /\ p = priorityOrDefault t.

(** What a priority request must be. *)
Definition priorityRequestOK (t0 : TicketDetail) (evs : list (TicketDetail * PriorityEvent))
           (req : Mutations.Request) : Prop :=
  exists t p note,
    In (t, PrSubmit) evs
    /\ req = Mutations.updateTicketPriority (id t) p note
    /\ noteValid note = true
    /\ priorityOK t0 evs p.

(** The identifiers the server offered during a session on the reassign
    dialog: those of every team list that came back. *)
Fixpoint offeredMembers (evs : list (TicketDetail * ReassignEvent)) : list string :=
  match evs with
  | [] => []
  | (_, ReTeam _ (inr members)) :: evs' => map member_id members ++ offeredMembers evs'
  | _ :: evs' => offeredMembers evs'
  end.

(** An identifier the reassign dialog can hold: offered by the server, and
    not the assignee of the ticket shown at one of the moments the dialog
    was opened. *)
Definition memberOK (evs : list (TicketDetail * ReassignEvent)) (x : string) : Prop :=
  In x (offeredMembers evs)
  /\ exists t, In (t, ReOpen) evs /\ optId (assigned_to t) <> Some x.

Definition reassignInv (evs : list (TicketDetail * ReassignEvent)) (st : ReassignState)
  : Prop :=
  (r_assignedTo st = "" \/ memberOK evs (r_assignedTo st))
  /\ (forall m, In m (r_teamMembers st) -> memberOK evs (member_id m))
  /\ (forall a, In a (r_loads st) ->
        exists t, In (t, ReOpen) evs /\ a = optId (assigned_to t)).

(** What a reassign request must be. *)
Definition reassignOK (evs : list (TicketDetail * ReassignEvent))
           (req : Mutations.Request) : Prop :=
  exists t target note,
    In (t, ReSubmit) evs
    /\ req = Mutations.reassignTicket (id t) target note
    /\ target <> ""
    /\ noteValid note = true
    /\ memberOK evs target.

(** The same for the closure codes. *)
Fixpoint offeredCodes (evs : list (TicketDetail * CloseEvent)) : list string :=
  match evs with
  | [] => []
  | (_, ClCodes (inr codes)) :: evs' => map code_id codes ++ offeredCodes evs'
  | _ :: evs' => offeredCodes evs'
  end.

Definition closeInv (evs : list (TicketDetail * CloseEvent)) (st : CloseState) : Prop :=
  (c_closureCodeId st = "" \/ In (c_closureCodeId st) (offeredCodes evs))
  /\ (forall c, In c (c_closureCodes st) -> In (code_id c) (offeredCodes evs)).

(** What a close request must be. *)
Definition closeOK (evs : list (TicketDetail * CloseEvent)) (req : Mutations.Request)
  : Prop :=
  exists t code note,
    In (t, ClSubmit) evs
    /\ req = Mutations.closeTicket (id t) code note
    /\ code <> ""
    /\ noteValid note = true
    /\ In code (offeredCodes evs).

(** A manager's view of a ticket assigned to [u1], and of the same ticket
    once it has been handed to [u2]. *)
Definition teamTicket : TicketDetail :=
  mkTicket "t4" "In Progress" false (Some 2%Z) (Some (mkUserRef "u1")) 4.

Definition teamTicket' : TicketDetail :=
  mkTicket "t4" "In Progress" false (Some 2%Z) (Some (mkUserRef "u2")) 4.

Definition team : list TeamMember := [mkMember "u1"; mkMember "u2"].

Definition note : Text.text := Text.ofString "see the call log".

Definition smallFile : File := mkFile "log.txt" 2048.

Definition hugeFile : File := mkFile "dump.bin" 26214401.

End DialogSpec.

(* ================================================================= *)
(** ** Vocabulary for the session properties of the provider *)

Module AuthSpec.

Import TokenStorage AuthContext.

(** The store after a successful [apiLogin]. *)
Definition loggedIn (response : LoginResponse) (now : Z) (s : Store) : Store :=
  setRefreshToken (refresh_token response)
    (setAccessToken (access_token response) (expires_in response) now s).

(** A call that fails and leaves the store alone; a call that succeeds; a
    call that never settles. *)
Definition failing {A : Type} (e : Thrown) : Call A := fun s => Settles s (inl e).

Definition succeeding {A : Type} (a : A) : Call A := fun s => Settles s (inr a).

Definition hanging {A : Type} : Call A := fun s => Never s.

(** The promise of a call settles. *)
Definition settles {A : Type} (a : Answer A) : bool :=
  match a with Settles _ _ => true | Never _ => false end.

(** An [async] function of the provider returns. *)
Definition returns {R : Type} (r : Run R) : bool :=
  match r with Returned _ _ => true | Suspended _ => false end.

(** The session a run leaves. *)
Definition sessionOf {R : Type} (r : Run R) : Session :=
  match r with Returned w _ => w | Suspended w => w end.

Definition alice : User :=
  mkUser "u1" "Alice" "alice@example.com" None None ["EMPLOYEE"] true None
         None None None None.

Definition aliceLogin : LoginResponse :=
  mkLoginResponse "tok0" "rt0" 900 "u1" "Alice" "alice@example.com" ["EMPLOYEE"].

Definition networkError : Thrown :=
  Api.VObject true [("message", Api.VString "Network Error")].

(** A page reload: nothing in memory, a refresh token in [localStorage]. *)
Definition reloaded : Session := mkSession (empty true (Some "rt0")) None true.

End AuthSpec.

(* ################################################################# *)
(** * Properties *)

(* ================================================================= *)
(** ** Facts about the JavaScript helpers *)

Module JSFacts.

Import JS.

Lemma truthy_true_iff (s : string) : truthy s = true <-> s <> "".
Proof.
  destruct s as [|c s]; simpl; split; intro H.
  - discriminate.
  - now elim H.
  - discriminate.
  - reflexivity.
Qed.

Lemma includes_app_r (a b p : string) :
  includes b p = true -> includes (a ++ b) p = true.
Proof.
  intro H. induction a as [|c a IH]; simpl; [exact H|].
  rewrite IH.
  match goal with |- (if ?x then _ else _) = _ => destruct x end; reflexivity.
Qed.

Lemma arrayIncludes_In (arr : list string) (x : string) :
  arrayIncludes arr x = true <-> In x arr.
Proof.
  unfold arrayIncludes. rewrite existsb_exists. split.
  - intros [y [Hin Heq]]. apply String.eqb_eq in Heq. now subst.
  - intro Hin. exists x. split; [exact Hin | apply String.eqb_refl].
Qed.

End JSFacts.

(* ================================================================= *)
(** ** Roles *)

Module RolesFacts.

Import Roles.
Local Open Scope Z_scope.

(** The two tables are inverse to each other on the four roles. *)
Lemma RoleIdToName_Some (r : Z) (name : string) :
  RoleIdToName r = Some name -> RoleNameToId name = JNum r /\ recognizedName name = true.
Proof.
  unfold RoleIdToName.
  destruct (r =? USER) eqn:E1;
    [apply Z.eqb_eq in E1; intros [= <-]; subst; split; reflexivity|].
  destruct (r =? EMPLOYEE) eqn:E2;
    [apply Z.eqb_eq in E2; intros [= <-]; subst; split; reflexivity|].
  destruct (r =? MANAGER) eqn:E3;
    [apply Z.eqb_eq in E3; intros [= <-]; subst; split; reflexivity|].
  destruct (r =? ADMIN) eqn:E4;
    [apply Z.eqb_eq in E4; intros [= <-]; subst; split; reflexivity|].
  discriminate.
Qed.

Lemma RoleIdToName_recognized (r : Z) :
  recognizedId r = true -> exists name, RoleIdToName r = Some name.
Proof.
  unfold recognizedId. intro H. apply andb_true_iff in H as [H1 H2].
  apply Z.leb_le in H1. apply Z.leb_le in H2.
  assert (r = 1 \/ r = 2 \/ r = 3 \/ r = 4) as [-> | [-> | [-> | ->]]] by lia;
    eexists; reflexivity.
Qed.

(** A name outside the four yields no number. *)
Lemma RoleNameToId_unrecognized (name : string) :
  recognizedName name = false -> forall m, jsGe (RoleNameToId name) m = false.
Proof.
  unfold recognizedName, JS.arrayIncludes, RoleNameToId.
  cbn [existsb]. intros H m.
  apply orb_false_iff in H as [H1 H]. apply orb_false_iff in H as [H2 H].
  apply orb_false_iff in H as [H3 H]. apply orb_false_iff in H as [H4 _].
  rewrite H1, H2, H3, H4.
  match goal with |- jsGe (if ?x then _ else _) _ = _ => destruct x end; reflexivity.
Qed.

Lemma jsGe_mono (v : jsval) (a b : Z) :
  a <= b -> jsGe v b = true -> jsGe v a = true.
Proof.
  destruct v; simpl; try discriminate.
  intros Hab H. apply Z.geb_le in H. apply Z.geb_le. lia.
Qed.

Lemma hasMinRole_exists (rs : list string) (m : Z) :
  hasMinRole rs m = true <-> exists name, In name rs /\ jsGe (RoleNameToId name) m = true.
Proof.
  unfold hasMinRole. rewrite existsb_exists. split.
  - intros [v [Hin Hge]]. apply filter_In in Hin as [Hin _].
    apply in_map_iff in Hin as [name [<- Hin]]. now exists name.
  - intros [name [Hin Hge]]. exists (RoleNameToId name). split; [|exact Hge].
    apply filter_In. split; [now apply in_map|].
    now destruct (RoleNameToId name).
Qed.

Lemma hasRole_exists (rs : list string) (r : Z) :
  hasRole rs r = true <-> exists name, RoleIdToName r = Some name /\ In name rs.
Proof.
  unfold hasRole. split.
  - destruct (RoleIdToName r) as [name|] eqn:E; [|discriminate].
    destruct (negb (JS.truthy name)); [discriminate|].
    intro H. apply JSFacts.arrayIncludes_In in H. now exists name.
  - intros [name [E Hin]]. rewrite E.
    destruct (RoleIdToName_Some _ _ E) as [_ Hrec].
    assert (JS.truthy name = true) as ->.
    { destruct name; [discriminate Hrec | reflexivity]. }
    simpl. now apply JSFacts.arrayIncludes_In.
Qed.

Lemma hasMinRole_mono (rs : list string) (a b : Z) :
  a <= b -> hasMinRole rs b = true -> hasMinRole rs a = true.
Proof.
  intros Hab H. apply hasMinRole_exists in H as [name [Hin Hge]].
  apply hasMinRole_exists. exists name. split; [exact Hin|].
  now apply jsGe_mono with b.
Qed.

Lemma hasRole_hasMinRole (rs : list string) (r : Z) :
  hasRole rs r = true -> hasMinRole rs r = true.
Proof.
  intro H. apply hasRole_exists in H as [name [E Hin]].
  apply hasMinRole_exists. exists name. split; [exact Hin|].
  destruct (RoleIdToName_Some _ _ E) as [-> _]. simpl. apply Z.geb_le. lia.
Qed.

(** Unrecognized names can be dropped from the list without changing a check. *)
Lemma hasMinRole_filter (rs : list string) (m : Z) :
  hasMinRole rs m = hasMinRole (filter recognizedName rs) m.
Proof.
  apply eq_true_iff_eq. rewrite !hasMinRole_exists. split.
  - intros [name [Hin Hge]]. exists name. split; [|exact Hge].
    apply filter_In. split; [exact Hin|].
    destruct (recognizedName name) eqn:E; [reflexivity|].
    rewrite (RoleNameToId_unrecognized _ E) in Hge. discriminate.
  - intros [name [Hin Hge]]. apply filter_In in Hin as [Hin _]. now exists name.
Qed.

Lemma hasRole_filter (rs : list string) (r : Z) :
  hasRole rs r = hasRole (filter recognizedName rs) r.
Proof.
  apply eq_true_iff_eq. rewrite !hasRole_exists. split.
  - intros [name [E Hin]]. exists name. split; [exact E|].
    apply filter_In. split; [exact Hin|]. now destruct (RoleIdToName_Some _ _ E).
  - intros [name [E Hin]]. apply filter_In in Hin as [Hin _]. now exists name.
Qed.

Lemma filter_all_unrecognized (rs : list string) :
  forallb (fun name => negb (recognizedName name)) rs = true ->
  filter recognizedName rs = [].
Proof.
  induction rs as [|name rs IH]; simpl; [reflexivity|].
  intro H. apply andb_true_iff in H as [H1 H2].
  apply negb_true_iff in H1. rewrite H1. now apply IH.
Qed.

(** C9. Roles are ordered USER(1) < EMPLOYEE(2) < MANAGER(3) < ADMIN(4), each
    name mapping to its number; [hasMinRole] is monotone in the threshold
    (what passes threshold [b] passes every [a <= b]); holding a recognized
    role (by [hasRole]) implies reaching it (by [hasMinRole]); and role names
    outside the four never satisfy a check: they can be dropped from the
    list, and a list made only of them fails [hasRole], [hasAnyRole] and
    [hasMinRole] for every argument. *)
Theorem role_order_and_min_role_checks :
  (USER = 1 /\ EMPLOYEE = 2 /\ MANAGER = 3 /\ ADMIN = 4
   /\ USER < EMPLOYEE /\ EMPLOYEE < MANAGER /\ MANAGER < ADMIN
   /\ RoleNameToId "USER" = JNum USER /\ RoleNameToId "EMPLOYEE" = JNum EMPLOYEE
   /\ RoleNameToId "MANAGER" = JNum MANAGER /\ RoleNameToId "ADMIN" = JNum ADMIN)
  /\ (forall (rs : list string) (a b : Z),
         a <= b -> hasMinRole rs b = true -> hasMinRole rs a = true)
  /\ (forall (rs : list string) (r : Z),
         recognizedId r = true -> hasRole rs r = true -> hasMinRole rs r = true)
  /\ (forall (rs : list string) (r : Z),
         hasRole rs r = hasRole (filter recognizedName rs) r
         /\ hasMinRole rs r = hasMinRole (filter recognizedName rs) r)
  /\ (forall (rs : list string),
         forallb (fun name => negb (recognizedName name)) rs = true ->
         forall (r : Z) (ids : list Z),
           hasRole rs r = false /\ hasMinRole rs r = false /\ hasAnyRole rs ids = false).
Proof.
  split; [repeat split; reflexivity|].
  split; [exact hasMinRole_mono|].
  split; [intros rs r _; apply hasRole_hasMinRole|].
  split; [intros rs r; split; [apply hasRole_filter | apply hasMinRole_filter]|].
  intros rs Hun r ids.
  assert (Hr : forall r', hasRole rs r' = false).
  { intro r'. rewrite hasRole_filter, (filter_all_unrecognized _ Hun).
    unfold hasRole. destruct (RoleIdToName r'); [|reflexivity].
    now destruct (negb (JS.truthy s)). }
  split; [apply Hr|]. split.
  - now rewrite hasMinRole_filter, (filter_all_unrecognized _ Hun).
  - unfold hasAnyRole. induction ids as [|i ids IH]; simpl; [reflexivity|].
    now rewrite Hr, IH.
Qed.

(** The checks are not vacuous: a manager passes the employee threshold, a
    user does not, and an inherited property name counts for nothing. *)
Lemma role_order_and_min_role_checks_witness :
  hasMinRole ["MANAGER"] EMPLOYEE = true
  /\ hasMinRole ["USER"] EMPLOYEE = false
  /\ hasMinRole ["constructor"; "SUPERUSER"] USER = false.
Proof.
  destruct role_order_and_min_role_checks as [_ [Hmono [_ [_ Hun]]]].
  split; [apply (Hmono ["MANAGER"%string] EMPLOYEE MANAGER); [unfold EMPLOYEE, MANAGER; lia | reflexivity]|].
  split; [reflexivity|].
  apply (Hun ["constructor"; "SUPERUSER"]%string eq_refl USER []).
Defined.

End RolesFacts.

(* ================================================================= *)
(** ** The assign request *)

Module MutationsFacts.

Import Mutations.

(** C10. For every ticket id, [assignTicket] called with the target omitted
    (or [undefined]) or with the empty string sends the same request: a POST
    to the ticket's assign URL with an empty body, the self-assign form.  The
    body has an [assigned_to] field exactly when the target is a non-empty
    string, and then it carries that string. *)
Theorem assignTicket_falsy_target_sends_empty_body :
  forall (id : string),
    assignTicket id None = mkRequest POST ("/api/tickets/" ++ id ++ "/assign/") []
    /\ assignTicket id (Some "") = assignTicket id None
    /\ (forall (a : string), a <> "" ->
          assignTicket id (Some a)
          = mkRequest POST ("/api/tickets/" ++ id ++ "/assign/") [("assigned_to", JStr a)])
    /\ (forall (target : option string),
          In "assigned_to" (map fst (data (assignTicket id target)))
          <-> exists a, target = Some a /\ a <> "").
Proof.
  intro id. split; [reflexivity|]. split; [reflexivity|]. split.
  - intros a Ha. unfold assignTicket.
    apply JSFacts.truthy_true_iff in Ha. now rewrite Ha.
  - intros [a|]; unfold assignTicket.
    + destruct (JS.truthy a) eqn:E; simpl.
      * split; [|tauto]. intros _. exists a. split; [reflexivity|].
        now apply JSFacts.truthy_true_iff.
      * split; [tauto|]. intros [a' [[= <-] Ha']].
        apply JSFacts.truthy_true_iff in Ha'. congruence.
    + simpl. split; [tauto|]. intros [a' [Heq _]]. discriminate.
Qed.

End MutationsFacts.

(* ================================================================= *)
(** ** Ticket actions and mutation forms *)

Module TicketActionsFacts.

Import TicketActions TicketSpec.

(** *** Closed tickets *)





(** *** Notes *)

Lemma trimStart_all_ws (s : Text.text) :
  Text.whitespaceOnly s = true -> Text.trimStart s = [].
Proof.
  induction s as [|c s IH]; simpl; [reflexivity|].
  intro H. apply andb_true_iff in H as [Hc Hs]. rewrite Hc. now apply IH.
Qed.

Lemma trimStart_nil_all_ws (s : Text.text) :
  Text.trimStart s = [] -> Text.whitespaceOnly s = true.
Proof.
  induction s as [|c s IH]; simpl; [reflexivity|].
  destruct (Text.isWhiteSpace c); [intro H; now rewrite IH | discriminate].
Qed.

(** What [trimStart] leaves is empty or starts with a visible character. *)
Lemma trimStart_head (s : Text.text) :
  match Text.trimStart s with
  | [] => True
  | c :: _ => Text.isWhiteSpace c = false
  end.
Proof.
  induction s as [|c s IH]; simpl; [exact I|].
  destruct (Text.isWhiteSpace c) eqn:E; [exact IH | exact E].
Qed.

Lemma trimStart_suffix (s : Text.text) :
  exists p, s = p ++ Text.trimStart s /\ Text.whitespaceOnly p = true.
Proof.
  induction s as [|c s [p [Hp Hw]]]; simpl.
  - now exists [].
  - destruct (Text.isWhiteSpace c) eqn:E.
    + exists (c :: p). simpl. rewrite E, Hw. split; [now f_equal | reflexivity].
    + now exists [].
Qed.

Lemma whitespaceOnly_rev (s : Text.text) :
  Text.whitespaceOnly (rev s) = Text.whitespaceOnly s.
Proof.
  unfold Text.whitespaceOnly. induction s as [|c s IH]; simpl; [reflexivity|].
  rewrite forallb_app, IH. simpl. rewrite andb_true_r. apply andb_comm.
Qed.

(** [trim] leaves nothing exactly for the notes made of white space only. *)
Lemma trim_nil_iff (s : Text.text) :
  Text.trim s = [] <-> Text.whitespaceOnly s = true.
Proof.
  unfold Text.trim, Text.trimEnd. split.
  - intro H.
    assert (Hr : Text.trimStart (rev (Text.trimStart s)) = []).
    { apply (f_equal (@rev N)) in H. now rewrite rev_involutive in H. }
    apply trimStart_nil_all_ws in Hr. rewrite whitespaceOnly_rev in Hr.
    pose proof (trimStart_head s) as Hh.
    destruct (Text.trimStart s) as [|c u] eqn:E.
    + now apply trimStart_nil_all_ws.
    + simpl in Hr. rewrite Hh in Hr. discriminate.
  - intro H. now rewrite (trimStart_all_ws _ H).
Qed.

Lemma noteValid_false_iff (note : Text.text) :
  noteValid note = false <-> Text.whitespaceOnly note = true.
Proof.
  unfold noteValid. rewrite <- trim_nil_iff.
  destruct (Text.trim note); simpl; split; intro H; try reflexivity; discriminate.
Qed.

(** C8, as the code has it.  A note that is empty or made of white space
    only trims to the empty string, so the validity flag of each of the four
    mutation forms (status update, close, priority update, reassign) is
    false, [MutationForm]'s submit handler does not call [onSubmit], and no
    mutation request is sent: whoever the user is, whatever the ticket and
    the other fields, and through the status dialog in any of its states.
    The refusal is the form's and it is silent: the submit leaves the form
    as it was, and the only message, "Note is required", is the one shown
    under a non-empty note of white space.  It does not come before the
    permission check: the card shows a form only under its gate, so that a
    user without the permission can submit nothing, whatever the note. *)
Theorem whitespace_note_sends_no_mutation :
  forall (note : Text.text),
    Text.whitespaceOnly note = true ->
    Text.trim note = []
    /\ noteValid note = false
    /\ NoteInput_isValid true 1 note = false
    /\ (note <> [] -> NoteInput_message true 1 note = Some "Note is required")
    /\ (forall t status sub, statusSubmit t status note sub = None)
    /\ (forall t code sub, closeSubmit t code note sub = None)
    /\ (forall t p sub, prioritySubmit t p note sub = None)
    /\ (forall t target sub, reassignSubmit t target note sub = None)
    /\ (forall t f, sf_note f = note -> statusStep t SfSubmit f = (f, None))
    /\ (forall a t status sub, cardStatusSubmit a t status note sub = None)
    /\ (forall a t code sub, cardCloseSubmit a t code note sub = None)
    /\ (forall a t p sub, cardPrioritySubmit a t p note sub = None)
    /\ (forall a t target sub, cardReassignSubmit a t target note sub = None)
    /\ (forall a t (any : Text.text) status code p target sub,
          (canUpdateStatus a t = false -> cardStatusSubmit a t status any sub = None)
          /\ (canClose a t = false -> cardCloseSubmit a t code any sub = None)
          /\ (canUpdatePriority a t = false -> cardPrioritySubmit a t p any sub = None)
          /\ (canReassign a t = false -> cardReassignSubmit a t target any sub = None)).
Proof.
  intros note Hws.
  pose proof (proj2 (trim_nil_iff note) Hws) as Htrim.
  pose proof (proj2 (noteValid_false_iff note) Hws) as Hv.
  split; [exact Htrim|]. split; [exact Hv|].
  split; [unfold NoteInput_isValid; now rewrite Htrim|].
  split.
  { intro Hne. unfold NoteInput_message, NoteInput_isValid. rewrite Htrim.
    destruct note; [now elim Hne | reflexivity]. }
  assert (H1 : forall t status sub, statusSubmit t status note sub = None).
  { intros. unfold statusSubmit, MutationForm_handleSubmit. now rewrite Hv. }
  assert (H2 : forall t code sub, closeSubmit t code note sub = None).
  { intros. unfold closeSubmit, MutationForm_handleSubmit. now rewrite Hv, andb_false_r. }
  assert (H3 : forall t p sub, prioritySubmit t p note sub = None).
  { intros. unfold prioritySubmit, MutationForm_handleSubmit. now rewrite Hv. }
  assert (H4 : forall t target sub, reassignSubmit t target note sub = None).
  { intros. unfold reassignSubmit, MutationForm_handleSubmit. now rewrite Hv, andb_false_r. }
  split; [exact H1|]. split; [exact H2|]. split; [exact H3|]. split; [exact H4|].
  split.
  { intros t f Hn. unfold statusStep, MutationForm_handleSubmit. rewrite Hn, Hv. simpl.
    now destruct (sf_isOpen f). }
  unfold cardStatusSubmit, cardCloseSubmit, cardPrioritySubmit, cardReassignSubmit, gated.
  split; [intros; rewrite H1; now destruct (canUpdateStatus a t)|].
  split; [intros; rewrite H2; now destruct (canClose a t)|].
  split; [intros; rewrite H3; now destruct (canUpdatePriority a t)|].
  split; [intros; rewrite H4; now destruct (canReassign a t)|].
  intros a t any status code p target sub.
  repeat split; intros ->; reflexivity.
Qed.

(** A note of a space, a tab, a no-break space and a line feed sends nothing
    from the card of the assignee; a note with a visible character is
    sent. *)
Lemma whitespace_note_sends_no_mutation_witness :
  Text.whitespaceOnly [32; 9; 160; 10]%N = true
  /\ canUpdateStatus adminAuth assignedTicket = true
  /\ cardStatusSubmit adminAuth assignedTicket "Waiting" [32; 9; 160; 10]%N false = None
  /\ cardStatusSubmit adminAuth assignedTicket "Waiting" (Text.ofString " ok ") false
     = Some (Mutations.updateTicketStatus "t2" "Waiting" (Text.ofString " ok ")).
Proof.
  split; [reflexivity|]. split; [reflexivity|]. split.
  - destruct (whitespace_note_sends_no_mutation [32; 9; 160; 10]%N eq_refl)
      as (_ & _ & _ & _ & _ & _ & _ & _ & _ & Hcard & _).
    apply Hcard.
  - reflexivity.
Defined.

(** Where the claim as stated fails.  Submitting the empty note on the open
    status dialog of the assignee is not rejected with anything: the handler
    returns without a request and the form is what it was, and under the
    empty note not even "Note is required" is shown.  And the permission
    comes first: for an employee who is not the assignee the card shows no
    status form, so that nothing is sent for the empty note and nothing for
    a note that is valid either, while the assignee's request with that
    valid note leaves. *)
Lemma note_required_counterexample :
  (let f := mkStatusForm true false "Waiting" [] in
   noteValid (sf_note f) = false
   /\ statusStep assignedTicket SfSubmit f = (f, None)
   /\ NoteInput_message true 1 (sf_note f) = None)
  /\ canUpdateStatus otherEmployee assignedTicket = false
  /\ TicketActions otherEmployee assignedTicket = Some [UploadAttachment]
  /\ cardStatusSubmit otherEmployee assignedTicket "Waiting" [] false = None
  /\ cardStatusSubmit otherEmployee assignedTicket "Waiting" (Text.ofString "ok") false = None
  /\ (forall evs, cardStatusRun otherEmployee assignedTicket evs = [])
  /\ cardStatusSubmit adminAuth assignedTicket "Waiting" (Text.ofString "ok") false
     = Some (Mutations.updateTicketStatus "t2" "Waiting" (Text.ofString "ok")).
Proof. repeat split. Qed.

(** *** Status update targets *)

Lemma availableStatuses_iff (t : TicketDetail) (s : string) :
  In s (availableStatuses t) <-> In s UPDATABLE_STATUSES /\ s <> status t.
Proof.
  unfold availableStatuses. rewrite filter_In, negb_true_iff.
  now rewrite String.eqb_neq.
Qed.

Lemma firstAvailable_in (t : TicketDetail) :
  In (firstAvailable t) (availableStatuses t).
Proof.
  unfold firstAvailable, availableStatuses, UPDATABLE_STATUSES. cbn [filter].
  destruct ("In Progress" =? status t)%string eqn:E1;
    destruct ("Waiting" =? status t)%string eqn:E2;
    destruct ("On Hold" =? status t)%string eqn:E3;
    destruct ("Assigned" =? status t)%string eqn:E4;
    cbn [negb JS.truthy In]; try (left; reflexivity).
  apply String.eqb_eq in E1, E2. congruence.
Qed.

Lemma statusStep_selectionOK (t : TicketDetail) (ev : StatusEvent) (f : StatusForm) :
  selectionOK t f -> selectionOK t (fst (statusStep t ev f)).
Proof.
  unfold selectionOK. intro H.
  destruct ev as [|s|note| |ok|]; simpl.
  - intros _. apply firstAvailable_in.
  - destruct (sf_isOpen f && negb (sf_isSubmitting f)
              && JS.arrayIncludes (availableStatuses t) s) eqn:E; simpl; [|exact H].
    intros _. apply andb_true_iff in E as [_ E].
    now apply JSFacts.arrayIncludes_In.
  - destruct (sf_isOpen f) eqn:E; simpl; [|congruence]. intros _. now apply H.
  - destruct (sf_isOpen f) eqn:E; simpl; [|congruence].
    unfold MutationForm_handleSubmit.
    destruct (noteValid (sf_note f) && negb (sf_isSubmitting f)); simpl.
    + intros _. now apply H.
    + rewrite E. intros _. now apply H.
  - destruct (sf_isSubmitting f); simpl; [|exact H].
    destruct ok; simpl; [discriminate | exact H].
  - destruct (negb (sf_isSubmitting f)); simpl; [discriminate | exact H].
Qed.

Lemma statusStep_request (t : TicketDetail) (ev : StatusEvent) (f : StatusForm)
      (r : Mutations.Request) :
  snd (statusStep t ev f) = Some r ->
  sf_isOpen f = true
  /\ noteValid (sf_note f) = true
  /\ r = Mutations.updateTicketStatus (id t) (sf_status f) (sf_note f).
Proof.
  destruct ev as [|s|note| |ok|]; simpl; try discriminate.
  - destruct (_ && _); discriminate.
  - destruct (sf_isOpen f); discriminate.
  - destruct (sf_isOpen f) eqn:E; [|discriminate].
    unfold MutationForm_handleSubmit.
    destruct (noteValid (sf_note f)) eqn:Ev; simpl; [|discriminate].
    destruct (negb (sf_isSubmitting f)); simpl; [|discriminate].
    intros [= <-]. repeat split.
  - destruct (sf_isSubmitting f); [destruct ok|]; discriminate.
  - destruct (negb (sf_isSubmitting f)); discriminate.
Qed.

Lemma statusRun_targets (t : TicketDetail) (evs : list StatusEvent) :
  forall (f : StatusForm) (r : Mutations.Request),
    selectionOK t f ->
    In r (snd (statusRun t evs f)) ->
    exists s, targetOf r = Some s /\ In s (availableStatuses t).
Proof.
  induction evs as [|ev evs IH]; intros f r Hok Hin; simpl in Hin; [contradiction|].
  pose proof (statusStep_selectionOK t ev f Hok) as Hok1.
  pose proof (statusStep_request t ev f) as Hreq.
  destruct (statusStep t ev f) as [f1 o]. simpl in Hok1, Hreq.
  specialize (IH f1 r Hok1).
  destruct (statusRun t evs f1) as [f2 rs]. simpl in *.
  destruct o as [req|]; [|now apply IH].
  destruct Hin as [<- | Hin]; [|now apply IH].
  destruct (Hreq req eq_refl) as [Hopen [_ ->]].
  exists (sf_status f). split; [reflexivity | now apply Hok].
Qed.

Lemma initial_selectionOK (t : TicketDetail) : selectionOK t StatusForm_initial.
Proof. unfold selectionOK. simpl. discriminate. Qed.

(** Every option of the select can be submitted. *)
Lemma available_reachesTarget (a : Auth) (t : TicketDetail) (s : string) :
  canUpdateStatus a t = true -> In s (availableStatuses t) -> reachesTarget a t s.
Proof.
  intros Hcan Hin.
  exists [SfOpen; SfSelect s; SfType (Text.ofString "done"); SfSubmit].
  exists (Mutations.updateTicketStatus (id t) s (Text.ofString "done")).
  split; [|reflexivity].
  unfold cardStatusRun. rewrite Hcan.
  cbn [statusRun statusStep sf_isOpen sf_isSubmitting sf_status sf_note negb andb].
  apply JSFacts.arrayIncludes_In in Hin. rewrite Hin.
  cbn. left. reflexivity.
Qed.

Lemma reachesTarget_iff (a : Auth) (t : TicketDetail) (s : string) :
  reachesTarget a t s
  <-> canUpdateStatus a t = true /\ In s UPDATABLE_STATUSES /\ s <> status t.
Proof.
  rewrite <- availableStatuses_iff. split.
  - intros [evs [r [Hin Ht]]]. unfold cardStatusRun in Hin.
    destruct (canUpdateStatus a t); [|contradiction]. split; [reflexivity|].
    destruct (statusRun_targets t evs _ r (initial_selectionOK t) Hin) as [s' [Ht' Hs']].
    congruence.
  - intros [Hcan Hin]. now apply available_reachesTarget.
Qed.

(** C4, as the code has it.  The status-update action exists for a user on a
    ticket only under its gate: the user is at least an employee, the ticket
    is assigned to that user and is not closed.  There, the statuses the
    action can send are the members of {In Progress, Waiting, On Hold,
    Assigned} other than the ticket's current status: the select lists
    [UPDATABLE_STATUSES] with the current status filtered out.  So no
    self-loop is offered (none onto Assigned from Assigned), New and Closed
    are never status-update targets, and the set is the whole of
    [UPDATABLE_STATUSES] exactly for the tickets whose status is not one of
    the four.  Where the action does not exist no status is sent. *)
Theorem status_update_targets_exclude_current :
  forall (a : Auth) (t : TicketDetail) (s : string),
    (reachesTarget a t s
     <-> canUpdateStatus a t = true /\ In s UPDATABLE_STATUSES /\ s <> status t)
    /\ ~ reachesTarget a t (status t)
    /\ ~ reachesTarget a t "New"
    /\ ~ reachesTarget a t "Closed"
    /\ (canUpdateStatus a t = false -> forall s', ~ reachesTarget a t s')
    /\ (canUpdateStatus a t = true ->
        ((forall s', reachesTarget a t s' <-> In s' UPDATABLE_STATUSES)
         <-> ~ In (status t) UPDATABLE_STATUSES)).
Proof.
  intros a t s. split; [apply reachesTarget_iff|].
  split; [rewrite reachesTarget_iff; tauto|].
  split; [rewrite reachesTarget_iff; unfold UPDATABLE_STATUSES; simpl;
          intros [_ [[H|[H|[H|[H|[]]]]] _]]; discriminate|].
  split; [rewrite reachesTarget_iff; unfold UPDATABLE_STATUSES; simpl;
          intros [_ [[H|[H|[H|[H|[]]]]] _]]; discriminate|].
  split.
  - intros Hcan s'. rewrite reachesTarget_iff, Hcan. intros [H _]. discriminate.
  - intro Hcan. split.
    + intros H Hin. apply H in Hin. apply reachesTarget_iff in Hin. tauto.
    + intros Hnot s'. rewrite reachesTarget_iff. split; [tauto|].
      intro Hin. split; [exact Hcan|]. split; [exact Hin|]. intros ->. contradiction.
Qed.

(** Two tickets at which the claim as stated fails.  From status Assigned
    the select of the assignee offers In Progress, Waiting and On Hold only:
    Assigned is one of [UPDATABLE_STATUSES], yet no session on the button
    sends it, so the targets are not the whole four-element set.  And on a
    closed ticket, or for a user who is not the assignee, there is no
    status-update action: no status is a target. *)
Lemma status_update_targets_counterexample :
  status assignedTicket = "Assigned"
  /\ In "Assigned" UPDATABLE_STATUSES
  /\ canUpdateStatus adminAuth assignedTicket = true
  /\ availableStatuses assignedTicket = ["In Progress"; "Waiting"; "On Hold"]
  /\ (forall evs r,
        In r (cardStatusRun adminAuth assignedTicket evs) ->
        targetOf r <> Some "Assigned")
  /\ canUpdateStatus adminAuth closedTicket = false
  /\ (forall evs, cardStatusRun adminAuth closedTicket evs = [])
  /\ canUpdateStatus otherEmployee assignedTicket = false
  /\ (forall evs, cardStatusRun otherEmployee assignedTicket evs = []).
Proof.
  split; [reflexivity|]. split; [simpl; tauto|]. split; [reflexivity|].
  split; [reflexivity|]. split; [|repeat split].
  intros evs r Hin Ht. unfold cardStatusRun in Hin.
  replace (canUpdateStatus adminAuth assignedTicket) with true in Hin by reflexivity.
  destruct (statusRun_targets assignedTicket evs _ r
              (initial_selectionOK assignedTicket) Hin) as [s [Hs Hav]].
  rewrite Ht in Hs. injection Hs as <-.
  simpl in Hav. destruct Hav as [H|[H|[H|[]]]]; discriminate.
Qed.

End TicketActionsFacts.

(* ================================================================= *)
(** ** The axios client *)

Module ClientFacts.

Import TokenStorage Client ClientSpec.

(** *** Lists *)

Lemma pick_nth_error {A : Type} (k : nat) (l : list A) (x : A) (rest : list A) :
  pick k l = Some (x, rest) -> nth_error l k = Some x.
Proof.
  revert k x rest. induction l as [|y l IH]; intros [|k] x rest; simpl; try discriminate.
  - now intros [= -> _].
  - destruct (pick k l) as [[z r]|] eqn:E; [|discriminate].
    intros [= -> _]. now apply IH with r.
Qed.

Lemma nth_error_pick {A : Type} (k : nat) (l : list A) (x : A) :
  nth_error l k = Some x -> exists rest, pick k l = Some (x, rest).
Proof.
  revert k x. induction l as [|y l IH]; intros [|k] x; simpl; try discriminate.
  - intros [= ->]. now exists l.
  - intro H. destruct (IH _ _ H) as [r Hr]. rewrite Hr. now exists (y :: r).
Qed.

Lemma pick_Forall {A : Type} (P : A -> Prop) (k : nat) (l : list A) (x : A) (rest : list A) :
  pick k l = Some (x, rest) -> Forall P l -> P x /\ Forall P rest.
Proof.
  revert k x rest. induction l as [|y l IH]; intros [|k] x rest; simpl; try discriminate.
  - intros [= -> ->] H. now inversion H.
  - destruct (pick k l) as [[z r]|] eqn:E; [|discriminate].
    intros [= -> <-] H. inversion H as [|? ? Hy Hl]; subst.
    destruct (IH _ _ _ E Hl) as [Hx Hr]. split; [exact Hx | now constructor].
Qed.

Lemma pick_singleton {A : Type} (k : nat) (y x : A) (rest : list A) :
  pick k [y] = Some (x, rest) -> k = 0%nat /\ x = y /\ rest = [].
Proof.
  destruct k as [|k]; simpl.
  - now intros [= -> <-].
  - now destruct k.
Qed.

Lemma replace_Forall {A : Type} (P : A -> Prop) (k : nat) (y : A) (l : list A) :
  P y -> Forall P l -> Forall P (replace k y l).
Proof.
  intros Hy. revert k. induction l as [|x l IH]; intros k H; simpl; [constructor|].
  inversion H; subst. destruct k; constructor; auto.
Qed.

Lemma pick_length {A : Type} (k : nat) (l : list A) (x : A) (rest : list A) :
  pick k l = Some (x, rest) -> length l = S (length rest).
Proof.
  revert k x rest. induction l as [|y l IH]; intros [|k] x rest; simpl; try discriminate.
  - now intros [= _ ->].
  - destruct (pick k l) as [[z r]|] eqn:E; [|discriminate].
    intros [= _ <-]. simpl. f_equal. now apply IH with k z.
Qed.

Lemma pick_In {A : Type} (k : nat) (l : list A) (x : A) (rest : list A) :
  pick k l = Some (x, rest) -> In x l /\ forall y, In y rest -> In y l.
Proof.
  revert k x rest. induction l as [|y l IH]; intros [|k] x rest; simpl; try discriminate.
  - intros [= -> ->]. split; [now left | intros z Hz; now right].
  - destruct (pick k l) as [[z r]|] eqn:E; [|discriminate].
    intros [= -> <-]. destruct (IH _ _ _ E) as [H1 H2]. split; [now right|].
    intros w [-> | Hw]; [now left | right; now apply H2].
Qed.

Lemma replace_length {A : Type} (k : nat) (y : A) (l : list A) :
  length (replace k y l) = length l.
Proof.
  revert k. induction l as [|x l IH]; intros [|k]; simpl; auto.
Qed.

Lemma replace_In {A : Type} (k : nat) (y : A) (l : list A) (z : A) :
  In z (replace k y l) -> z = y \/ In z l.
Proof.
  revert k. induction l as [|x l IH]; intros [|k]; simpl; auto.
  - intros [<- | H]; auto.
  - intros [<- | H]; auto. destruct (IH _ H); auto.
Qed.

(** *** Closed forms of the pieces *)

(** Unfold the field updates down to [mkState]. *)
Ltac st_unfold :=
  unfold dispatch, reissue, settle, emit, set_store, set_isRefreshing,
    set_refreshQueue, set_leaders, set_pending, set_wire, set_restores in *;
  cbn [store isRefreshing refreshQueue leaders pending wire settled trace
       restores] in *.

(** The session restore touches the store, the trace and its own suspended
    calls, and nothing else of the client. *)
Lemma restore_step_frame (B : string) (a : Action) (st st' : State) :
  isRestoreAction a = true -> step B a st = Some st' ->
  isRefreshing st' = isRefreshing st /\ refreshQueue st' = refreshQueue st
  /\ leaders st' = leaders st /\ pending st' = pending st /\ wire st' = wire st
  /\ settled st' = settled st
  /\ (trace st' = trace st \/ exists rt, trace st' = trace st ++ [EvRestorePost rt]).
Proof.
  intros Ha Hs. destruct a; try discriminate Ha; simpl in Hs.
  - injection Hs as <-. unfold restoreStart.
    destruct (JS.truthyO (getAccessToken (store st))); [now repeat split; try left|].
    destruct (negb (hasPersistedSession (store st))); [now repeat split; try left|].
    destruct (getRefreshToken (store st)) as [rt|]; [|now repeat split; try left].
    destruct (JS.truthy rt); st_unfold; repeat split; try (now left).
    right. now exists rt.
  - destruct (nth_error (restores st) k) as [[|r0]|]; try discriminate.
    destruct (restoreReply r now (store st)) as [s' res]. injection Hs as <-.
    st_unfold. repeat split. now left.
  - destruct (pick k (restores st)) as [[[|r0] rest]|]; try discriminate.
    injection Hs as <-. st_unfold. repeat split. now left.
Qed.

Lemma add_settled_nil (st : State) : add_settled [] st = st.
Proof. destruct st. unfold add_settled. simpl. now rewrite app_nil_r. Qed.

Lemma add_settled_app (l1 l2 : list (RequestConfig * Outcome)) (st : State) :
  add_settled l2 (add_settled l1 st) = add_settled (l1 ++ l2) st.
Proof. unfold add_settled. simpl. now rewrite app_assoc. Qed.

Lemma settle_add (c : RequestConfig) (o : Outcome) (st : State) :
  settle c o st = add_settled [(c, o)] st.
Proof. reflexivity. Qed.

Lemma startRefresh_eq (kind : LeaderKind) (cfg : RequestConfig) (st : State) :
  startRefresh kind cfg st
  = mkState (store st) true (refreshQueue st)
            (leaders st ++ [mkLeader kind cfg (startAwait (store st))])
            (pending st) (wire st) (settled st)
            (trace st ++ EvRefreshCall :: startEvents (store st))
            (restores st).
Proof.
  unfold startRefresh, startAwait, startEvents. st_unfold.
  destruct (getRefreshToken (store st)) as [rt|]; simpl.
  - destruct (JS.truthy rt); st_unfold; [now rewrite <- app_assoc | reflexivity].
  - reflexivity.
Qed.

Lemma processQueue_reject (e : Error) (token : option string) (q : list Waiter) :
  forall st,
    processQueue (Some e) token q st
    = (add_settled (map (fun o => (o, Rejected e)) (respConfigs q)) st,
       map (fun c => (c, e)) (reqConfigs q)).
Proof.
  induction q as [|w q IH]; intro st; simpl.
  - now rewrite add_settled_nil.
  - destruct w as [c|o]; rewrite IH; simpl; [reflexivity|].
    now rewrite settle_add, add_settled_app.
Qed.

Lemma processQueue_resolve (t : string) (q : list Waiter) :
  JS.truthy t = true ->
  forall st, processQueue None (Some t) q st = (resolved t q st, []).
Proof.
  intro Ht. induction q as [|w q IH]; intro st; simpl.
  - unfold resolved. simpl. destruct st. simpl. now rewrite !app_nil_r.
  - rewrite Ht. destruct w as [c|o]; rewrite IH; simpl; rewrite ?Ht;
      unfold resolved, reissued; st_unfold; now rewrite <- ?app_assoc.
Qed.

Lemma processQueue_drop (token : option string) (q : list Waiter) :
  JS.truthyO token = false ->
  forall st, processQueue None token q st = (st, []).
Proof.
  intro Ht. induction q as [|w q IH]; intro st; simpl; [reflexivity|].
  destruct token as [t|]; simpl in Ht; [rewrite Ht|]; now rewrite IH.
Qed.

Section WithBaseURL.

Variable B : string.

Lemma refreshConfig_isAuth : respIsAuthEndpoint (refreshConfig B) = true.
Proof.
  unfold respIsAuthEndpoint, refreshConfig. simpl.
  rewrite (JSFacts.includes_app_r B "/api/auth/refresh/" "/api/auth/refresh" eq_refl).
  now rewrite orb_true_r.
Qed.

(** The error of a failed refresh goes through the response interceptor
    untouched: it is not a 401 of an ordinary request. *)
Lemma handleError_refresh_error (c : RequestConfig) (f : RefreshFailure) (st : State) :
  handleError c (errorOf B f) st = settle c (Rejected (errorOf B f)) st.
Proof.
  unfold handleError. destruct f as [|status]; simpl; [reflexivity|].
  destruct status as [s|]; simpl; [|reflexivity].
  destruct (s =? 401)%Z; simpl; [|reflexivity].
  now rewrite refreshConfig_isAuth.
Qed.

Lemma rethrow_refresh_error (f : RefreshFailure) (cs : list RequestConfig) :
  forall st,
    rethrow (map (fun c => (c, errorOf B f)) cs) st
    = add_settled (map (fun c => (c, Rejected (errorOf B f))) cs) st.
Proof.
  induction cs as [|c cs IH]; intro st; simpl.
  - now rewrite add_settled_nil.
  - now rewrite handleError_refresh_error, IH, settle_add, add_settled_app.
Qed.

Lemma processQueue_token (t : string) (q : list Waiter) (st : State) :
  processQueue None (Some t) q st = (resolved t (woken t q) st, []).
Proof.
  unfold woken. destruct (JS.truthy t) eqn:Ht.
  - now apply processQueue_resolve.
  - rewrite processQueue_drop by exact Ht.
    unfold resolved. destruct st. simpl. now rewrite !app_nil_r.
Qed.

Lemma leaderResume_eq (l : Leader) (r : RefreshFailure + string) (st : State) :
  leaderResume B l r st = resumed B l r st.
Proof.
  unfold leaderResume, resumed, rejections.
  destruct (lkind l); destruct r as [f|t].
  - rewrite processQueue_reject.
    change [(lcfg l, errorOf B f)] with (map (fun c => (c, errorOf B f)) [lcfg l]).
    rewrite <- map_app, rethrow_refresh_error.
    unfold add_settled. st_unfold. now rewrite <- app_assoc.
  - rewrite processQueue_token. simpl rethrow.
    unfold resolved. st_unfold. now rewrite <- !app_assoc.
  - rewrite processQueue_reject, rethrow_refresh_error.
    unfold add_settled. st_unfold. now rewrite <- !app_assoc.
  - rewrite processQueue_token. simpl rethrow.
    unfold resolved, reissued. st_unfold. now rewrite <- !app_assoc.
Qed.

(** *** At most one refresh at a time *)

Lemma singleFlight_init (s : Store) : singleFlight (init s).
Proof. right. repeat split. Qed.

Lemma handleError_singleFlight (c : RequestConfig) (e : Error) (st : State) :
  singleFlight st -> singleFlight (handleError c e st).
Proof.
  intro H. unfold handleError.
  destruct (negb (is401 e)); [exact H|].
  destruct (configOf e) as [o|]; [|exact H].
  destruct (respIsAuthEndpoint o); [exact H|].
  destruct (_retry o); [exact H|].
  destruct H as [[Hf [l Hl]] | [Hf [Hl Hq]]]; rewrite Hf; simpl.
  - left. st_unfold. split; [exact Hf | now exists l].
  - rewrite startRefresh_eq. left. simpl. rewrite Hl. split; [reflexivity|].
    now eexists.
Qed.

Lemma requestInterceptor_singleFlight (now : Z) (c : RequestConfig) (st : State) :
  singleFlight st -> singleFlight (requestInterceptor now c st).
Proof.
  intro H. unfold requestInterceptor.
  destruct (reqIsAuthEndpoint c); [exact H|].
  destruct (JS.truthyO (getAccessToken (store st)) && isTokenExpiringSoon 60 now (store st));
    [|exact H].
  destruct H as [[Hf [l Hl]] | [Hf [Hl Hq]]]; rewrite Hf; simpl.
  - left. st_unfold. split; [exact Hf | now exists l].
  - rewrite startRefresh_eq. left. simpl. rewrite Hl. split; [reflexivity|].
    now eexists.
Qed.

Lemma resumed_singleFlight (l : Leader) (r : RefreshFailure + string) (st : State) :
  leaders st = [] -> singleFlight (resumed B l r st).
Proof.
  intro Hl. right. unfold resumed.
  destruct (lkind l); destruct r; simpl; now rewrite Hl.
Qed.

Lemma step_singleFlight (a : Action) (st st' : State) :
  singleFlight st -> step B a st = Some st' -> singleFlight st'.
Proof.
  intros H Hs. destruct (isRestoreAction a) eqn:Era.
  { destruct (restore_step_frame _ _ _ _ Era Hs) as (Hf & Hq & Hl & _).
    unfold singleFlight. now rewrite Hf, Hq, Hl. }
  destruct a as [u|k now|k status|k r now|k|tok ex rt now| |k r now|k now|];
    try discriminate Era; simpl in Hs.
  - injection Hs as <-. exact H.
  - destruct (pick k (pending st)) as [[c rest]|]; [|discriminate].
    injection Hs as <-. now apply requestInterceptor_singleFlight.
  - destruct (pick k (wire st)) as [[c rest]|]; [|discriminate].
    destruct status as [s|].
    + destruct ((200 <=? s)%Z && (s <? 300)%Z); injection Hs as <-;
        [exact H | now apply handleError_singleFlight].
    + injection Hs as <-. now apply handleError_singleFlight.
  - destruct (nth_error (leaders st) k) as [l|] eqn:E; [|discriminate].
    destruct (lawait l); [|discriminate].
    destruct (finishRefresh r now (store st)) as [s' res].
    injection Hs as <-.
    destruct H as [[Hf [l0 Hl]] | [Hf [Hl Hq]]].
    + left. st_unfold. split; [exact Hf|]. rewrite Hl in *.
      destruct k as [|k]; simpl; [now eexists|].
      destruct k; discriminate.
    + rewrite Hl in E. destruct k; discriminate.
  - destruct (pick k (leaders st)) as [[l rest]|] eqn:E; [|discriminate].
    destruct (lawait l) as [|r]; [discriminate|].
    injection Hs as <-. rewrite leaderResume_eq.
    apply resumed_singleFlight. st_unfold.
    destruct H as [[Hf [l0 Hl]] | [Hf [Hl Hq]]]; rewrite Hl in E.
    + now destruct (pick_singleton _ _ _ _ E) as [_ [_ ->]].
    + destruct k; discriminate.
  - injection Hs as <-. exact H.
  - injection Hs as <-. exact H.
Qed.

Lemma run_singleFlight (acts : list Action) :
  forall st st', singleFlight st -> run B acts st = Some st' -> singleFlight st'.
Proof.
  induction acts as [|a acts IH]; intros st st' H Hr; simpl in Hr.
  - now injection Hr as <-.
  - destruct (step B a st) as [st1|] eqn:E; [|discriminate].
    apply (IH st1); [now apply step_singleFlight with a st | exact Hr].
Qed.

Lemma run_app (a b : list Action) :
  forall st,
    run B (a ++ b) st
    = match run B a st with
      | Some st' => run B b st'
      | None => None
      end.
Proof.
  induction a as [|x a IH]; intro st; simpl; [reflexivity|].
  destruct (step B x st); [apply IH | reflexivity].
Qed.

Lemma singleFlight_inFlight (st : State) :
  singleFlight st -> (inFlight st <= 1)%nat.
Proof.
  unfold inFlight. intros [[_ [l ->]] | [_ [-> _]]]; simpl; [|lia].
  destruct (awaitingNet l); simpl; lia.
Qed.

(** *** Every call is re-issued at most once *)

Lemma heldOK_cfgOK (c : RequestConfig) : heldOK c -> cfgOK c.
Proof. intros [H0 [H1 H2]]. unfold cfgOK. rewrite H0. repeat split; auto; lia. Qed.

Lemma cfgOK_setAuthorization (t : string) (c : RequestConfig) :
  cfgOK c -> cfgOK (setAuthorization t c).
Proof. exact (fun H => H). Qed.

Lemma cfgOK_attach (token : option string) (c : RequestConfig) :
  cfgOK c -> cfgOK (attach token c).
Proof.
  intro H. unfold attach. destruct token as [t|]; [|exact H].
  destruct (JS.truthy t); exact H.
Qed.

Lemma reissued_retries (t : string) (o : RequestConfig) :
  heldOK o ->
  retries (reissued (setAuthorization t o)) = 1%nat
  /\ _retry (reissued (setAuthorization t o)) = true.
Proof. intros [H0 [H1 _]]. simpl. now rewrite H0. Qed.

Lemma reissued_cfgOK (t : string) (o : RequestConfig) :
  heldOK o -> cfgOK (reissued (setAuthorization t o)).
Proof.
  intros [H0 [H1 H2]]. unfold cfgOK, respIsAuthEndpoint in *. simpl.
  rewrite H0. repeat split; auto.
Qed.

Lemma markRetry_heldOK (c : RequestConfig) :
  cfgOK c -> _retry c = false -> respIsAuthEndpoint c = false -> heldOK (markRetry c).
Proof.
  intros [H0 [H1 _]] Hr Ha. unfold heldOK. simpl. repeat split; [|exact Ha].
  destruct (retries c) as [|[|n]]; [reflexivity | | lia].
  rewrite H1 in Hr by reflexivity. discriminate.
Qed.

Lemma waiters_configs_OK (q : list Waiter) :
  Forall waiterOK q -> Forall cfgOK (reqConfigs q) /\ Forall heldOK (respConfigs q).
Proof.
  induction 1 as [|w q Hw _ [IH1 IH2]]; simpl; [split; constructor|].
  destruct w; simpl in Hw; split; auto.
Qed.

Lemma woken_OK (t : string) (q : list Waiter) :
  Forall waiterOK q -> Forall waiterOK (woken t q).
Proof. unfold woken. destruct (JS.truthy t); [auto | constructor]. Qed.

Lemma rejections_OK (e : Error) (cs : list RequestConfig) :
  Forall cfgOK cs -> Forall (fun p => cfgOK (fst p)) (rejections e cs).
Proof. unfold rejections. intro H. apply Forall_map. exact H. Qed.

Lemma resumeEvents_OK (t : string) (q : list Waiter) :
  Forall waiterOK q -> Forall eventOK (map (resumeEvent t) q).
Proof.
  intro H. apply Forall_map. eapply Forall_impl; [|exact H].
  intros [c|o] Hw; [exact Hw | exact (reissued_retries t o Hw)].
Qed.

Lemma startRefresh_retryInv (kind : LeaderKind) (c : RequestConfig) (st : State) :
  leaderOK (mkLeader kind c AwaitNet) -> retryInv st -> retryInv (startRefresh kind c st).
Proof.
  intros Hl [Hp [Hw [Hs [Hq [Hls Ht]]]]]. rewrite startRefresh_eq.
  unfold retryInv. simpl. repeat split; auto.
  - apply Forall_app. split; [exact Hls|]. constructor; [exact Hl | constructor].
  - apply Forall_app. split; [exact Ht|]. constructor; [exact I|].
    unfold startEvents. destruct (getRefreshToken (store st)) as [rt|]; [|constructor].
    destruct (JS.truthy rt); repeat constructor.
Qed.

Lemma dispatch_retryInv (c : RequestConfig) (st : State) :
  cfgOK c -> retryInv st -> retryInv (dispatch c st).
Proof.
  intros Hc [Hp [Hw [Hs [Hq [Hls Ht]]]]]. unfold retryInv. st_unfold.
  repeat split; auto; apply Forall_app; split; auto; now repeat constructor.
Qed.

Lemma settle_retryInv (c : RequestConfig) (o : Outcome) (st : State) :
  cfgOK c -> retryInv st -> retryInv (settle c o st).
Proof.
  intros Hc [Hp [Hw [Hs [Hq [Hls Ht]]]]]. unfold retryInv. st_unfold.
  repeat split; auto; apply Forall_app; split; auto; now repeat constructor.
Qed.

Lemma set_store_retryInv (s : Store) (st : State) :
  retryInv st -> retryInv (set_store s st).
Proof. exact (fun H => H). Qed.

Lemma requestInterceptor_retryInv (now : Z) (c : RequestConfig) (st : State) :
  cfgOK c -> retryInv st -> retryInv (requestInterceptor now c st).
Proof.
  intros Hc H. unfold requestInterceptor.
  destruct (reqIsAuthEndpoint c); [now apply dispatch_retryInv|].
  destruct (JS.truthyO (getAccessToken (store st)) && isTokenExpiringSoon 60 now (store st)).
  - destruct (negb (isRefreshing st)); [now apply startRefresh_retryInv|].
    destruct H as [Hp [Hw [Hs [Hq [Hls Ht]]]]]. unfold retryInv. st_unfold.
    repeat split; auto; apply Forall_app; split; auto; now repeat constructor.
  - apply dispatch_retryInv; [now apply cfgOK_attach | exact H].
Qed.

(** The error of a response: its config is the request that was answered. *)
Lemma handleError_retryInv (c : RequestConfig) (status : option Z) (st : State) :
  cfgOK c -> retryInv st -> retryInv (handleError c (AxiosError status (Some c)) st).
Proof.
  intros Hc H. unfold handleError. cbn [configOf].
  destruct (negb (is401 _)); [now apply settle_retryInv|].
  destruct (respIsAuthEndpoint c) eqn:Ea; [now apply settle_retryInv|].
  destruct (_retry c) eqn:Er;
    [apply settle_retryInv; [exact Hc | now apply set_store_retryInv]|].
  pose proof (markRetry_heldOK c Hc Er Ea) as Hh.
  destruct (negb (isRefreshing st)); [now apply startRefresh_retryInv|].
  destruct H as [Hp [Hw [Hs [Hq [Hls Ht]]]]]. unfold retryInv. st_unfold.
  repeat split; auto; apply Forall_app; split; auto; now repeat constructor.
Qed.

Lemma resumed_retryInv (l : Leader) (r : RefreshFailure + string) (st : State) :
  leaderOK l -> retryInv st -> retryInv (resumed B l r st).
Proof.
  intros Hl [Hp [Hw [Hs [Hq [Hls Ht]]]]].
  destruct (waiters_configs_OK _ Hq) as [Hreq Hresp].
  destruct (waiters_configs_OK _ (woken_OK match r with inr t => t | _ => EmptyString end _ Hq))
    as [Hreq' Hresp'].
  assert (Hresp2 : Forall cfgOK (respConfigs (refreshQueue st))).
  { eapply Forall_impl; [|exact Hresp]. exact heldOK_cfgOK. }
  unfold resumed, leaderOK in *.
  destruct (lkind l); destruct r as [f|t]; unfold retryInv; simpl;
    repeat split; auto;
    repeat (apply Forall_app; split); auto;
    try constructor; try (now constructor);
    try (apply rejections_OK; auto);
    try (apply Forall_app; split; auto);
    try (now repeat constructor);
    try (now apply heldOK_cfgOK);
    try (apply Forall_map; eapply Forall_impl; [|eassumption];
         intros; now (apply reissued_cfgOK || apply cfgOK_setAuthorization));
    try (now apply resumeEvents_OK, woken_OK);
    try (now apply cfgOK_attach);
    try (now apply reissued_cfgOK);
    try (now apply reissued_retries);
    try (unfold eventOK; destruct (JS.truthy t); assumption).
Qed.

Lemma step_retryInv (a : Action) (st st' : State) :
  retryInv st -> step B a st = Some st' -> retryInv st'.
Proof.
  intros H Hs. pose proof H as [Hp [Hw [Hst [Hq [Hls Ht]]]]].
  destruct (isRestoreAction a) eqn:Era.
  { destruct (restore_step_frame _ _ _ _ Era Hs) as (_ & Eq & El & Ep & Ew & Es & Et).
    unfold retryInv. rewrite Eq, El, Ep, Ew, Es. repeat split; auto.
    destruct Et as [-> | [rt ->]]; [exact Ht|].
    apply Forall_app. split; [exact Ht | now repeat constructor]. }
  destruct a as [u|k now|k status|k r now|k|tok ex rt now| |k r now|k now|];
    try discriminate Era; simpl in Hs.
  - injection Hs as <-. unfold retryInv. st_unfold. repeat split; auto;
      apply Forall_app; split; auto; constructor; [|constructor];
      unfold cfgOK; simpl; repeat split; auto; discriminate.
  - destruct (pick k (pending st)) as [[c rest]|] eqn:E; [|discriminate].
    injection Hs as <-. destruct (pick_Forall _ _ _ _ _ E Hp) as [Hc Hrest].
    apply requestInterceptor_retryInv; [exact Hc|].
    unfold retryInv. st_unfold. repeat split; auto.
  - destruct (pick k (wire st)) as [[c rest]|] eqn:E; [|discriminate].
    destruct (pick_Forall _ _ _ _ _ E Hw) as [Hc Hrest].
    assert (H1 : retryInv (set_wire rest st)).
    { unfold retryInv. st_unfold. repeat split; auto. }
    destruct status as [s|].
    + destruct ((200 <=? s)%Z && (s <? 300)%Z); injection Hs as <-;
        [now apply settle_retryInv | now apply handleError_retryInv].
    + injection Hs as <-. now apply handleError_retryInv.
  - destruct (nth_error (leaders st) k) as [l|] eqn:E; [|discriminate].
    destruct (lawait l); [|discriminate].
    destruct (finishRefresh r now (store st)) as [s' res].
    injection Hs as <-. unfold retryInv. st_unfold. repeat split; auto.
    apply replace_Forall; [|exact Hls].
    apply nth_error_In in E. rewrite Forall_forall in Hls. exact (Hls _ E).
  - destruct (pick k (leaders st)) as [[l rest]|] eqn:E; [|discriminate].
    destruct (lawait l) as [|r]; [discriminate|].
    injection Hs as <-. rewrite leaderResume_eq.
    destruct (pick_Forall _ _ _ _ _ E Hls) as [Hl Hrest].
    apply resumed_retryInv; [exact Hl|].
    unfold retryInv. st_unfold. repeat split; auto.
  - injection Hs as <-. exact H.
  - injection Hs as <-. exact H.
Qed.

Lemma retryInv_init (s : Store) : retryInv (init s).
Proof. unfold retryInv. simpl. repeat split; constructor. Qed.

Lemma run_retryInv (acts : list Action) :
  forall st st', retryInv st -> run B acts st = Some st' -> retryInv st'.
Proof.
  induction acts as [|a acts IH]; intros st st' H Hr; simpl in Hr.
  - now injection Hr as <-.
  - destruct (step B a st) as [st1|] eqn:E; [|discriminate].
    apply (IH st1); [now apply step_retryInv with a st | exact Hr].
Qed.

End WithBaseURL.

(** *** Counting refreshes *)

Lemma startEvents_calls (s : Store) :
  length (filter isRefreshCall (EvRefreshCall :: startEvents s)) = 1%nat.
Proof.
  unfold startEvents. destruct (getRefreshToken s) as [rt|]; [|reflexivity].
  now destruct (JS.truthy rt).
Qed.

Lemma startEvents_posts (s : Store) :
  length (filter isRefreshPost (EvRefreshCall :: startEvents s))
  = if JS.truthyO (getRefreshToken s) then 1%nat else 0%nat.
Proof.
  unfold startEvents. destruct (getRefreshToken s) as [rt|]; [|reflexivity].
  simpl. now destruct (JS.truthy rt).
Qed.

Lemma resumeEvents_calls (t : string) (q : list Waiter) :
  filter isRefreshCall (map (resumeEvent t) q) = []
  /\ filter isRefreshPost (map (resumeEvent t) q) = [].
Proof. induction q as [|[c|o] q [IH1 IH2]]; simpl; auto. Qed.

(** *** Login and refresh requests *)

(** C7. A request whose URL contains [/api/auth/login] or
    [/api/auth/refresh] goes through the request interceptor unchanged: no
    token is attached, no refresh is started or awaited, the store and the
    refresh state are untouched.  A 401 answer to it is handed back to the
    caller as it is: no retry, no refresh, nothing queued.  The refresh call
    itself is sent outside the client, and the error it fails with (a 401
    included) is likewise passed through by the response interceptor. *)
Theorem auth_endpoints_bypass_refresh :
  forall (cfg : RequestConfig) (u : string),
    url cfg = Some u ->
    JS.includes u "/api/auth/login" = true \/ JS.includes u "/api/auth/refresh" = true ->
    forall (st : State) (now : Z) (caller : RequestConfig),
      (requestInterceptor now cfg st = dispatch cfg st
       /\ wire (requestInterceptor now cfg st) = wire st ++ [cfg]
       /\ store (requestInterceptor now cfg st) = store st
       /\ isRefreshing (requestInterceptor now cfg st) = isRefreshing st
       /\ leaders (requestInterceptor now cfg st) = leaders st
       /\ refreshQueue (requestInterceptor now cfg st) = refreshQueue st
       /\ refreshCalls (requestInterceptor now cfg st) = refreshCalls st
       /\ refreshPosts (requestInterceptor now cfg st) = refreshPosts st)
      /\ (let error := AxiosError (Some 401%Z) (Some cfg) in
          handleError caller error st = settle caller (Rejected error) st
          /\ settled (handleError caller error st) = settled st ++ [(caller, Rejected error)]
          /\ store (handleError caller error st) = store st
          /\ pending (handleError caller error st) = pending st
          /\ isRefreshing (handleError caller error st) = isRefreshing st
          /\ leaders (handleError caller error st) = leaders st
          /\ refreshQueue (handleError caller error st) = refreshQueue st
          /\ trace (handleError caller error st) = trace st)
      /\ (forall (B : string) (f : RefreshFailure),
            handleError caller (errorOf B f) st = settle caller (Rejected (errorOf B f)) st).
Proof.
  intros cfg u Hu Hauth st now caller.
  assert (Hreq : reqIsAuthEndpoint cfg = true).
  { unfold reqIsAuthEndpoint. rewrite Hu. destruct Hauth as [-> | ->];
      [reflexivity | apply orb_true_r]. }
  assert (Hresp : respIsAuthEndpoint cfg = true).
  { unfold respIsAuthEndpoint. rewrite Hu. destruct Hauth as [-> | ->];
      [reflexivity | now rewrite orb_true_r]. }
  split; [|split].
  - unfold requestInterceptor. rewrite Hreq. repeat split.
    + unfold refreshCalls. simpl. rewrite filter_app, length_app. simpl. lia.
    + unfold refreshPosts. simpl. rewrite filter_app, length_app. simpl. lia.
  - cbv zeta. unfold handleError. cbn [is401 configOf]. rewrite Hresp. simpl.
    repeat split.
  - intros B f. apply handleError_refresh_error.
Qed.

(** The refresh URL of the development server, asked for through the client:
    it leaves without a token although one is stored and about to expire. *)
Lemma auth_endpoints_bypass_refresh_witness :
  let cfg := mkConfig (Some "http://localhost:5003/api/auth/refresh/") None false 0 in
  let st := init (mkStore (Some "tok0") (Some 100000%Z) true (Some "rt0")) in
  JS.includes "http://localhost:5003/api/auth/refresh/" "/api/auth/refresh" = true
  /\ wire (requestInterceptor 99000 cfg st) = [cfg]
  /\ refreshCalls (requestInterceptor 99000 cfg st) = 0%nat
  /\ settled (handleError cfg (AxiosError (Some 401%Z) (Some cfg)) st)
     = [(cfg, Rejected (AxiosError (Some 401%Z) (Some cfg)))].
Proof.
  cbv zeta.
  pose proof (auth_endpoints_bypass_refresh
                (mkConfig (Some "http://localhost:5003/api/auth/refresh/") None false 0)
                "http://localhost:5003/api/auth/refresh/" eq_refl (or_intror eq_refl)
                (init (mkStore (Some "tok0") (Some 100000%Z) true (Some "rt0")))
                99000%Z
                (mkConfig (Some "http://localhost:5003/api/auth/refresh/") None false 0))
    as [[_ [Hw [_ [_ [_ [_ [Hc _]]]]]]] [[_ [Hs _]] _]].
  split; [reflexivity|]. split; [exact Hw|]. split; [exact Hc | exact Hs].
Defined.

(** *** Bounded retry *)

Lemma retryInv_allConfigs (st : State) (c : RequestConfig) :
  retryInv st -> In c (allConfigs st) -> cfgOK c.
Proof.
  intros [Hp [Hw [Hs [Hq [Hl _]]]]] Hin. unfold allConfigs in Hin.
  rewrite Forall_forall in Hp, Hw, Hs, Hq, Hl.
  repeat (apply in_app_or in Hin as [Hin|Hin]); auto.
  - apply in_map_iff in Hin as [p [<- Hin]]. now apply Hs.
  - apply in_map_iff in Hin as [w [<- Hin]]. specialize (Hq _ Hin).
    destruct w; simpl in *; [exact Hq | now apply heldOK_cfgOK].
  - apply in_map_iff in Hin as [l [<- Hin]]. specialize (Hl _ Hin).
    unfold leaderOK in Hl. destruct (lkind l); [exact Hl | now apply heldOK_cfgOK].
Qed.

(** C2. In every state the client can reach: no config, wherever it is
    (waiting to start, sent, settled, queued behind a refresh, or with the
    interceptor performing the refresh), has been re-issued more than once,
    and every re-issue in the trace is a first one.  When a 401 arrives for a
    sent request whose [_retry] flag is already set, the stored credentials
    are all cleared and the caller is rejected with that 401 error; nothing
    is re-issued, no refresh is started and nothing is queued. *)
Theorem retried_at_most_once :
  forall (B : string) (s : Store) (acts : list Action) (st : State),
    run B acts (init s) = Some st ->
    (forall c, In c (allConfigs st) -> (retries c <= 1)%nat)
    /\ (forall c, In (EvRetry c) (trace st) -> retries c = 1%nat)
    /\ (forall (k : nat) (cfg : RequestConfig),
          nth_error (wire st) k = Some cfg ->
          _retry cfg = true ->
          exists st',
            step B (Reply k (Some 401%Z)) st = Some st'
            /\ cleared (store st')
            /\ settled st' = settled st ++ [(cfg, Rejected (AxiosError (Some 401%Z) (Some cfg)))]
            /\ pending st' = pending st
            /\ trace st' = trace st
            /\ isRefreshing st' = isRefreshing st
            /\ leaders st' = leaders st
            /\ refreshQueue st' = refreshQueue st).
Proof.
  intros B s acts st Hrun.
  pose proof (run_retryInv B acts _ _ (retryInv_init s) Hrun) as Hinv.
  split; [|split].
  - intros c Hin. now destruct (retryInv_allConfigs st c Hinv Hin).
  - intros c Hin. destruct Hinv as [_ [_ [_ [_ [_ Ht]]]]].
    rewrite Forall_forall in Ht. now destruct (Ht _ Hin).
  - intros k cfg Hk Hretry.
    destruct (nth_error_pick _ _ _ Hk) as [rest Hpick].
    assert (Hok : cfgOK cfg).
    { apply (retryInv_allConfigs st); [exact Hinv|].
      unfold allConfigs. apply in_or_app. right. apply in_or_app. left.
      now apply nth_error_In with k. }
    destruct Hok as [_ [_ Hauth]]. specialize (Hauth Hretry).
    eexists. split.
    + simpl. rewrite Hpick. cbn [Z.leb Z.ltb andb Z.compare Pos.compare Pos.compare_cont].
      unfold handleError. cbn [is401 configOf Z.eqb Pos.eqb negb].
      rewrite Hauth, Hretry. reflexivity.
    + simpl. unfold cleared, clearTokens, getRefreshToken, getAccessToken. simpl.
      repeat split. now destruct (storageAvailable (store st)).
Qed.

Lemma retried_at_most_once_witness :
  exists st st',
    run "http://localhost:5003" twice401 (init (empty true None)) = Some st
    /\ wire st = [mkConfig (Some "/api/tickets/") (Some "Bearer tok1") true 1]
    /\ step "http://localhost:5003" (Reply 0 (Some 401%Z)) st = Some st'
    /\ cleared (store st')
    /\ pending st' = []
    /\ trace st' = trace st.
Proof.
  destruct twice401_state as [st|] eqn:E; [|discriminate E].
  assert (Hrun : run "http://localhost:5003" twice401 (init (empty true None)) = Some st).
  { rewrite <- E. vm_compute. reflexivity. }
  assert (Hwire : wire st = [mkConfig (Some "/api/tickets/") (Some "Bearer tok1") true 1]).
  { injection E as <-. reflexivity. }
  assert (Hpend : pending st = []).
  { injection E as <-. reflexivity. }
  destruct (retried_at_most_once "http://localhost:5003" (empty true None) twice401 st Hrun)
    as [_ [_ H]].
  destruct (H 0%nat (mkConfig (Some "/api/tickets/") (Some "Bearer tok1") true 1))
    as [st' [Hs [Hc [_ [Hp [Ht _]]]]]].
  - now rewrite Hwire.
  - reflexivity.
  - exists st, st'. split; [exact Hrun|]. split; [exact Hwire|].
    split; [exact Hs|]. split; [exact Hc|]. split; [now rewrite Hp | exact Ht].
Defined.

(** *** Refresh failure *)

Lemma waiter_in_configs (q : list Waiter) (w : Waiter) :
  In w q ->
  match w with
  | ReqWaiter c => In c (reqConfigs q)
  | RespWaiter o => In o (respConfigs q)
  end.
Proof.
  induction q as [|w' q IH]; [contradiction|].
  intros [-> | Hin].
  - destruct w; now left.
  - specialize (IH Hin). destruct w; destruct w'; simpl; auto.
Qed.

Lemma in_rejections (e : Error) (cs : list RequestConfig) (c : RequestConfig) :
  In c cs -> In (c, Rejected e) (rejections e cs).
Proof. intro H. unfold rejections. now apply (in_map (fun c => (c, Rejected e))). Qed.

(** The POST fails: [refreshAccessToken] clears the store in its [catch]. *)
Lemma finishRefresh_failed_clears (status : option Z) (now : Z) (s : Store) :
  cleared (fst (finishRefresh (RefreshFailed status) now s))
  /\ snd (finishRefresh (RefreshFailed status) now s) = inl (PostFailed status).
Proof.
  simpl. unfold cleared, clearTokens, getRefreshToken, getAccessToken. simpl.
  repeat split. now destruct (storageAvailable s).
Qed.

(** Reactive path: the response interceptor's [catch] clears the store,
    whatever made the refresh fail, and rejects the queue and its caller
    with the refresh error. *)
Lemma response_path_failure_clears (B : string) (l : Leader) (f : RefreshFailure) (st : State) :
  lkind l = RespLeader ->
  cleared (store (leaderResume B l (inl f) st))
  /\ isRefreshing (leaderResume B l (inl f) st) = false
  /\ refreshQueue (leaderResume B l (inl f) st) = []
  /\ trace (leaderResume B l (inl f) st) = trace st
  /\ (forall w, In w (refreshQueue st) ->
        In (waiterConfig w, Rejected (errorOf B f)) (settled (leaderResume B l (inl f) st))).
Proof.
  intro Hk. rewrite leaderResume_eq. unfold resumed. rewrite Hk. simpl.
  split; [|repeat split].
  - unfold cleared, clearTokens, getRefreshToken, getAccessToken. simpl.
    repeat split. now destruct (storageAvailable (store st)).
  - intros w Hw. apply in_or_app. right.
    pose proof (waiter_in_configs _ _ Hw) as Hin.
    destruct w as [c|o]; simpl.
    + apply in_or_app. right. right. now apply in_rejections.
    + apply in_or_app. left. now apply in_rejections.
Qed.

(** Proactive path: the request interceptor's [catch] only rejects the queue
    and rethrows; the store is left as [refreshAccessToken] left it. *)
Lemma request_path_failure_keeps_store (B : string) (l : Leader) (f : RefreshFailure) (st : State) :
  lkind l = ReqLeader ->
  store (leaderResume B l (inl f) st) = store st
  /\ isRefreshing (leaderResume B l (inl f) st) = false
  /\ refreshQueue (leaderResume B l (inl f) st) = []
  /\ trace (leaderResume B l (inl f) st) = trace st.
Proof.
  intro Hk. rewrite leaderResume_eq. unfold resumed. rewrite Hk. simpl.
  repeat split.
Qed.

(** C5, at the failing input.  The proactive refresh finds no refresh token:
    [refreshAccessToken] throws before sending anything, the request is
    rejected with that error, no second refresh is attempted, but the access
    token and its expiry are still stored, so the store is not cleared.  The
    same failure on the reactive path (a 401 at the same moment) does clear
    it. *)
Theorem refresh_without_token_on_request_path_keeps_credentials :
  exists st,
    run "http://localhost:5003" noRefreshTokenRun (init (empty false None)) = Some st
    /\ settled st = [(mkConfig (Some "/api/tickets/") None false 0,
                       Rejected (PlainError "No refresh token available"))]
    /\ refreshCalls st = 1%nat
    /\ refreshPosts st = 0%nat
    /\ isRefreshing st = false
    /\ getRefreshToken (store st) = None
    /\ accessToken (store st) = Some "tok0"
    /\ tokenExpiresAt (store st) = Some 900000%Z
    /\ (exists st2,
          run "http://localhost:5003"
              [ Login "tok0" 900 "rt0" 0; Submit (Some "/api/tickets/");
                RunRequest 0 800000; Reply 0 (Some 401%Z); LeaderResume 0 ]
              (init (empty false None)) = Some st2
          /\ settled st2 = [(mkConfig (Some "/api/tickets/") (Some "Bearer tok0") true 0,
                              Rejected (PlainError "No refresh token available"))]
          /\ accessToken (store st2) = None
          /\ tokenExpiresAt (store st2) = None).
Proof.
  eexists. split; [vm_compute; reflexivity|].
  repeat (split; [reflexivity|]).
  eexists. split; [vm_compute; reflexivity|].
  repeat split.
Qed.

(** *** Callers that need a refresh at the same time *)

Lemma refreshCalls_dispatch (c : RequestConfig) (st : State) :
  refreshCalls (dispatch c st) = refreshCalls st
  /\ refreshPosts (dispatch c st) = refreshPosts st.
Proof.
  unfold refreshCalls, refreshPosts. simpl. rewrite !filter_app. simpl.
  now rewrite !app_nil_r.
Qed.

Lemma posted_startAwait (s : Store) :
  posted (startAwait s) = JS.truthyO (getRefreshToken s).
Proof. unfold startAwait. now destruct (JS.truthyO (getRefreshToken s)). Qed.

Section Window.

Variable B : string.

(** What a request interceptor does, by the three cases of its test. *)
Lemma requestInterceptor_cases (now : Z) (c : RequestConfig) (st : State) :
  let needs := negb (reqIsAuthEndpoint c)
               && JS.truthyO (getAccessToken (store st))
               && isTokenExpiringSoon 60 now (store st) in
  requestInterceptor now c st
  = if needs then
      if negb (isRefreshing st) then startRefresh ReqLeader c st
      else set_refreshQueue (refreshQueue st ++ [ReqWaiter c]) st
    else dispatch (if reqIsAuthEndpoint c then c else attach (getAccessToken (store st)) c) st.
Proof.
  cbv zeta. unfold requestInterceptor.
  destruct (reqIsAuthEndpoint c); [reflexivity|]. cbn [negb andb].
  now destruct (JS.truthyO (getAccessToken (store st))
                && isTokenExpiringSoon 60 now (store st)).
Qed.

(** What the response interceptor does with the error of a response. *)
Lemma handleError_cases (c : RequestConfig) (status : option Z) (st : State) :
  let needs := match status with
               | Some s => (s =? 401)%Z && negb (respIsAuthEndpoint c) && negb (_retry c)
               | None => false
               end in
  let error := AxiosError status (Some c) in
  handleError c error st
  = if needs then
      if negb (isRefreshing st) then startRefresh RespLeader (markRetry c) st
      else set_refreshQueue (refreshQueue st ++ [RespWaiter (markRetry c)]) st
    else settle c (Rejected error)
                (if is401 error && negb (respIsAuthEndpoint c) && _retry c
                 then set_store (clearTokens (store st)) st else st).
Proof.
  cbv zeta. unfold handleError. cbn [configOf is401].
  destruct status as [s|]; [|reflexivity].
  destruct (s =? 401)%Z; [|reflexivity]. cbn [negb andb].
  destruct (respIsAuthEndpoint c); [reflexivity|]. cbn [negb andb].
  now destruct (_retry c).
Qed.

(** The answer to a sent request, by the same cases. *)
Lemma reply_cases (k : nat) (status : option Z) (st st' : State) :
  step B (Reply k status) st = Some st' ->
  exists c rest,
    pick k (wire st) = Some (c, rest)
    /\ st' = if needsRefresh (Reply k status) st
             then if negb (isRefreshing st)
                  then startRefresh RespLeader (markRetry c) (set_wire rest st)
                  else set_refreshQueue (refreshQueue st ++ [RespWaiter (markRetry c)])
                                        (set_wire rest st)
             else match status with
                  | Some s =>
                      if (200 <=? s)%Z && (s <? 300)%Z
                      then settle c (Responded s) (set_wire rest st)
                      else settle c (Rejected (AxiosError status (Some c)))
                             (if is401 (AxiosError status (Some c))
                                 && negb (respIsAuthEndpoint c) && _retry c
                              then set_store (clearTokens (store st)) (set_wire rest st)
                              else set_wire rest st)
                  | None => settle c (Rejected (AxiosError None (Some c))) (set_wire rest st)
                  end.
Proof.
  intro Hs. simpl in Hs.
  destruct (pick k (wire st)) as [[c rest]|] eqn:Ep; [|discriminate].
  exists c, rest. split; [reflexivity|].
  unfold needsRefresh. rewrite (pick_nth_error _ _ _ _ Ep).
  destruct status as [s|].
  - destruct ((200 <=? s)%Z && (s <? 300)%Z) eqn:E2.
    + injection Hs as <-.
      assert ((s =? 401)%Z = false) as ->; [|reflexivity].
      apply andb_true_iff in E2 as [_ E2]. apply Z.ltb_lt in E2.
      apply Z.eqb_neq. lia.
    + injection Hs as <-. now rewrite handleError_cases.
  - injection Hs as <-. now rewrite handleError_cases.
Qed.

Lemma run_request_cases (k : nat) (now : Z) (st st' : State) :
  step B (RunRequest k now) st = Some st' ->
  exists c rest,
    pick k (pending st) = Some (c, rest)
    /\ st' = if needsRefresh (RunRequest k now) st
             then if negb (isRefreshing st)
                  then startRefresh ReqLeader c (set_pending rest st)
                  else set_refreshQueue (refreshQueue st ++ [ReqWaiter c])
                                        (set_pending rest st)
             else dispatch (if reqIsAuthEndpoint c then c
                            else attach (getAccessToken (store st)) c)
                           (set_pending rest st).
Proof.
  intro Hs. simpl in Hs.
  destruct (pick k (pending st)) as [[c rest]|] eqn:Ep; [|discriminate].
  exists c, rest. split; [reflexivity|]. injection Hs as <-.
  unfold needsRefresh. rewrite (pick_nth_error _ _ _ _ Ep).
  now rewrite requestInterceptor_cases.
Qed.

(** The interceptors, a login and a logout leave the suspended session
    restores alone. *)
Lemma step_restores (a : Action) (st st' : State) :
  isRestoreAction a = false -> step B a st = Some st' -> restores st' = restores st.
Proof.
  intros Ha Hs.
  destruct a as [u|k now|k status|k r now|k|tok ex rt now| |k r now|k now|];
    try discriminate Ha.
  - simpl in Hs. now injection Hs as <-.
  - destruct (run_request_cases _ _ _ _ Hs) as [c [rest [_ ->]]].
    destruct (needsRefresh (RunRequest k now) st); [|reflexivity].
    destruct (negb (isRefreshing st)); [now rewrite startRefresh_eq | reflexivity].
  - destruct (reply_cases _ _ _ _ Hs) as [c [rest [_ ->]]].
    destruct (needsRefresh (Reply k status) st).
    + destruct (negb (isRefreshing st)); [now rewrite startRefresh_eq | reflexivity].
    + destruct status as [s0|]; [|reflexivity].
      destruct ((200 <=? s0)%Z && (s0 <? 300)%Z); [reflexivity|].
      now match goal with |- context [if ?b then set_store _ _ else _] => destruct b end.
  - simpl in Hs. destruct (nth_error (leaders st) k) as [l|]; [|discriminate].
    destruct (lawait l); [|discriminate].
    destruct (finishRefresh r now (store st)) as [s' res]. now injection Hs as <-.
  - simpl in Hs. destruct (pick k (leaders st)) as [[l rest]|]; [|discriminate].
    destruct (lawait l) as [|res]; [discriminate|]. injection Hs as <-.
    rewrite leaderResume_eq. unfold resumed.
    now destruct (lkind l); destruct res.
  - simpl in Hs. now injection Hs as <-.
  - simpl in Hs. now injection Hs as <-.
Qed.

Lemma resumeEvents_restore (t : string) (q : list Waiter) :
  filter isRestorePost (map (resumeEvent t) q) = [].
Proof. induction q as [|[c|o] q IH]; simpl; auto. Qed.

Lemma startRefresh_restorePosts (kind : LeaderKind) (c : RequestConfig) (st : State) :
  restorePosts (startRefresh kind c st) = restorePosts st.
Proof.
  rewrite startRefresh_eq. unfold restorePosts, startEvents. cbn [trace].
  rewrite filter_app, length_app.
  destruct (getRefreshToken (store st)) as [rt|]; [destruct (JS.truthy rt)|]; simpl; lia.
Qed.

(** Only the session restore sends the POST of [refreshToken]. *)
Lemma step_restorePosts (a : Action) (st st' : State) :
  isRestoreAction a = false -> step B a st = Some st' -> restorePosts st' = restorePosts st.
Proof.
  intros Ha Hs.
  destruct a as [u|k now|k status|k r now|k|tok ex rt now| |k r now|k now|];
    try discriminate Ha.
  - simpl in Hs. now injection Hs as <-.
  - destruct (run_request_cases _ _ _ _ Hs) as [c [rest [_ ->]]].
    destruct (needsRefresh (RunRequest k now) st).
    + destruct (negb (isRefreshing st)); [now rewrite startRefresh_restorePosts | reflexivity].
    + unfold restorePosts. simpl. rewrite filter_app, length_app. simpl. lia.
  - destruct (reply_cases _ _ _ _ Hs) as [c [rest [_ ->]]].
    destruct (needsRefresh (Reply k status) st).
    + destruct (negb (isRefreshing st)); [now rewrite startRefresh_restorePosts | reflexivity].
    + destruct status as [s0|]; [|reflexivity].
      destruct ((200 <=? s0)%Z && (s0 <? 300)%Z); [reflexivity|].
      now match goal with |- context [if ?b then set_store _ _ else _] => destruct b end.
  - simpl in Hs. destruct (nth_error (leaders st) k) as [l|]; [|discriminate].
    destruct (lawait l); [|discriminate].
    destruct (finishRefresh r now (store st)) as [s' res]. now injection Hs as <-.
  - simpl in Hs. destruct (pick k (leaders st)) as [[l rest]|]; [|discriminate].
    destruct (lawait l) as [|res]; [discriminate|]. injection Hs as <-.
    rewrite leaderResume_eq. unfold resumed, restorePosts.
    destruct (lkind l); destruct res as [f|t]; cbn [trace set_leaders]; try reflexivity;
      rewrite !filter_app, resumeEvents_restore; simpl; now rewrite app_nil_r.
  - simpl in Hs. now injection Hs as <-.
  - simpl in Hs. now injection Hs as <-.
Qed.

Lemma window_restorePosts (acts : list Action) :
  forall (st st' : State) (n : nat),
    noRestore acts = true ->
    window B acts st = Some (st', n) ->
    restorePosts st' = restorePosts st.
Proof.
  induction acts as [|a acts IH]; intros st st' n Hno Hw; simpl in Hw.
  - now injection Hw as <- _.
  - simpl in Hno. apply andb_true_iff in Hno as [Ha Hno]. apply negb_true_iff in Ha.
    destruct (quiet a); [|discriminate].
    destruct (step B a st) as [st1|] eqn:Es; [|discriminate].
    destruct (window B acts st1) as [[st2 m]|] eqn:Ew; [|discriminate].
    injection Hw as <- _.
    rewrite (IH _ _ _ Hno Ew). now apply step_restorePosts with a.
Qed.

(** The session restore neither calls [refreshAccessToken] nor sends a POST
    of it. *)
Lemma restore_step_counts (a : Action) (st st' : State) :
  isRestoreAction a = true -> step B a st = Some st' ->
  refreshCalls st' = refreshCalls st /\ refreshPosts st' = refreshPosts st.
Proof.
  intros Ha Hs.
  destruct (restore_step_frame _ _ _ _ Ha Hs) as (_ & _ & _ & _ & _ & _ & Et).
  unfold refreshCalls, refreshPosts.
  destruct Et as [-> | [rt ->]]; [now split|].
  rewrite !filter_app, !length_app. simpl. split; lia.
Qed.

(** While a refresh is under way, nothing but the resumption ends it: the
    same interceptor stays in charge, a caller that needs a refresh adds one
    entry to the queue and every other action adds none, and no refresh is
    started. *)
Lemma busy_step (a : Action) (st st' : State) (kind : LeaderKind)
      (cfg : RequestConfig) (aw : Await) :
  isRefreshing st = true ->
  leaders st = [mkLeader kind cfg aw] ->
  quiet a = true ->
  step B a st = Some st' ->
  isRefreshing st' = true
  /\ (exists aw', leaders st' = [mkLeader kind cfg aw'] /\ posted aw' = posted aw)
  /\ (exists more, refreshQueue st' = refreshQueue st ++ more
                   /\ length more = if needsRefresh a st then 1%nat else 0%nat)
  /\ refreshCalls st' = refreshCalls st
  /\ refreshPosts st' = refreshPosts st.
Proof.
  intros Hf Hl Hq Hs.
  assert (Hnil : exists more, refreshQueue st = refreshQueue st ++ more
                              /\ length more = 0%nat)
    by (exists []; now rewrite app_nil_r).
  assert (Hsame : exists aw', [mkLeader kind cfg aw] = [mkLeader kind cfg aw']
                              /\ posted aw' = posted aw)
    by (now exists aw).
  destruct (isRestoreAction a) eqn:Era.
  { destruct (restore_step_frame _ _ _ _ Era Hs) as (Ef & Eq & El & _).
    destruct (restore_step_counts _ _ _ Era Hs) as [Ec Ep].
    rewrite Ef, Eq, El, Hl. repeat split; auto.
    destruct a; try discriminate Era; exact Hnil. }
  destruct a as [u|k now|k status|k r now|k|tok ex rt now| |k r now|k now|];
    try discriminate.
  - simpl in Hs. injection Hs as <-. simpl. rewrite Hl. repeat split; auto.
  - destruct (run_request_cases _ _ _ _ Hs) as [c [rest [_ ->]]].
    rewrite Hf. cbn [negb].
    destruct (needsRefresh (RunRequest k now) st).
    + simpl. rewrite Hl. repeat split; auto. now exists [ReqWaiter c].
    + match goal with |- context [dispatch ?x ?y] =>
        destruct (refreshCalls_dispatch x y) as [-> ->] end.
      simpl. rewrite Hl. repeat split; auto.
  - destruct (reply_cases _ _ _ _ Hs) as [c [rest [_ ->]]].
    rewrite Hf. cbn [negb].
    destruct (needsRefresh (Reply k status) st).
    + simpl. rewrite Hl. repeat split; auto. now exists [RespWaiter (markRetry c)].
    + destruct status as [s0|];
        [destruct ((200 <=? s0)%Z && (s0 <? 300)%Z)|];
        try match goal with |- context [if ?b then set_store _ _ else _] =>
              destruct b end;
        simpl; rewrite Hl; repeat split; auto.
  - simpl in Hs. rewrite Hl in Hs.
    destruct k as [|k]; [|destruct k; discriminate]. simpl in Hs.
    destruct aw; [|discriminate].
    destruct r as [tok ex|status]; simpl in Hs; injection Hs as <-; simpl;
      repeat split; auto; eexists; split; reflexivity.
  - simpl in Hs. injection Hs as <-. simpl. rewrite Hl. repeat split; auto.
  - simpl in Hs. injection Hs as <-. simpl. rewrite Hl. repeat split; auto.
Qed.

(** With no refresh under way, a caller that needs one starts it; any other
    action leaves the client idle. *)
Lemma idle_step (a : Action) (st st' : State) :
  isRefreshing st = false ->
  leaders st = [] ->
  refreshQueue st = [] ->
  quiet a = true ->
  step B a st = Some st' ->
  if needsRefresh a st
  then isRefreshing st' = true
       /\ (exists kind cfg, leaders st' = [mkLeader kind cfg (startAwait (store st))])
       /\ refreshQueue st' = []
       /\ refreshCalls st' = S (refreshCalls st)
       /\ refreshPosts st'
          = (refreshPosts st + if posted (startAwait (store st)) then 1 else 0)%nat
  else isRefreshing st' = false
       /\ leaders st' = []
       /\ refreshQueue st' = []
       /\ refreshCalls st' = refreshCalls st
       /\ refreshPosts st' = refreshPosts st.
Proof.
  intros Hf Hl Hqe Hq Hs.
  assert (Hstart : forall kind c st0,
             store st0 = store st -> leaders st0 = [] -> refreshQueue st0 = [] ->
             trace st0 = trace st ->
             isRefreshing (startRefresh kind c st0) = true
             /\ (exists kind' cfg, leaders (startRefresh kind c st0)
                                   = [mkLeader kind' cfg (startAwait (store st))])
             /\ refreshQueue (startRefresh kind c st0) = []
             /\ refreshCalls (startRefresh kind c st0) = S (refreshCalls st)
             /\ refreshPosts (startRefresh kind c st0)
                = (refreshPosts st + if posted (startAwait (store st)) then 1 else 0)%nat).
  { intros kind c st0 E1 E2 E3 E4. rewrite startRefresh_eq.
    unfold refreshCalls, refreshPosts. cbn [isRefreshing leaders refreshQueue trace].
    rewrite E1, E2, E3, E4, !filter_app, !length_app.
    rewrite startEvents_calls, startEvents_posts, posted_startAwait.
    split; [reflexivity|]. split; [now exists kind, c|].
    split; [reflexivity|]. split; [lia | reflexivity]. }
  destruct (isRestoreAction a) eqn:Era.
  { destruct (restore_step_frame _ _ _ _ Era Hs) as (Ef & Eq & El & _).
    destruct (restore_step_counts _ _ _ Era Hs) as [Ec Ep].
    assert (needsRefresh a st = false) as -> by (destruct a; try discriminate Era; reflexivity).
    rewrite Ef, Eq, El. repeat split; auto. }
  destruct a as [u|k now|k status|k r now|k|tok ex rt now| |k r now|k now|];
    try discriminate.
  - simpl in Hs. injection Hs as <-. simpl. repeat split; auto.
  - destruct (run_request_cases _ _ _ _ Hs) as [c [rest [_ ->]]].
    rewrite Hf. cbn [negb].
    destruct (needsRefresh (RunRequest k now) st).
    + now apply Hstart.
    + match goal with |- context [dispatch ?x ?y] =>
        destruct (refreshCalls_dispatch x y) as [-> ->] end.
      simpl. repeat split; auto.
  - destruct (reply_cases _ _ _ _ Hs) as [c [rest [_ ->]]].
    rewrite Hf. cbn [negb].
    destruct (needsRefresh (Reply k status) st).
    + now apply Hstart.
    + destruct status as [s0|];
        [destruct ((200 <=? s0)%Z && (s0 <? 300)%Z)|];
        try match goal with |- context [if ?b then set_store _ _ else _] =>
              destruct b end;
        simpl; repeat split; auto.
  - simpl in Hs. rewrite Hl in Hs. destruct k; discriminate.
  - simpl in Hs. injection Hs as <-. simpl. repeat split; auto.
  - simpl in Hs. injection Hs as <-. simpl. repeat split; auto.
Qed.

Lemma window_busy (acts : list Action) :
  forall (st st' : State) (n : nat) (kind : LeaderKind) (cfg : RequestConfig) (aw : Await),
    isRefreshing st = true ->
    leaders st = [mkLeader kind cfg aw] ->
    window B acts st = Some (st', n) ->
    isRefreshing st' = true
    /\ (exists aw', leaders st' = [mkLeader kind cfg aw'] /\ posted aw' = posted aw)
    /\ (exists more, refreshQueue st' = refreshQueue st ++ more /\ length more = n)
    /\ refreshCalls st' = refreshCalls st
    /\ refreshPosts st' = refreshPosts st.
Proof.
  induction acts as [|a acts IH]; intros st st' n kind cfg aw Hf Hl Hw; simpl in Hw.
  - injection Hw as <- <-. repeat split; eauto.
    exists []. now rewrite app_nil_r.
  - destruct (quiet a) eqn:Hq; [|discriminate].
    destruct (step B a st) as [st1|] eqn:Es; [|discriminate].
    destruct (window B acts st1) as [[st2 m]|] eqn:Ew; [|discriminate].
    injection Hw as <- <-.
    destruct (busy_step _ _ _ _ _ _ Hf Hl Hq Es)
      as [Hf1 [[aw1 [Hl1 Hp1]] [[m1 [Hq1 Hn1]] [Hc1 Hr1]]]].
    destruct (IH _ _ _ _ _ _ Hf1 Hl1 Ew)
      as [Hf2 [[aw2 [Hl2 Hp2]] [[m2 [Hq2 Hn2]] [Hc2 Hr2]]]].
    split; [exact Hf2|]. split; [exists aw2; split; congruence|].
    split; [|split; congruence].
    exists (m1 ++ m2). split; [now rewrite Hq2, Hq1, app_assoc|].
    rewrite length_app, Hn1, Hn2. now destruct (needsRefresh a st).
Qed.

Lemma window_idle (acts : list Action) :
  forall (st st' : State) (n : nat),
    isRefreshing st = false ->
    leaders st = [] ->
    refreshQueue st = [] ->
    window B acts st = Some (st', n) ->
    (1 <= n)%nat ->
    isRefreshing st' = true
    /\ (exists kind cfg aw,
          leaders st' = [mkLeader kind cfg aw]
          /\ refreshPosts st' = (refreshPosts st + if posted aw then 1 else 0)%nat)
    /\ length (refreshQueue st') = (n - 1)%nat
    /\ refreshCalls st' = S (refreshCalls st).
Proof.
  induction acts as [|a acts IH]; intros st st' n Hf Hl Hqe Hw Hn; simpl in Hw.
  - injection Hw as <- <-. lia.
  - destruct (quiet a) eqn:Hq; [|discriminate].
    destruct (step B a st) as [st1|] eqn:Es; [|discriminate].
    destruct (window B acts st1) as [[st2 m]|] eqn:Ew; [|discriminate].
    injection Hw as <- <-.
    pose proof (idle_step _ _ _ Hf Hl Hqe Hq Es) as Hstep.
    destruct (needsRefresh a st).
    + destruct Hstep as [Hf1 [[kind [cfg Hl1]] [Hq1 [Hc1 Hp1]]]].
      destruct (window_busy _ _ _ _ _ _ _ Hf1 Hl1 Ew)
        as [Hf2 [[aw2 [Hl2 Hp2]] [[m2 [Hq2 Hn2]] [Hc2 Hr2]]]].
      split; [exact Hf2|]. split.
      { exists kind, cfg, aw2. split; [exact Hl2|]. rewrite Hr2, Hp1, Hp2. reflexivity. }
      split; [|congruence].
      rewrite Hq2, Hq1. simpl. lia.
    + destruct Hstep as [Hf1 [Hl1 [Hq1 [Hc1 Hp1]]]].
      destruct (IH _ _ _ Hf1 Hl1 Hq1 Ew Hn) as [Hf2 [[kind [cfg [aw [Hl2 Hp2]]]] [Hq2 Hc2]]].
      split; [exact Hf2|]. split; [exists kind, cfg, aw; split; congruence|].
      split; congruence.
Qed.

Lemma quiet_run (mid : list Action) :
  forall (st st' : State) (kind : LeaderKind) (cfg : RequestConfig) (aw : Await),
    isRefreshing st = true ->
    leaders st = [mkLeader kind cfg aw] ->
    forallb quiet mid = true ->
    run B mid st = Some st' ->
    isRefreshing st' = true
    /\ (exists aw', leaders st' = [mkLeader kind cfg aw'])
    /\ (exists more, refreshQueue st' = refreshQueue st ++ more)
    /\ refreshCalls st' = refreshCalls st
    /\ refreshPosts st' = refreshPosts st.
Proof.
  induction mid as [|a mid IH]; intros st st' kind cfg aw Hf Hl Hq Hr; simpl in *.
  - injection Hr as <-. repeat split; eauto. exists []. now rewrite app_nil_r.
  - apply andb_true_iff in Hq as [Hqa Hq].
    destruct (step B a st) as [st1|] eqn:Es; [|discriminate].
    destruct (busy_step _ _ _ _ _ _ Hf Hl Hqa Es)
      as [Hf1 [[aw1 [Hl1 _]] [[m1 [Hq1 _]] [Hc1 Hp1]]]].
    destruct (IH _ _ _ _ _ Hf1 Hl1 Hq Hr) as [Hf2 [Hl2 [[m2 Hq2] [Hc2 Hp2]]]].
    repeat split; auto; try congruence.
    exists (m1 ++ m2). now rewrite Hq2, Hq1, app_assoc.
Qed.

Lemma resumed_observed (l : Leader) (r : RefreshFailure + string) (st : State) :
  sharedOutcome r ->
  leaderObserves B l r (resumed B l r st)
  /\ (forall w, In w (refreshQueue st) -> waiterObserves B w r (resumed B l r st))
  /\ (length (settled (resumed B l r st)) + length (wire (resumed B l r st))
      + length (pending (resumed B l r st))
      = length (settled st) + length (wire st) + length (pending st)
        + S (length (refreshQueue st)))%nat.
Proof.
  intro Hr.
  assert (Hlen : forall q, (length (reqConfigs q) + length (respConfigs q) = length q)%nat).
  { induction q as [|[c|o] q IH]; simpl; lia. }
  specialize (Hlen (refreshQueue st)).
  unfold leaderObserves, waiterObserves, resumed, rejections.
  destruct r as [f|t].
  - destruct (lkind l); simpl; (split; [|split]).
    + apply in_or_app. right. apply in_or_app. right.
      rewrite map_app. apply in_or_app. right. now left.
    + intros w Hw. pose proof (waiter_in_configs _ _ Hw) as Hin.
      apply in_or_app. right. destruct w as [c|o]; simpl.
      * apply in_or_app. right. rewrite map_app. apply in_or_app. left.
        now apply (in_map (fun c => (c, Rejected (errorOf B f)))).
      * apply in_or_app. left.
        now apply (in_map (fun c => (c, Rejected (errorOf B f)))).
    + rewrite !length_app, !length_map, length_app. simpl. lia.
    + apply in_or_app. right. apply in_or_app. right. now left.
    + intros w Hw. pose proof (waiter_in_configs _ _ Hw) as Hin.
      apply in_or_app. right. destruct w as [c|o]; simpl.
      * apply in_or_app. right. right.
        now apply (in_map (fun c => (c, Rejected (errorOf B f)))).
      * apply in_or_app. left.
        now apply (in_map (fun c => (c, Rejected (errorOf B f)))).
    + rewrite !length_app, !length_map. simpl. rewrite length_map. lia.
  - simpl in Hr. apply JSFacts.truthy_true_iff in Hr.
    unfold woken, attach. rewrite Hr.
    destruct (lkind l); simpl; (split; [|split]).
    + apply in_or_app. right. apply in_or_app. right. now left.
    + intros w Hw. pose proof (waiter_in_configs _ _ Hw) as Hin.
      destruct w as [c|o]; apply in_or_app.
      * right. apply in_or_app. left. now apply in_map.
      * right. now apply (in_map (fun o => reissued (setAuthorization t o))).
    + rewrite !length_app, !length_map. simpl. lia.
    + apply in_or_app. right. apply in_or_app. right. now left.
    + intros w Hw. pose proof (waiter_in_configs _ _ Hw) as Hin.
      destruct w as [c|o]; apply in_or_app.
      * right. now apply in_map.
      * right. apply in_or_app. left.
        now apply (in_map (fun o => reissued (setAuthorization t o))).
    + rewrite !length_app, !length_map. simpl. lia.
Qed.

Lemma resumed_counts (l : Leader) (r : RefreshFailure + string) (st : State) :
  refreshCalls (resumed B l r st) = refreshCalls st
  /\ refreshPosts (resumed B l r st) = refreshPosts st.
Proof.
  unfold refreshCalls, refreshPosts, resumed.
  destruct (lkind l); destruct r as [f|t]; simpl; try (split; reflexivity);
    rewrite !filter_app;
    destruct (resumeEvents_calls t (woken t (refreshQueue st))) as [-> ->];
    simpl; rewrite !app_nil_r; split; reflexivity.
Qed.

End Window.

(** C1, as the code has it.  In every reachable state at most one POST of
    [refreshAccessToken], the refresh of the interceptors, is outstanding;
    the POST that [refreshToken] of api/auth.ts sends for the session restore
    is outside the [isRefreshing] flag, so that the two together are at most
    one only while no session restore is waiting for its answer.  When,
    starting with no refresh under way, N >= 1 callers that each need a
    refresh arrive, among any other activity, before the interceptor
    performing it resumes, [refreshAccessToken] is invoked exactly once, its
    POST is sent once, or not at all when it fails for lack of a stored
    refresh token, and the other N - 1 callers are queued; if no session
    restore takes a step meanwhile, no other POST goes to the refresh
    endpoint.  Whatever the refresh ends with, the resuming interceptor
    empties the queue, releases the flag and starts no further refresh.
    When the refresh ends with an error or with a non-empty token, every one
    of the N callers gets that same outcome: all rejected with the same
    error, or all sent or re-issued with the same new token. *)
Theorem single_flight_refresh :
  forall (B : string) (s : Store) (pre : list Action) (st0 : State)
         (arrivals : list Action) (st1 : State) (N : nat),
    run B pre (init s) = Some st0 ->
    isRefreshing st0 = false ->
    window B arrivals st0 = Some (st1, N) ->
    (1 <= N)%nat ->
    (forall acts st, run B acts (init s) = Some st ->
       (inFlight st <= 1)%nat
       /\ (restoresInFlight st = 0%nat -> (refreshesInFlight st <= 1)%nat))
    /\ refreshCalls st1 = S (refreshCalls st0)
    /\ length (refreshQueue st1) = (N - 1)%nat
    /\ (noRestore arrivals = true -> restorePosts st1 = restorePosts st0)
    /\ exists l,
         leaders st1 = [l]
         /\ refreshPosts st1
            = (refreshPosts st0 + if posted (lawait l) then 1 else 0)%nat
         /\ forall r, lawait l = Settled r ->
              exists st2,
                step B (LeaderResume 0) st1 = Some st2
                /\ refreshCalls st2 = refreshCalls st1
                /\ refreshPosts st2 = refreshPosts st1
                /\ restorePosts st2 = restorePosts st1
                /\ isRefreshing st2 = false
                /\ leaders st2 = []
                /\ refreshQueue st2 = []
                /\ (sharedOutcome r ->
                    leaderObserves B l r st2
                    /\ (forall w, In w (refreshQueue st1) -> waiterObserves B w r st2)
                    /\ (length (settled st2) + length (wire st2) + length (pending st2)
                        = length (settled st1) + length (wire st1)
                          + length (pending st1) + N)%nat).
Proof.
  intros B s pre st0 arrivals st1 N Hpre Hidle Hwin HN.
  pose proof (run_singleFlight B pre _ _ (singleFlight_init s) Hpre) as Hsf.
  assert (Hq0 : leaders st0 = [] /\ refreshQueue st0 = []).
  { destruct Hsf as [[Hf _] | [_ H]]; [congruence | exact H]. }
  destruct Hq0 as [Hl0 Hq0].
  destruct (window_idle B _ _ _ _ Hidle Hl0 Hq0 Hwin HN)
    as [H1 [[kind [cfg [aw [H2 H2p]]]] [H3 H4]]].
  split; [|split; [|split; [|split]]].
  - intros acts st Hrun.
    assert (Hin : (inFlight st <= 1)%nat).
    { apply singleFlight_inFlight.
      exact (run_singleFlight B acts _ _ (singleFlight_init s) Hrun). }
    split; [exact Hin|]. unfold refreshesInFlight. lia.
  - exact H4.
  - exact H3.
  - intro Hno. exact (window_restorePosts B _ _ _ _ Hno Hwin).
  - exists (mkLeader kind cfg aw). split; [exact H2|]. split; [exact H2p|].
    intros r Hr. simpl in Hr. subst aw. set (l := mkLeader kind cfg (Settled r)) in *.
    exists (resumed B l r (set_leaders [] st1)).
    destruct (resumed_counts B l r (set_leaders [] st1)) as [C1 C2].
    assert (Hs2 : step B (LeaderResume 0) st1
                  = Some (resumed B l r (set_leaders [] st1))).
    { simpl. rewrite H2. simpl. now rewrite leaderResume_eq. }
    split; [exact Hs2|].
    split; [exact C1|]. split; [exact C2|].
    split; [exact (step_restorePosts B (LeaderResume 0) _ _ eq_refl Hs2)|].
    split; [unfold resumed; destruct (lkind l), r; reflexivity|].
    split; [unfold resumed; destruct (lkind l), r; reflexivity|].
    split; [unfold resumed; destruct (lkind l), r; reflexivity|].
    intro Hshared.
    destruct (resumed_observed B l r (set_leaders [] st1) Hshared) as [O1 [O2 O3]].
    split; [exact O1|]. split; [exact O2|].
    rewrite O3. simpl. rewrite H3. lia.
Qed.

Lemma single_flight_refresh_witness :
  exists st0 st1 st2,
    run "http://localhost:5003" two401_pre (init (empty true None)) = Some st0
    /\ window "http://localhost:5003" (two401_window (RefreshOk "tok1" 900)) st0
       = Some (st1, 2%nat)
    /\ refreshCalls st1 = 1%nat
    /\ refreshPosts st1 = 1%nat
    /\ restorePosts st1 = 0%nat
    /\ step "http://localhost:5003" (LeaderResume 0) st1 = Some st2
    /\ In (mkConfig (Some "/api/tickets/2") (Some "Bearer tok1") true 1) (pending st2)
    /\ In (mkConfig (Some "/api/tickets/1") (Some "Bearer tok1") true 1) (pending st2).
Proof.
  destruct two401_idle as [st0|] eqn:E0; [|discriminate E0].
  destruct two401_settled as [[st1 n]|] eqn:E1; [|discriminate E1].
  assert (Hrun : run "http://localhost:5003" two401_pre (init (empty true None)) = Some st0).
  { rewrite <- E0. vm_compute. reflexivity. }
  assert (Hwin : window "http://localhost:5003" (two401_window (RefreshOk "tok1" 900)) st0
                 = Some (st1, 2%nat)).
  { injection E0 as <-. injection E1 as <- <-. vm_compute. reflexivity. }
  pose (l := mkLeader RespLeader
                      (mkConfig (Some "/api/tickets/1") (Some "Bearer tok0") true 0)
                      (Settled (inr "tok1"))).
  assert (Hl : leaders st1 = [l]) by (injection E1 as <- <-; reflexivity).
  assert (Hq : refreshQueue st1
               = [RespWaiter (mkConfig (Some "/api/tickets/2") (Some "Bearer tok0") true 0)])
    by (injection E1 as <- <-; reflexivity).
  assert (Hidle : isRefreshing st0 = false) by (injection E0 as <-; reflexivity).
  assert (Hc0 : refreshCalls st0 = 0%nat) by (injection E0 as <-; reflexivity).
  assert (Hp0 : refreshPosts st0 = 0%nat) by (injection E0 as <-; reflexivity).
  assert (Hr0 : restorePosts st0 = 0%nat) by (injection E0 as <-; reflexivity).
  destruct (single_flight_refresh "http://localhost:5003" (empty true None) two401_pre st0
              (two401_window (RefreshOk "tok1" 900)) st1 2
              Hrun Hidle Hwin (le_S _ _ (le_n 1)))
    as [_ [Hc [_ [Hno [l' [Hl' [Hp Hres]]]]]]].
  rewrite Hl in Hl'. injection Hl' as <-.
  destruct (Hres (inr "tok1"%string) eq_refl)
    as [st2 [Hs [_ [_ [_ [_ [_ [_ Hobs]]]]]]]].
  destruct Hobs as [Ol [Ow _]]; [simpl; discriminate|].
  exists st0, st1, st2.
  split; [exact Hrun|]. split; [exact Hwin|].
  split; [now rewrite Hc, Hc0|]. split; [now rewrite Hp, Hp0|].
  split; [now rewrite (Hno eq_refl), Hr0|]. split; [exact Hs|].
  split.
  - apply (Ow (RespWaiter (mkConfig (Some "/api/tickets/2") (Some "Bearer tok0") true 0))).
    rewrite Hq. now left.
  - exact Ol.
Defined.

(** Three inputs at which the claim as stated fails.

    First, the two callers above when the refresh answers with an empty
    token: [processQueue] neither resolves nor rejects the queued caller and
    drops it with the queue.  Afterwards its request is nowhere (not queued,
    not re-issued, not sent, not settled) while the first caller goes on, so
    the two do not observe the same outcome.

    Second, one caller that needs a refresh when no refresh token is stored:
    [refreshAccessToken] is invoked and throws before sending anything, so
    no refresh network call is issued at all.

    Third, a page reload with a persisted session: while the POST of the
    session restore is outstanding, a request that left without a token is
    answered 401 and its interceptor, finding [isRefreshing] unset, sends a
    refresh POST of its own.  Two refresh calls with the same refresh token
    are then in flight together. *)
Lemma single_flight_counterexample :
  (exists st0 st1 st2,
      run "http://localhost:5003" two401_pre (init (empty true None)) = Some st0
      /\ isRefreshing st0 = false
      /\ window "http://localhost:5003" (two401_window (RefreshOk "" 900)) st0
         = Some (st1, 2%nat)
      /\ refreshQueue st1
         = [RespWaiter (mkConfig (Some "/api/tickets/2") (Some "Bearer tok0") true 0)]
      /\ leaders st1
         = [mkLeader RespLeader (mkConfig (Some "/api/tickets/1") (Some "Bearer tok0") true 0)
                     (Settled (inr ""))]
      /\ step "http://localhost:5003" (LeaderResume 0) st1 = Some st2
      /\ refreshQueue st2 = []
      /\ settled st2 = []
      /\ wire st2 = []
      /\ pending st2 = [mkConfig (Some "/api/tickets/1") (Some "Bearer ") true 1])
  /\ (exists st0 st1,
        run "http://localhost:5003" one401_pre (init (empty false None)) = Some st0
        /\ isRefreshing st0 = false
        /\ getRefreshToken (store st0) = None
        /\ window "http://localhost:5003" [Reply 0 (Some 401%Z)] st0 = Some (st1, 1%nat)
        /\ refreshCalls st1 = 1%nat
        /\ refreshPosts st1 = 0%nat
        /\ inFlight st1 = 0%nat)
  /\ (exists st,
        run "http://localhost:5003" restoreOverlap (init reloadedStore) = Some st
        /\ trace st
           = [ EvRestorePost "rt0";
               EvDispatch (mkConfig (Some "/api/categories/") None false 0);
               EvRefreshCall;
               EvRefreshPost "rt0" ]
        /\ restores st = [RestoreNet]
        /\ leaders st
           = [mkLeader RespLeader (mkConfig (Some "/api/categories/") None true 0) AwaitNet]
        /\ restoresInFlight st = 1%nat
        /\ inFlight st = 1%nat
        /\ refreshesInFlight st = 2%nat).
Proof.
  split; [|split].
  - do 3 eexists.
    split; [vm_compute; reflexivity|].
    split; [reflexivity|].
    split; [vm_compute; reflexivity|].
    split; [reflexivity|]. split; [reflexivity|].
    split; [vm_compute; reflexivity|].
    repeat split.
  - do 2 eexists.
    split; [vm_compute; reflexivity|].
    split; [reflexivity|]. split; [reflexivity|].
    split; [vm_compute; reflexivity|].
    repeat split.
  - eexists. split; [vm_compute; reflexivity|]. repeat split.
Qed.

(** *** Proactive refresh *)

Section Proactive.

Variable B : string.

(** When the refresh gave a non-empty token, the resuming interceptor sends
    the request of every [ReqWaiter], and its own if it is a request
    interceptor, with that token. *)
Lemma resumed_sends (l : Leader) (tok : string) (st : State) (c : RequestConfig) :
  tok <> "" ->
  In (ReqWaiter c) (refreshQueue st) \/ (lkind l = ReqLeader /\ lcfg l = c) ->
  exists sent evs,
    wire (resumed B l (inr tok) st) = wire st ++ sent
    /\ In (setAuthorization tok c) sent
    /\ trace (resumed B l (inr tok) st) = trace st ++ evs
    /\ In (EvDispatch (setAuthorization tok c)) evs.
Proof.
  intros Ht Hc. apply JSFacts.truthy_true_iff in Ht.
  unfold resumed, woken, attach. rewrite Ht.
  destruct Hc as [Hin | [Hk <-]].
  - pose proof (waiter_in_configs _ _ Hin) as Hin'. simpl in Hin'.
    assert (He : In (EvDispatch (setAuthorization tok c))
                    (map (resumeEvent tok) (refreshQueue st)))
      by (apply (in_map (resumeEvent tok)) in Hin; exact Hin).
    destruct (lkind l); simpl; do 2 eexists;
      (split; [reflexivity|]); (split; [|split; [reflexivity|]]);
      try (apply in_or_app; left); auto; now apply in_map.
  - rewrite Hk. simpl. do 2 eexists.
    split; [reflexivity|]. split; [apply in_or_app; right; now left|].
    split; [reflexivity|]. apply in_or_app. right. now left.
Qed.

End Proactive.

(** When the refresh failed, the resuming interceptor rejects every
    [ReqWaiter], and its own caller if it is a request interceptor, with the
    error of the refresh, and sends nothing. *)
Lemma resumed_rejects (B : string) (l : Leader) (f : RefreshFailure) (st : State)
      (c : RequestConfig) :
  In (ReqWaiter c) (refreshQueue st) \/ (lkind l = ReqLeader /\ lcfg l = c) ->
  wire (resumed B l (inl f) st) = wire st
  /\ trace (resumed B l (inl f) st) = trace st
  /\ In (c, Rejected (errorOf B f)) (settled (resumed B l (inl f) st)).
Proof.
  intro Hc.
  destruct (resumed_observed B l (inl f) st I) as [O1 [O2 _]].
  split; [unfold resumed; now destruct (lkind l)|].
  split; [unfold resumed; now destruct (lkind l)|].
  destruct Hc as [Hin | [Hk <-]].
  - exact (O2 _ Hin).
  - unfold leaderObserves in O1. now rewrite Hk in O1.
Qed.

(** C6, as the code has it.  Take any reachable state, a request that is not
    a login or refresh request, a stored non-empty access token, and a time
    [now] with [now >= expiry - 60 s].  When the request interceptor runs,
    the request is not sent and no token is attached yet: either no refresh
    was under way, and the interceptor starts one (one more call of
    [refreshAccessToken], whose POST is sent if a refresh token is stored and
    not otherwise), or one was, and the interceptor queues behind it without
    another call.  Whatever happens in between, when the interceptor in
    charge of the refresh resumes no other refresh call was made on the way,
    and: with a new non-empty token the request is sent with [Bearer] and
    that new token; with an error of the refresh the request is rejected
    with that error and not sent. *)
Theorem proactive_refresh_before_attach :
  forall (B : string) (s : Store) (pre : list Action) (st : State)
         (k : nat) (cfg : RequestConfig) (t : string) (e now : Z),
    run B pre (init s) = Some st ->
    nth_error (pending st) k = Some cfg ->
    reqIsAuthEndpoint cfg = false ->
    accessToken (store st) = Some t ->
    t <> "" ->
    tokenExpiresAt (store st) = Some e ->
    (now >= e - 60 * 1000)%Z ->
    isTokenExpiringSoon 60 now (store st) = true
    /\ exists st1,
         step B (RunRequest k now) st = Some st1
         /\ wire st1 = wire st
         /\ isRefreshing st1 = true
         /\ ((isRefreshing st = false
              /\ leaders st1 = [mkLeader ReqLeader cfg (startAwait (store st))]
              /\ refreshCalls st1 = S (refreshCalls st)
              /\ refreshPosts st1
                 = (refreshPosts st
                    + if JS.truthyO (getRefreshToken (store st)) then 1 else 0)%nat)
             \/ (isRefreshing st = true
                 /\ leaders st1 = leaders st
                 /\ length (leaders st) = 1%nat
                 /\ refreshQueue st1 = refreshQueue st ++ [ReqWaiter cfg]
                 /\ refreshCalls st1 = refreshCalls st
                 /\ refreshPosts st1 = refreshPosts st))
         /\ forall (mid : list Action) (st2 : State) (l : Leader)
                   (r : RefreshFailure + string),
              forallb quiet mid = true ->
              run B mid st1 = Some st2 ->
              leaders st2 = [l] ->
              lawait l = Settled r ->
              exists st3,
                step B (LeaderResume 0) st2 = Some st3
                /\ refreshCalls st3 = refreshCalls st1
                /\ refreshPosts st3 = refreshPosts st1
                /\ match r with
                   | inr tok =>
                       tok <> "" ->
                       exists sent evs,
                         wire st3 = wire st2 ++ sent
                         /\ In (setAuthorization tok cfg) sent
                         /\ trace st3 = trace st2 ++ evs
                         /\ In (EvDispatch (setAuthorization tok cfg)) evs
                         /\ Authorization (setAuthorization tok cfg) = Some (bearer tok)
                   | inl f =>
                       wire st3 = wire st2
                       /\ trace st3 = trace st2
                       /\ In (cfg, Rejected (errorOf B f)) (settled st3)
                   end.
Proof.
  intros B s pre st k cfg t e now Hpre Hk Hauth Htok Ht He Hnow.
  pose proof (run_singleFlight B pre _ _ (singleFlight_init s) Hpre) as Hsf.
  assert (Hexp : isTokenExpiringSoon 60 now (store st) = true).
  { unfold isTokenExpiringSoon. rewrite He. destruct (e =? 0)%Z; [reflexivity|].
    apply Z.geb_le. lia. }
  split; [exact Hexp|].
  destruct (nth_error_pick _ _ _ Hk) as [rest Hp].
  assert (Htruthy : JS.truthyO (getAccessToken (store st)) = true).
  { unfold getAccessToken. rewrite Htok. simpl. now apply JSFacts.truthy_true_iff. }
  assert (Hstep : step B (RunRequest k now) st
                  = Some (if negb (isRefreshing st)
                          then startRefresh ReqLeader cfg (set_pending rest st)
                          else set_refreshQueue
                                 (refreshQueue st ++ [ReqWaiter cfg]) (set_pending rest st))).
  { simpl. rewrite Hp. unfold requestInterceptor. rewrite Hauth.
    cbn [store set_pending isRefreshing refreshQueue]. now rewrite Htruthy, Hexp. }
  eexists. split; [exact Hstep|].
  (* what the resumption does for this caller, given where it waits *)
  assert (Hlater :
    forall st1 : State,
      isRefreshing st1 = true ->
      (exists kind c aw, leaders st1 = [mkLeader kind c aw]
                         /\ (In (ReqWaiter cfg) (refreshQueue st1)
                             \/ (kind = ReqLeader /\ c = cfg))) ->
      forall (mid : list Action) (st2 : State) (l : Leader) (r : RefreshFailure + string),
        forallb quiet mid = true ->
        run B mid st1 = Some st2 ->
        leaders st2 = [l] ->
        lawait l = Settled r ->
        exists st3,
          step B (LeaderResume 0) st2 = Some st3
          /\ refreshCalls st3 = refreshCalls st1
          /\ refreshPosts st3 = refreshPosts st1
          /\ match r with
             | inr tok =>
                 tok <> "" ->
                 exists sent evs,
                   wire st3 = wire st2 ++ sent
                   /\ In (setAuthorization tok cfg) sent
                   /\ trace st3 = trace st2 ++ evs
                   /\ In (EvDispatch (setAuthorization tok cfg)) evs
                   /\ Authorization (setAuthorization tok cfg) = Some (bearer tok)
             | inl f =>
                 wire st3 = wire st2
                 /\ trace st3 = trace st2
                 /\ In (cfg, Rejected (errorOf B f)) (settled st3)
             end).
  { intros st1 Hf1 [kind [c [aw [Hl1 Hwhere]]]] mid st2 l r Hq Hmid Hl2 Haw.
    destruct (quiet_run B mid _ _ _ _ _ Hf1 Hl1 Hq Hmid)
      as [Hf2 [[aw2 Hl2'] [[more Hq2] [Hc2 Hp2]]]].
    rewrite Hl2 in Hl2'. injection Hl2' as ->.
    assert (Hwhere' : In (ReqWaiter cfg) (refreshQueue (set_leaders [] st2))
                      \/ (lkind (mkLeader kind c aw2) = ReqLeader
                          /\ lcfg (mkLeader kind c aw2) = cfg)).
    { destruct Hwhere as [Hin | [-> ->]]; [left | right; now split].
      simpl. rewrite Hq2. apply in_or_app. now left. }
    destruct (resumed_counts B (mkLeader kind c aw2) r (set_leaders [] st2))
      as [C1 C2].
    exists (resumed B (mkLeader kind c aw2) r (set_leaders [] st2)).
    split.
    { simpl. rewrite Hl2. simpl. simpl in Haw. rewrite Haw.
      now rewrite leaderResume_eq. }
    split; [rewrite C1; exact Hc2|]. split; [rewrite C2; exact Hp2|].
    destruct r as [f | tok].
    - exact (resumed_rejects B _ f _ cfg Hwhere').
    - intro Hne.
      destruct (resumed_sends B (mkLeader kind c aw2) tok (set_leaders [] st2) cfg Hne Hwhere')
        as [sent [evs [Hw [Hin [Htr Hev]]]]].
      exists sent, evs. repeat split; auto. }
  destruct Hsf as [[Hf [l0 Hl0]] | [Hf [Hl0 Hq0]]]; rewrite Hf; cbn [negb].
  - (* a refresh is under way: queue behind it *)
    split; [reflexivity|]. split; [exact Hf|].
    split.
    + right. simpl. rewrite Hl0. repeat split.
    + apply Hlater; [exact Hf|].
      destruct l0 as [kind0 c0 aw0]. exists kind0, c0, aw0.
      split; [exact Hl0|]. left. simpl. apply in_or_app. right. now left.
  - (* none is: start one *)
    rewrite startRefresh_eq. cbn [store set_pending leaders trace pending wire].
    split; [reflexivity|]. split; [reflexivity|].
    split.
    + left. rewrite Hl0. split; [reflexivity|]. split; [reflexivity|].
      unfold refreshCalls, refreshPosts. cbn [trace]. rewrite !filter_app, !length_app.
      rewrite startEvents_calls, startEvents_posts. split; [lia | reflexivity].
    + apply Hlater; [reflexivity|].
      exists ReqLeader, cfg, (startAwait (store st)). simpl. rewrite Hl0.
      split; [reflexivity|]. right. now split.
Qed.

Lemma proactive_refresh_before_attach_witness :
  exists st st1 st3,
    run "http://localhost:5003" expiring_pre (init (empty true None)) = Some st
    /\ isTokenExpiringSoon 60 870000 (store st) = true
    /\ step "http://localhost:5003" (RunRequest 0 870000) st = Some st1
    /\ wire st1 = []
    /\ refreshCalls st1 = 1%nat
    /\ run "http://localhost:5003"
           [RefreshReply 0 (RefreshOk "tok1" 900) 871000; LeaderResume 0] st1 = Some st3
    /\ In (mkConfig (Some "/api/tickets/") (Some "Bearer tok1") false 0) (wire st3)
    /\ refreshCalls st3 = 1%nat.
Proof.
  destruct expiring_state as [st|] eqn:E; [|discriminate E].
  assert (Hrun : run "http://localhost:5003" expiring_pre (init (empty true None)) = Some st).
  { rewrite <- E. vm_compute. reflexivity. }
  assert (Hst : Some st = expiring_state) by (now rewrite E).
  destruct (proactive_refresh_before_attach "http://localhost:5003" (empty true None)
              expiring_pre st 0 (mkConfig (Some "/api/tickets/") None false 0)
              "tok0" 900000 870000 Hrun)
    as [Hexp [st1 [Hs [Hw [_ [Hcase Hlater]]]]]];
    try (injection Hst as ->; reflexivity); try discriminate.
  assert (Hidle : isRefreshing st = false) by (injection Hst as ->; reflexivity).
  assert (Hcalls : refreshCalls st = 0%nat) by (injection Hst as ->; reflexivity).
  assert (Hwire : wire st = []) by (injection Hst as ->; reflexivity).
  destruct Hcase as [[_ [Hl1 [Hc1 _]]] | [Hbusy _]]; [|congruence].
  assert (Hmid : exists st2,
             run "http://localhost:5003" [RefreshReply 0 (RefreshOk "tok1" 900) 871000] st1
             = Some st2
             /\ leaders st2 = [mkLeader ReqLeader (mkConfig (Some "/api/tickets/") None false 0)
                                        (Settled (inr "tok1"))]).
  { simpl. rewrite Hl1. simpl.
    replace (startAwait (store st)) with AwaitNet
      by (injection Hst as ->; reflexivity).
    eexists. split; reflexivity. }
  destruct Hmid as [st2 [Hr2 Hl2]].
  destruct (Hlater [RefreshReply 0 (RefreshOk "tok1" 900) 871000] st2 _ (inr "tok1"%string)
                   eq_refl Hr2 Hl2 eq_refl)
    as [st3 [Hs3 [Hc3 [_ Hsent]]]].
  destruct Hsent as [sent [evs [Hw3 [Hin _]]]]; [discriminate|].
  exists st, st1, st3.
  split; [exact Hrun|]. split; [exact Hexp|]. split; [exact Hs|].
  split; [now rewrite Hw, Hwire|]. split; [now rewrite Hc1, Hcalls|].
  split.
  - change [RefreshReply 0 (RefreshOk "tok1" 900) 871000; LeaderResume 0]
      with ([RefreshReply 0 (RefreshOk "tok1" 900) 871000] ++ [LeaderResume 0]).
    rewrite run_app, Hr2. cbn [run]. now rewrite Hs3.
  - split; [rewrite Hw3; apply in_or_app; now right | now rewrite Hc3, Hc1, Hcalls].
Defined.

(** Two inputs at which the claim as stated fails.

    First, a request made while the token is expiring in a session that
    holds no refresh token: [refreshAccessToken] is invoked and throws before
    sending anything, so no refresh call reaches the server, and the request
    is rejected with that error: it is never sent, with or without a token.

    Second, two such requests when the refresh answers with an empty token:
    the first is sent with no [Authorization] header at all, the second
    waits in the queue, which [processQueue] drops without resolving it, and
    is never sent. *)
Lemma proactive_refresh_counterexample :
  (exists st,
      run "http://localhost:5003" expiring_noRefreshToken (init (empty false None)) = Some st
      /\ refreshCalls st = 1%nat
      /\ refreshPosts st = 0%nat
      /\ trace st = [EvRefreshCall]
      /\ wire st = []
      /\ pending st = []
      /\ settled st
         = [(mkConfig (Some "/api/tickets/") None false 0,
             Rejected (PlainError "No refresh token available"))])
  /\ (exists st,
        run "http://localhost:5003" expiring_emptyToken (init (empty true None)) = Some st
        /\ refreshCalls st = 1%nat
        /\ refreshPosts st = 1%nat
        /\ accessToken (store st) = Some ""
        /\ wire st = [mkConfig (Some "/api/tickets/1") None false 0]
        /\ pending st = []
        /\ settled st = []
        /\ refreshQueue st = []
        /\ leaders st = []).
Proof.
  split; eexists; (split; [vm_compute; reflexivity|]); repeat split.
Qed.

End ClientFacts.

(* ================================================================= *)
(** ** Routes, guards and the sidebar *)

Module RoutingFacts.

Import Roles Routing RolesFacts.
Local Open Scope Z_scope.

Lemma jsGe_name (name : string) (m : Z) :
  jsGe (RoleNameToId name) m = true ->
  exists r, RoleIdToName r = Some name /\ m <= r.
Proof.
  unfold RoleNameToId.
  destruct (name =? "USER")%string eqn:E1.
  { apply String.eqb_eq in E1. subst. simpl. intro H. apply Z.geb_le in H.
    exists USER. now split. }
  destruct (name =? "EMPLOYEE")%string eqn:E2.
  { apply String.eqb_eq in E2. subst. simpl. intro H. apply Z.geb_le in H.
    exists EMPLOYEE. now split. }
  destruct (name =? "MANAGER")%string eqn:E3.
  { apply String.eqb_eq in E3. subst. simpl. intro H. apply Z.geb_le in H.
    exists MANAGER. now split. }
  destruct (name =? "ADMIN")%string eqn:E4.
  { apply String.eqb_eq in E4. subst. simpl. intro H. apply Z.geb_le in H.
    exists ADMIN. now split. }
  match goal with |- jsGe (if ?x then _ else _) _ = _ -> _ => destruct x end;
    discriminate.
Qed.

Lemma RoleIdToName_range (r : Z) (name : string) :
  RoleIdToName r = Some name -> 1 <= r <= 4.
Proof.
  unfold RoleIdToName.
  destruct (r =? USER) eqn:E1; [apply Z.eqb_eq in E1; unfold USER in E1; lia|].
  destruct (r =? EMPLOYEE) eqn:E2; [apply Z.eqb_eq in E2; unfold EMPLOYEE in E2; lia|].
  destruct (r =? MANAGER) eqn:E3; [apply Z.eqb_eq in E3; unfold MANAGER in E3; lia|].
  destruct (r =? ADMIN) eqn:E4; [apply Z.eqb_eq in E4; unfold ADMIN in E4; lia|].
  discriminate.
Qed.

Lemma hasAnyRole_exists (rs : list string) (ids : list Z) :
  hasAnyRole rs ids = true <-> exists r, In r ids /\ hasRole rs r = true.
Proof.
  unfold hasAnyRole. rewrite existsb_exists. reflexivity.
Qed.

(** Holding one of the roles from [m] up to ADMIN is reaching level [m]. *)
Lemma hasMinRole_hasAnyRole (rs : list string) (m : Z) (ids : list Z) :
  (forall r, In r ids <-> m <= r <= 4) ->
  hasAnyRole rs ids = hasMinRole rs m.
Proof.
  intro Hids. apply eq_true_iff_eq.
  rewrite hasAnyRole_exists, hasMinRole_exists. split.
  - intros [r [Hin Hr]]. apply hasRole_exists in Hr as [name [E Hname]].
    exists name. split; [exact Hname|].
    destruct (RoleIdToName_Some _ _ E) as [-> _]. simpl.
    apply Z.geb_le. now apply Hids.
  - intros [name [Hin Hge]]. apply jsGe_name in Hge as [r [E Hr]].
    exists r. split.
    + apply Hids. pose proof (RoleIdToName_range _ _ E). lia.
    + apply hasRole_exists. now exists name.
Qed.

Lemma employee_guard (rs : list string) :
  hasAnyRole rs EMPLOYEE_ROLES = isAtLeastEmployee rs.
Proof.
  apply hasMinRole_hasAnyRole. intro r.
  unfold EMPLOYEE_ROLES, EMPLOYEE, MANAGER, ADMIN. simpl. lia.
Qed.

Lemma manager_guard (rs : list string) :
  hasAnyRole rs MANAGER_ROLES = isAtLeastManager rs.
Proof.
  apply hasMinRole_hasAnyRole. intro r.
  unfold MANAGER_ROLES, MANAGER, ADMIN. simpl. lia.
Qed.

(** X1. The role lists the router guards its routes with select the same
    users as the flags of [useAuth]: holding one of EMPLOYEE, MANAGER, ADMIN
    is being at least an employee, holding one of MANAGER, ADMIN is being at
    least a manager, and the admin flag is the level-4 check.  This holds for
    every list of role names, unknown and inherited names included. *)
Theorem route_guards_agree_with_role_flags :
  forall rs : list string,
    hasAnyRole rs EMPLOYEE_ROLES = isAtLeastEmployee rs
    /\ hasAnyRole rs MANAGER_ROLES = isAtLeastManager rs
    /\ isAdmin rs = hasMinRole rs ADMIN.
Proof.
  intro rs. split; [apply employee_guard|]. split; [apply manager_guard|].
  unfold isAdmin.
  rewrite <- (hasMinRole_hasAnyRole rs ADMIN [ADMIN]).
  - unfold hasAnyRole. simpl. now rewrite orb_false_r.
  - intro r. unfold ADMIN. simpl. lia.
Qed.

Lemma protected_page (ctx : AuthContextValue) (u : User)
      (requiredRoles : option (list Z)) (page : string) :
  isLoading ctx = false ->
  user ctx = Some u ->
  match requiredRoles with
  | Some required => (0 <? length required)%nat = true -> hasAnyRole (roles u) required = true
  | None => True
  end ->
  render ctx (Protected requiredRoles page) = Page page.
Proof.
  intros Hl Hu Hr. unfold render, ProtectedRoute, isAuthenticated, rolesOf.
  rewrite Hl, Hu. simpl.
  destruct requiredRoles as [required|]; [|reflexivity].
  destruct (0 <? length required)%nat; [|reflexivity].
  now rewrite Hr.
Qed.

(** X2. Once the session is loaded, every link the sidebar shows leads to a
    route whose guard lets this user in, so that the page is rendered; the
    one exception is the Settings link shown to admins, which matches no
    declared route and lands on the not-found element. *)
Theorem sidebar_links_lead_to_pages :
  forall (ctx : AuthContextValue) (links : list string),
    isLoading ctx = false ->
    Sidebar ctx = Some links ->
    (forall link, In link links -> link <> "/admin/settings"%string ->
       exists page, render ctx (routeOf routes link) = Page page)
    /\ (In "/admin/settings"%string links <-> isAdminUser ctx = true)
    /\ render ctx (routeOf routes "/admin/settings") = NotFound.
Proof.
  intros ctx links Hl Hs. unfold Sidebar, isAuthenticated in Hs.
  destruct (user ctx) as [u|] eqn:Hu; [|discriminate].
  simpl in Hs. injection Hs as <-.
  assert (He : isEmployee ctx = isAtLeastEmployee (roles u))
    by (unfold isEmployee, rolesOf; now rewrite Hu).
  assert (Hm : isManager ctx = isAtLeastManager (roles u))
    by (unfold isManager, rolesOf; now rewrite Hu).
  split; [|split].
  - intros link Hin Hne.
    destruct Hin as [<- | [<- | Hin]].
    { eexists. apply (protected_page ctx u None _ Hl Hu I). }
    { eexists. apply (protected_page ctx u None _ Hl Hu I). }
    apply in_app_or in Hin as [Hin | Hin].
    { destruct (isEmployee ctx) eqn:E; [|contradiction].
      assert (Hg : hasAnyRole (roles u) EMPLOYEE_ROLES = true)
        by (rewrite employee_guard, <- He; reflexivity).
      destruct Hin as [<- | [<- | [<- | [<- | []]]]]; eexists;
        apply (protected_page ctx u (Some EMPLOYEE_ROLES) _ Hl Hu); intros _; exact Hg. }
    apply in_app_or in Hin as [Hin | Hin].
    { destruct (isManager ctx) eqn:E; [|contradiction].
      assert (Hg : hasAnyRole (roles u) MANAGER_ROLES = true)
        by (rewrite manager_guard, <- Hm; reflexivity).
      destruct Hin as [<- | [<- | []]]; eexists;
        apply (protected_page ctx u (Some MANAGER_ROLES) _ Hl Hu); intros _; exact Hg. }
    destruct (isAdminUser ctx); [|contradiction].
    destruct Hin as [<- | []]. now elim Hne.
  - split.
    + intros [H | [H | Hin]]; try discriminate.
      apply in_app_or in Hin as [Hin | Hin].
      { destruct (isEmployee ctx); [|contradiction].
        destruct Hin as [H | [H | [H | [H | []]]]]; discriminate. }
      apply in_app_or in Hin as [Hin | Hin].
      { destruct (isManager ctx); [|contradiction].
        destruct Hin as [H | [H | []]]; discriminate. }
      now destruct (isAdminUser ctx).
    + intros ->. right. right. apply in_or_app. right. apply in_or_app. right. now left.
  - reflexivity.
Qed.

(** A manager who is not an admin: six work links on top of the two common
    ones, each leading to its page. *)
Lemma sidebar_links_lead_to_pages_witness :
  let ctx := mkContext (Some (mkUser ["MANAGER"%string])) false in
  Sidebar ctx
  = Some ["/dashboard"; "/tickets"; "/employee/queue"; "/employee/tickets";
          "/employee/emails"; "/employee/performance"; "/manager/team";
          "/manager/analytics"]%string
  /\ render ctx (routeOf routes "/manager/team") = Page "TeamPage".
Proof.
  intro ctx. split; [reflexivity|].
  destruct (sidebar_links_lead_to_pages ctx _ eq_refl eq_refl) as [H _].
  destruct (H "/manager/team"%string) as [page Hp].
  - simpl. tauto.
  - discriminate.
  - reflexivity.
Defined.

(** X3. A redirect issued by a route guard lands on a route that renders its
    page in the same session: an anonymous visitor is sent to the login page,
    which is not guarded, and a user lacking the required role is sent to
    the ticket list, which any authenticated user may see. *)
Theorem guard_redirects_land_on_a_page :
  forall (ctx : AuthContextValue) (path : string)
         (requiredRoles : option (list Z)) (page target : string),
    isLoading ctx = false ->
    In (path, Protected requiredRoles page) routes ->
    render ctx (Protected requiredRoles page) = Navigate target ->
    (isAuthenticated ctx = false /\ target = "/login"%string
     /\ render ctx (routeOf routes target) = Page "LoginPage")
    \/ (isAuthenticated ctx = true /\ target = "/tickets"%string
        /\ (exists required, requiredRoles = Some required
                             /\ hasAnyRole (rolesOf ctx) required = false)
        /\ render ctx (routeOf routes target) = Page "TicketListPage").
Proof.
  intros ctx path requiredRoles page target Hl _ Hr.
  unfold render, ProtectedRoute in Hr. rewrite Hl in Hr.
  destruct (isAuthenticated ctx) eqn:Ha; simpl in Hr.
  - right. split; [reflexivity|].
    destruct requiredRoles as [required|]; [|discriminate].
    destruct (0 <? length required)%nat; [|discriminate].
    destruct (hasAnyRole (rolesOf ctx) required) eqn:Hh; simpl in Hr; [discriminate|].
    injection Hr as <-. split; [reflexivity|]. split; [now exists required|].
    unfold isAuthenticated in Ha. destruct (user ctx) as [u|] eqn:Hu; [|discriminate].
    apply (protected_page ctx u None _ Hl Hu I).
  - left. injection Hr as <-. repeat split.
Qed.

(** A plain user asking for the team page is sent to the ticket list. *)
Lemma guard_redirects_land_on_a_page_witness :
  let ctx := mkContext (Some (mkUser ["USER"%string])) false in
  render ctx (Protected (Some MANAGER_ROLES) "TeamPage") = Navigate "/tickets"
  /\ render ctx (routeOf routes "/tickets") = Page "TicketListPage".
Proof.
  intro ctx. split; [reflexivity|].
  destruct (guard_redirects_land_on_a_page ctx "/manager/team" (Some MANAGER_ROLES)
              "TeamPage" "/tickets" eq_refl) as [[H _] | [_ [_ [_ H]]]].
  - simpl. tauto.
  - reflexivity.
  - discriminate H.
  - exact H.
Defined.

End RoutingFacts.

(* ================================================================= *)
(** ** The highest role held *)

Module MaxRoleFacts.

Import Roles RolesFacts.
Local Open Scope Z_scope.

(** What the lookup of a role name can give. *)
Lemma RoleNameToId_cases (name : string) :
  (exists n, 1 <= n <= 4 /\ RoleNameToId name = JNum n /\ recognizedName name = true)
  \/ (RoleNameToId name = JObject /\ recognizedName name = false)
  \/ (RoleNameToId name = JUndefined /\ recognizedName name = false).
Proof.
  unfold RoleNameToId, recognizedName, JS.arrayIncludes. cbn [existsb].
  destruct (name =? "USER")%string;
    [left; exists USER; unfold USER; repeat split; lia|].
  destruct (name =? "EMPLOYEE")%string;
    [left; exists EMPLOYEE; unfold EMPLOYEE; repeat split; lia|].
  destruct (name =? "MANAGER")%string;
    [left; exists MANAGER; unfold MANAGER; repeat split; lia|].
  destruct (name =? "ADMIN")%string;
    [left; exists ADMIN; unfold ADMIN; repeat split; lia|].
  simpl.
  match goal with |- context [if ?x then _ else _] => destruct x end; auto.
Qed.

Lemma fold_max_NaN (ids : list jsval) :
  fold_left (fun acc v => maxNum acc (toNumber v)) ids NaN = NaN.
Proof. induction ids as [|v ids IH]; simpl; [reflexivity | exact IH]. Qed.

Lemma fold_max_object (ids : list jsval) (acc : jsnum) :
  (exists v, In v ids /\ toNumber v = NaN) ->
  fold_left (fun acc v => maxNum acc (toNumber v)) ids acc = NaN.
Proof.
  revert acc. induction ids as [|v ids IH]; intros acc [w [Hin Hw]]; [contradiction|].
  simpl. destruct Hin as [-> | Hin].
  - rewrite Hw. destruct acc; simpl; apply fold_max_NaN.
  - apply IH. now exists w.
Qed.

(** Over numbers the fold is the greatest of them. *)
Lemma fold_max_numbers (ids : list jsval) (a : Z) :
  (forall v, In v ids -> exists n, v = JNum n) ->
  exists k,
    fold_left (fun acc v => maxNum acc (toNumber v)) ids (Num a) = Num k
    /\ a <= k
    /\ (forall n, In (JNum n) ids -> n <= k)
    /\ (k = a \/ In (JNum k) ids).
Proof.
  revert a. induction ids as [|v ids IH]; intros a Hnum; simpl.
  - exists a. repeat split; [lia | contradiction | now left].
  - destruct (Hnum v (or_introl eq_refl)) as [n ->]. simpl.
    destruct (IH (Z.max a n)) as [k [E [Hle [Hall Hin]]]].
    { intros w Hw. apply Hnum. now right. }
    exists k. split; [exact E|]. split; [lia|]. split.
    + intros m [[= ->] | Hm]; [lia | now apply Hall].
    + destruct Hin as [-> | Hin]; [|now right; right].
      destruct (Z.max_spec a n) as [[_ ->] | [_ ->]]; [right; now left | now left].
Qed.

Lemma userRoleIds_In (rs : list string) (v : jsval) :
  In v (filter isDefined (map RoleNameToId rs)) <->
  exists name, In name rs /\ RoleNameToId name = v /\ v <> JUndefined.
Proof.
  rewrite filter_In, in_map_iff. split.
  - intros [[name [E Hin]] Hd]. exists name. repeat split; auto.
    intros ->. discriminate.
  - intros [name [Hin [E Hv]]]. split; [now exists name|].
    destruct v; [now elim Hv | reflexivity | reflexivity].
Qed.

(** X4. [getMaxRoleId] is [NaN] exactly when the list holds a name that
    [Object.prototype] defines (such a name passes the [!== undefined]
    filter and reaches [Math.max]).  When it is a number [k], that number is
    0 for a user with none of the four roles and the highest role identifier
    held otherwise, and [hasMinRole] is the comparison with it: a level
    [m >= 1] is reached exactly when [m <= k]. *)
Theorem getMaxRoleId_is_the_level_hasMinRole_compares :
  forall rs : list string,
    (getMaxRoleId rs = NaN <->
       exists name, In name rs /\ RoleNameToId name = JObject)
    /\ (forall k, getMaxRoleId rs = Num k ->
          0 <= k <= 4
          /\ (k = 0 <-> forall name, In name rs -> recognizedName name = false)
          /\ (1 <= k -> exists name, In name rs /\ RoleNameToId name = JNum k)
          /\ (forall m, 1 <= m -> hasMinRole rs m = (m <=? k))).
Proof.
  intro rs.
  assert (Hobj : (exists name, In name rs /\ RoleNameToId name = JObject) ->
                 getMaxRoleId rs = NaN).
  { intros [name [Hin E]]. unfold getMaxRoleId.
    assert (Hv : In JObject (filter isDefined (map RoleNameToId rs))).
    { apply userRoleIds_In. exists name. repeat split; auto. discriminate. }
    destruct (filter isDefined (map RoleNameToId rs)) as [|v ids]; [contradiction|].
    destruct Hv as [-> | Hv]; [apply fold_max_NaN|].
    apply fold_max_object. now exists JObject. }
  assert (Hnum : (forall name, In name rs -> RoleNameToId name <> JObject) ->
                 forall v, In v (filter isDefined (map RoleNameToId rs)) ->
                           exists n, v = JNum n).
  { intros Hno v Hv. apply userRoleIds_In in Hv as [name [Hin [E Hv]]].
    destruct v as [|n|]; [now elim Hv | now exists n | now elim (Hno name Hin)]. }
  destruct (existsb (fun name => match RoleNameToId name with JObject => true | _ => false end) rs)
    eqn:Eobj.
  - (* some inherited name: NaN *)
    apply existsb_exists in Eobj as [name [Hin E]].
    assert (Hex : exists name, In name rs /\ RoleNameToId name = JObject).
    { exists name. split; [exact Hin|]. now destruct (RoleNameToId name). }
    split; [split; [intros _; exact Hex | exact Hobj]|].
    intros k Hk. rewrite (Hobj Hex) in Hk. discriminate.
  - (* numbers only *)
    assert (Hno : forall name, In name rs -> RoleNameToId name <> JObject).
    { intros name Hin E.
      assert (existsb (fun name => match RoleNameToId name with JObject => true | _ => false end) rs = true)
        as Ht by (apply existsb_exists; exists name; split; [exact Hin | now rewrite E]).
      rewrite Ht in Eobj. discriminate. }
    specialize (Hnum Hno).
    assert (Hmin : forall m, hasMinRole rs m
                             = existsb (fun id => jsGe id m) (filter isDefined (map RoleNameToId rs)))
      by reflexivity.
    unfold getMaxRoleId.
    destruct (filter isDefined (map RoleNameToId rs)) as [|v ids] eqn:Eids.
    + (* no identifier at all *)
      split.
      { split; [discriminate|]. intros [name [Hin E]]. now elim (Hno name Hin). }
      intros k [= <-]. split; [lia|]. split; [|split].
      * split; [|reflexivity]. intros _ name Hin.
        destruct (RoleNameToId_cases name) as [[n [_ [E _]]] | [[_ H] | [_ H]]]; try exact H.
        assert (In (JNum n) (filter isDefined (map RoleNameToId rs))) as Hin'.
        { apply userRoleIds_In. exists name. repeat split; auto. discriminate. }
        rewrite Eids in Hin'. contradiction.
      * lia.
      * intros m Hm. rewrite Hmin. simpl. symmetry. apply Z.leb_gt. lia.
    + destruct (Hnum v (or_introl eq_refl)) as [a ->]. simpl toNumber.
      destruct (fold_max_numbers ids a) as [k [E [Hle [Hall Hin]]]].
      { intros w Hw. apply Hnum. now right. }
      rewrite E. split.
      { split; [discriminate|]. intros [name [Hn En]]. now elim (Hno name Hn). }
      intros k' [= <-].
      assert (Hk : In (JNum k) (JNum a :: ids)).
      { destruct Hin as [-> | Hin]; [now left | now right]. }
      rewrite <- Eids in Hk. apply userRoleIds_In in Hk as [name [Hname [Ename _]]].
      assert (Hrange : 1 <= k <= 4).
      { destruct (RoleNameToId_cases name) as [[n [Hn [En _]]] | [[En _] | [En _]]];
          rewrite En in Ename; [injection Ename as <-; exact Hn | discriminate | discriminate]. }
      split; [lia|]. split; [|split].
      * split; [lia|]. intro Hun. specialize (Hun name Hname).
        destruct (RoleNameToId_cases name) as [[n [_ [_ Hr]]] | [[En _] | [En _]]];
          [rewrite Hr in Hun; discriminate | rewrite En in Ename; discriminate
          | rewrite En in Ename; discriminate].
      * intros _. now exists name.
      * intros m Hm. rewrite Hmin. apply eq_true_iff_eq. rewrite existsb_exists. split.
        -- intros [w [Hw Hge]]. destruct (Hnum w Hw) as [n ->]. simpl in Hge.
           apply Z.geb_le in Hge. apply Z.leb_le.
           destruct Hw as [[= ->] | Hw]; [lia|]. specialize (Hall n Hw). lia.
        -- intro Hmk. apply Z.leb_le in Hmk. exists (JNum k). split.
           ++ destruct Hin as [-> | Hin]; [now left | now right].
           ++ simpl. apply Z.geb_le. lia.
Qed.

End MaxRoleFacts.

(* ================================================================= *)
(** ** The credential store *)

Module TokenStorageFacts.

Import TokenStorage.
Local Open Scope Z_scope.

(** X5. The remaining lifetime decides both expiry checks, as long as the
    times involved are safe integers (below 2^53 in size, where JavaScript
    numbers are exact): the token is "expiring soon" within [t >= 0] seconds
    exactly when at most [t] seconds of it are left (a missing or zero
    expiry counts as nothing left), and the store holds a valid token
    exactly when an access token is stored and some lifetime is left.  Hence
    a token that is expiring soon stays so later on and under any larger
    threshold. *)
Theorem remaining_lifetime_decides_expiry :
  forall (s : Store) (now : Z),
    (forall t, 0 <= t -> exactAt t now s ->
       isTokenExpiringSoon t now s = (getTokenTTL now s <=? t * 1000))
    /\ (exactAt 0 now s ->
        (hasValidToken now s = true <->
           accessToken s <> None /\ 0 < getTokenTTL now s))
    /\ (forall t t' now', 0 <= t <= t' -> now <= now' ->
          exactAt t now s -> exactAt t' now' s ->
          isTokenExpiringSoon t now s = true ->
          isTokenExpiringSoon t' now' s = true).
Proof.
  intros s now.
  assert (H1 : forall t now0, 0 <= t ->
             isTokenExpiringSoon t now0 s = (getTokenTTL now0 s <=? t * 1000)).
  { intros t now0 Ht. unfold isTokenExpiringSoon, getTokenTTL.
    destruct (tokenExpiresAt s) as [e|].
    - destruct (e =? 0).
      + symmetry. apply Z.leb_le. lia.
      + apply eq_true_iff_eq. rewrite Z.geb_le, Z.leb_le. lia.
    - symmetry. apply Z.leb_le. lia. }
  split; [intros t Ht _; now apply H1|]. split.
  - intros _. unfold hasValidToken, isTokenExpiringSoon, getTokenTTL.
    destruct (accessToken s) as [tok|].
    + destruct (tokenExpiresAt s) as [e|].
      * destruct (e =? 0); simpl.
        -- split; [discriminate | intros [_ H]; lia].
        -- rewrite negb_true_iff. rewrite Z.geb_leb, Z.leb_gt.
           split; [intro H; split; [discriminate | lia] | intros [_ H]; lia].
      * simpl. split; [discriminate | intros [_ H]; lia].
    + split; [discriminate | intros [H _]; now elim H].
  - intros t t' now' Ht Hnow _ _ H.
    rewrite H1 in H by lia. rewrite H1 by lia.
    apply Z.leb_le in H. apply Z.leb_le.
    assert (getTokenTTL now' s <= getTokenTTL now s).
    { unfold getTokenTTL. destruct (tokenExpiresAt s) as [e|]; [|lia].
      destruct (e =? 0); lia. }
    nia.
Qed.

(** X6. Storing an access token issued for [expires_in] seconds at time
    [t0], as long as the times involved are safe integers (below 2^53 in
    size, where JavaScript numbers are exact): the getter returns it, the
    refresh token is untouched, its remaining lifetime at [now] is
    [t0 + expires_in * 1000 - now] (0 once past), and the request
    interceptor's check (threshold 60 s) turns true exactly from 60 s before
    the expiry.  A token issued for 60 s or less is therefore expiring soon
    from the moment it is stored. *)
Theorem stored_token_expires_on_schedule :
  forall (token : string) (expires_in t0 : Z) (s : Store),
    t0 + expires_in * 1000 <> 0 ->
    exactStore expires_in t0 ->
    let s' := setAccessToken token expires_in t0 s in
    getAccessToken s' = Some token
    /\ getRefreshToken s' = getRefreshToken s
    /\ tokenExpiresAt s' = Some (t0 + expires_in * 1000)
    /\ (forall now, exactAt 0 now s' ->
          getTokenTTL now s' = Z.max 0 (t0 + expires_in * 1000 - now))
    /\ (forall now, exactAt 60 now s' ->
          isTokenExpiringSoon 60 now s' = (t0 + (expires_in - 60) * 1000 <=? now))
    /\ (expires_in <= 60 -> forall now, exactAt 60 now s' -> t0 <= now ->
          isTokenExpiringSoon 60 now s' = true).
Proof.
  intros token expires_in t0 s Hnz _ s'.
  assert (Hsoon : forall now,
             isTokenExpiringSoon 60 now s' = (t0 + (expires_in - 60) * 1000 <=? now)).
  { intro now. unfold s', isTokenExpiringSoon, setAccessToken. simpl.
    apply Z.eqb_neq in Hnz. rewrite Hnz.
    apply eq_true_iff_eq. rewrite Z.geb_le, Z.leb_le. lia. }
  split; [reflexivity|]. split; [reflexivity|]. split; [reflexivity|]. split; [|split].
  - intros now _. unfold s', getTokenTTL, setAccessToken. simpl.
    apply Z.eqb_neq in Hnz. now rewrite Hnz.
  - intros now _. apply Hsoon.
  - intros He now _ Hnow. rewrite Hsoon. apply Z.leb_le. lia.
Qed.

(** A 15-minute token stored at time 0 is fine after 14 minutes minus a
    millisecond and expiring soon at 14 minutes. *)
Lemma stored_token_expires_on_schedule_witness :
  let s' := setAccessToken "tok" 900 0 (empty true None) in
  exactStore 900 0
  /\ exactAt 60 839999 s'
  /\ isTokenExpiringSoon 60 839999 s' = false
  /\ isTokenExpiringSoon 60 840000 s' = true
  /\ getTokenTTL 840000 s' = 60000.
Proof.
  intro s'. subst s'.
  assert (Hstore : exactStore 900 0).
  { unfold exactStore, JS.safeInteger, JS.MAX_SAFE_INTEGER. lia. }
  assert (Hat : forall t now, 0 <= t <= 60 -> 0 <= now <= 900000 ->
                  exactAt t now (setAccessToken "tok" 900 0 (empty true None))).
  { intros t now Ht Hn.
    unfold exactAt, JS.safeInteger, JS.MAX_SAFE_INTEGER, setAccessToken.
    cbn [tokenExpiresAt]. lia. }
  destruct (stored_token_expires_on_schedule "tok" 900 0 (empty true None))
    as [_ [_ [_ [Httl [Hsoon _]]]]]; [discriminate | exact Hstore |].
  split; [exact Hstore|]. split; [apply Hat; lia|].
  split; [rewrite (Hsoon 839999) by (apply Hat; lia); reflexivity|].
  split; [rewrite (Hsoon 840000) by (apply Hat; lia); reflexivity|].
  rewrite (Httl 840000) by (apply Hat; lia). reflexivity.
Defined.

(** X7. The store gives back what was put in, and [clearTokens] undoes it.
    The refresh token is kept in [localStorage]: when that is unavailable
    the setter is a no-op and the getter answers [null], so a session
    started then has no persisted session.  After [clearTokens] nothing is
    left: no access token, no expiry, no refresh token, no valid token, no
    lifetime, and clearing again changes nothing. *)
Theorem token_store_round_trip :
  forall (s : Store) (access refresh : string) (expires_in now : Z),
    let s1 := setRefreshToken refresh (setAccessToken access expires_in now s) in
    getAccessToken s1 = Some access
    /\ getRefreshToken s1 = (if storageAvailable s then Some refresh else None)
    /\ hasPersistedSession s1 = storageAvailable s
    /\ s1 = setAccessToken access expires_in now (setRefreshToken refresh s)
    /\ cleared (clearTokens s1)
    /\ hasValidToken now (clearTokens s1) = false
    /\ getTokenTTL now (clearTokens s1) = 0
    /\ hasPersistedSession (clearTokens s1) = false
    /\ clearTokens (clearTokens s1) = clearTokens s1.
Proof.
  intros s access refresh expires_in now s1. unfold s1.
  unfold setRefreshToken, setAccessToken, clearTokens, cleared, hasPersistedSession,
    getRefreshToken, getAccessToken, hasValidToken, getTokenTTL.
  destruct s as [a e av p]. simpl. destruct av; simpl; repeat split.
Qed.

End TokenStorageFacts.

(* ================================================================= *)
(** ** Who is offered which action *)

Module ActionMatrixFacts.

Import TicketActions FormSpec RolesFacts.

Lemma manager_is_employee (a : Auth) : isManager a = true -> isEmployee a = true.
Proof.
  unfold isManager, isEmployee, Roles.isAtLeastManager, Roles.isAtLeastEmployee.
  apply hasMinRole_mono. unfold Roles.EMPLOYEE, Roles.MANAGER. lia.
Qed.

(** X8. The actions card is rendered exactly for a user who is at least an
    employee looking at a ticket that is not closed: nobody else is offered
    any action (a manager always counts as an employee), and for those users
    the card always holds at least the attachment button. *)
Theorem actions_card_is_for_employees_on_open_tickets :
  forall (a : Auth) (t : TicketDetail),
    (TicketActions a t = None <-> isEmployee a = false \/ is_closed t = true)
    /\ (forall l, TicketActions a t = Some l ->
          l = offered a t /\ In UploadAttachment l
          /\ isEmployee a = true /\ is_closed t = false).
Proof.
  intros a t.
  assert (Hm : isEmployee a = false -> isManager a = false).
  { intro He. destruct (isManager a) eqn:E; [|reflexivity].
    apply manager_is_employee in E. congruence. }
  unfold TicketActions, offered, canSelfAssign, canUpdateStatus, canClose,
    canUpdatePriority, canUploadAttachment, canReassign.
  destruct (isEmployee a) eqn:He.
  - destruct (is_closed t) eqn:Hc; simpl.
    + rewrite !andb_false_r. simpl. split; [split; auto|]. discriminate.
    + rewrite !andb_true_r. simpl. rewrite !andb_false_r. simpl. split.
      * split; [discriminate | intros [H | H]; discriminate].
      * intros l [= <-]. split; [reflexivity|]. split; [|now split].
        apply in_or_app. right. apply in_or_app. right. now left.
  - rewrite (Hm eq_refl). simpl. split; [split; auto|]. discriminate.
Qed.

(** X9. For the value [useAuth()] builds, "Assign to Me" is never offered
    together with an action on an assigned ticket: when self-assignment is
    possible, status update, close and reassign are not; and status update
    and close are possible only on a ticket assigned to the user looking at
    it. *)
Theorem self_assign_excludes_assignee_actions :
  forall (a : Auth) (t : TicketDetail),
    fromContext a ->
    (canSelfAssign a t = true ->
       canUpdateStatus a t = false /\ canClose a t = false /\ canReassign a t = false)
    /\ (canUpdateStatus a t = true \/ canClose a t = true ->
          exists u r, user a = Some u /\ assigned_to t = Some r
                      /\ user_id r = user_id u).
Proof.
  intros a t Hctx.
  assert (Hmine : isEmployee a = true -> isAssignedToMe a t = true ->
                  exists u r, user a = Some u /\ assigned_to t = Some r
                              /\ user_id r = user_id u).
  { intros He Hme. unfold isAssignedToMe, strictEq, optId in Hme.
    destruct (user a) as [u|] eqn:Hu.
    - destruct (assigned_to t) as [r|]; simpl in Hme; [|discriminate].
      apply String.eqb_eq in Hme. now exists u, r.
    - unfold isEmployee in He. rewrite (Hctx Hu) in He. discriminate. }
  split.
  - unfold canSelfAssign, canUpdateStatus, canClose, canReassign.
    intro H. apply andb_true_iff in H as [H Hc]. apply andb_true_iff in H as [He Hu].
    rewrite He. destruct (assigned_to t) as [r|] eqn:Ha; [discriminate|].
    destruct (isAssignedToMe a t) eqn:Hme.
    + destruct (Hmine He eq_refl) as [u [r [_ [Hr _]]]]. discriminate.
    + simpl. rewrite andb_false_r. now repeat split.
  - unfold canUpdateStatus, canClose.
    intros [H | H]; apply andb_true_iff in H as [H _];
      apply andb_true_iff in H as [He Hme]; now apply Hmine.
Qed.

(** An employee looking at an unassigned ticket may take it, and is offered
    neither the status dialog nor the close dialog. *)
Lemma self_assign_excludes_assignee_actions_witness :
  canSelfAssign employeeAuth unassignedTicket = true
  /\ canUpdateStatus employeeAuth unassignedTicket = false
  /\ canClose employeeAuth unassignedTicket = false.
Proof.
  destruct (self_assign_excludes_assignee_actions employeeAuth unassignedTicket)
    as [H _]; [discriminate|].
  destruct (H eq_refl) as [H1 [H2 _]].
  split; [reflexivity|]. now split.
Defined.

(** A step sends at most one request, and only from a form that is not
    submitting; an answer is taken only by a form that is. *)
Lemma statusStep_outstanding (t : TicketDetail) (ev : StatusEvent) (f : StatusForm) :
  (length (match snd (statusStep t ev f) with Some r => [r] | None => [] end)
   + outstanding f
   <= (if isSettled ev then 1 else 0) + outstanding (fst (statusStep t ev f)))%nat.
Proof.
  unfold outstanding, statusStep, MutationForm_handleSubmit.
  destruct (sf_isSubmitting f) eqn:E;
    destruct ev; simpl; rewrite ?andb_false_r, ?andb_true_r;
    repeat match goal with
           | |- context [if ?b then _ else _] => destruct b; simpl
           end;
    rewrite ?E; simpl; lia.
Qed.

Lemma statusRun_outstanding (t : TicketDetail) (evs : list StatusEvent) (f : StatusForm) :
  (length (snd (statusRun t evs f)) + outstanding f
   <= settledCount evs + outstanding (fst (statusRun t evs f)))%nat.
Proof.
  revert f. induction evs as [|ev evs IH]; intro f; simpl; [lia|].
  pose proof (statusStep_outstanding t ev f) as Hs.
  destruct (statusStep t ev f) as [f1 r] eqn:E1. simpl in Hs.
  specialize (IH f1). destruct (statusRun t evs f1) as [f2 rs] eqn:E2. simpl in *.
  unfold settledCount in *. simpl.
  destruct (isSettled ev); destruct r; simpl in *; lia.
Qed.

(** X10. The status dialog never has two requests outstanding: in any
    session, however the user clicks, the number of requests sent is at most
    the number of answers received plus one, and a submit made while a
    request is outstanding sends nothing. *)
Theorem status_form_never_double_submits :
  forall (t : TicketDetail) (evs : list StatusEvent),
    (length (snd (statusRun t evs StatusForm_initial)) <= settledCount evs + 1)%nat
    /\ (forall f, sf_isSubmitting f = true ->
          statusStep t SfSubmit f = (f, None)).
Proof.
  intros t evs. split.
  - pose proof (statusRun_outstanding t evs StatusForm_initial) as H.
    unfold outstanding in H at 1. simpl in H.
    assert (outstanding (fst (statusRun t evs StatusForm_initial)) <= 1)%nat
      by (unfold outstanding; destruct (sf_isSubmitting _); lia).
    lia.
  - intros f Hs. unfold statusStep, MutationForm_handleSubmit. rewrite Hs.
    rewrite andb_false_r. now destruct (sf_isOpen f).
Qed.

End ActionMatrixFacts.

(* ================================================================= *)
(** ** The client over whole sessions *)

Module SessionFacts.

Import TokenStorage Client ClientSpec SessionSpec ClientFacts.
Local Open Scope Z_scope.



(** *** The refresh flag *)

(** X12. The refresh flag cannot stay set, and nobody waits in vain for it:
    in every state the client can reach, a non-empty waiter queue means a
    refresh is under way, and a refresh under way means exactly one
    interceptor is performing it, whose completion (the answer to its POST
    if still outstanding, whatever that answer is, then its resumption) is
    possible and leaves the flag cleared, the queue empty and no refresh
    outstanding. *)
Theorem refresh_flag_is_always_released :
  forall (B : string) (s : Store) (acts : list Action) (st : State),
    run B acts (init s) = Some st ->
    (refreshQueue st <> [] -> isRefreshing st = true)
    /\ (isRefreshing st = true ->
          exists l, leaders st = [l]
            /\ forall (r : RefreshResponse) (now : Z),
                 exists st', run B (completion l r now) st = Some st'
                   /\ isRefreshing st' = false
                   /\ refreshQueue st' = []
                   /\ leaders st' = []
                   /\ inFlight st' = 0%nat).
Proof.
  intros B s acts st Hrun.
  pose proof (run_singleFlight B acts _ _ (singleFlight_init s) Hrun) as Hsf.
  split.
  - intro Hq. destruct Hsf as [[H _] | [_ [_ H]]]; [exact H | now elim Hq].
  - intro Hr. destruct Hsf as [[_ [l Hl]] | [H _]]; [|congruence].
    exists l. split; [exact Hl|]. intros r now.
    assert (Hresume : forall l' res st1,
               leaders st1 = [l'] -> lawait l' = Settled res ->
               exists st', run B [LeaderResume 0] st1 = Some st'
                 /\ isRefreshing st' = false /\ refreshQueue st' = []
                 /\ leaders st' = [] /\ inFlight st' = 0%nat).
    { intros l' res st1 Hl' Hres. simpl. rewrite Hl'. simpl. rewrite Hres.
      eexists. split; [reflexivity|]. rewrite leaderResume_eq.
      unfold resumed, inFlight.
      destruct (lkind l'); destruct res; simpl; repeat split. }
    unfold completion. destruct (lawait l) as [|res] eqn:Ha.
    + change [RefreshReply 0 r now; LeaderResume 0]
        with ([RefreshReply 0 r now] ++ [LeaderResume 0]).
      rewrite run_app. simpl. rewrite Hl. simpl. rewrite Ha.
      destruct (finishRefresh r now (store st)) as [s' res] eqn:Ef.
      apply (Hresume (mkLeader (lkind l) (lcfg l) (Settled res)) res); reflexivity.
    + now apply (Hresume l res).
Qed.

(** Two callers answered 401: the second waits in the queue while the first
    performs the refresh; the answer and the resumption release both. *)
Lemma refresh_flag_is_always_released_witness :
  exists st l st',
    run "http://localhost:5003" (two401_pre ++ [Reply 0 (Some 401); Reply 0 (Some 401)])
        (init (empty true None)) = Some st
    /\ length (refreshQueue st) = 1%nat
    /\ leaders st = [l]
    /\ run "http://localhost:5003" (completion l (RefreshOk "tok1" 900) 2000) st = Some st'
    /\ isRefreshing st' = false /\ refreshQueue st' = [].
Proof.
  destruct (run "http://localhost:5003"
                (two401_pre ++ [Reply 0 (Some 401); Reply 0 (Some 401)])
                (init (empty true None))) as [st|] eqn:E; [|vm_compute in E; discriminate].
  destruct (refresh_flag_is_always_released _ _ _ _ E) as [_ H].
  assert (Hr : isRefreshing st = true)
    by (vm_compute in E; injection E as <-; reflexivity).
  destruct (H Hr) as [l [Hl Hc]].
  destruct (Hc (RefreshOk "tok1" 900) 2000) as [st' [Hrun [H1 [H2 _]]]].
  exists st, l, st'. split; [reflexivity|].
  split; [vm_compute in E; injection E as <-; reflexivity|].
  repeat split; assumption.
Defined.

(** *** Where the stored tokens come from *)

Lemma tokensFrom_refl (s : Store) : tokensFrom s [] [] s.
Proof. repeat split; auto. Qed.

Lemma tokensFrom_trans (s s1 s2 : Store) (a1 a2 r1 r2 : list (option string)) :
  tokensFrom s a1 r1 s1 -> tokensFrom s1 a2 r2 s2 ->
  tokensFrom s (a1 ++ a2) (r1 ++ r2) s2.
Proof.
  intros [Ha1 [Hr1 Hs1]] [Ha2 [Hr2 Hs2]]. split; [|split].
  - intros t Ht. destruct (Ha2 t Ht) as [H | H].
    + destruct (Ha1 t H) as [H' | H']; [now left | right; apply in_or_app; now left].
    + right. apply in_or_app. now right.
  - intros t Ht. destruct (Hr2 t Ht) as [H | H].
    + destruct (Hr1 t H) as [H' | H']; [now left | right; apply in_or_app; now left].
    + right. apply in_or_app. now right.
  - congruence.
Qed.

Lemma tokensFrom_clear (s : Store) (a r : list (option string)) :
  tokensFrom s a r (clearTokens s).
Proof.
  unfold tokensFrom, clearTokens. simpl. split; [discriminate|]. split; [|reflexivity].
  intros rt. destruct (storageAvailable s); [discriminate | now left].
Qed.

Lemma tokensFrom_same (s : Store) (a r : list (option string)) : tokensFrom s a r s.
Proof. repeat split; auto. Qed.

Lemma startRefresh_store (kind : LeaderKind) (c : RequestConfig) (st : State) :
  store (startRefresh kind c st) = store st.
Proof.
  unfold startRefresh. st_unfold.
  destruct (getRefreshToken (store st)) as [rt|]; [|reflexivity].
  now destruct (JS.truthy rt).
Qed.

Lemma requestInterceptor_store (now : Z) (c : RequestConfig) (st : State) :
  store (requestInterceptor now c st) = store st.
Proof.
  rewrite requestInterceptor_cases. cbv zeta.
  destruct (negb (reqIsAuthEndpoint c) && JS.truthyO (getAccessToken (store st))
            && isTokenExpiringSoon 60 now (store st)); [|reflexivity].
  destruct (negb (isRefreshing st)); [apply startRefresh_store | reflexivity].
Qed.

Lemma handleError_store (c : RequestConfig) (status : option Z) (st : State) :
  store (handleError c (AxiosError status (Some c)) st) = store st
  \/ store (handleError c (AxiosError status (Some c)) st) = clearTokens (store st).
Proof.
  rewrite handleError_cases. cbv zeta.
  match goal with |- context [if ?b then _ else settle _ _ _] => destruct b end.
  - left. destruct (negb (isRefreshing st)); [apply startRefresh_store | reflexivity].
  - match goal with |- context [if ?b then set_store _ _ else _] => destruct b end;
      [right | left]; reflexivity.
Qed.

Lemma step_tokensFrom (B : string) (a : Action) (st st' : State) :
  isRestoreAction a = false ->
  step B a st = Some st' ->
  tokensFrom (store st) [deliveredAccess a] [deliveredRefresh a] (store st').
Proof.
  intros Era Hs.
  destruct a as [u|k now|k status|k r now|k|tok ex rt now| |k r now|k now|];
    try discriminate Era; simpl in Hs.
  - injection Hs as <-. apply tokensFrom_same.
  - destruct (pick k (pending st)) as [[c rest]|]; [|discriminate].
    injection Hs as <-. rewrite requestInterceptor_store. apply tokensFrom_same.
  - destruct (pick k (wire st)) as [[c rest]|]; [|discriminate].
    assert (Hh : forall status',
               tokensFrom (store st) [None] [None]
                 (store (handleError c (AxiosError status' (Some c)) (set_wire rest st)))).
    { intro status'.
      destruct (handleError_store c status' (set_wire rest st)) as [-> | ->];
        [apply tokensFrom_same | apply (tokensFrom_clear (store st))]. }
    destruct status as [s|]; [|injection Hs as <-; apply Hh].
    destruct ((200 <=? s) && (s <? 300)); injection Hs as <-;
      [apply tokensFrom_same | apply Hh].
  - destruct (nth_error (leaders st) k) as [l|]; [|discriminate].
    destruct (lawait l); [|discriminate].
    destruct r as [tok ex | status]; simpl in Hs; injection Hs as <-; simpl.
    + unfold tokensFrom, setAccessToken. simpl. split; [|split; auto].
      intros t [= <-]. right. now left.
    + apply tokensFrom_clear.
  - destruct (pick k (leaders st)) as [[l rest]|]; [|discriminate].
    destruct (lawait l) as [|res]; [discriminate|]. injection Hs as <-.
    rewrite leaderResume_eq. unfold resumed.
    destruct (lkind l); destruct res; simpl;
      try apply tokensFrom_same; apply tokensFrom_clear.
  - injection Hs as <-. unfold tokensFrom, setRefreshToken, setAccessToken. simpl.
    destruct (storageAvailable (store st)) eqn:Ea; simpl; rewrite ?Ea.
    + split; [intros t [= <-]; right; now left|].
      split; [intros t [= <-]; right; now left | reflexivity].
    + split; [intros t [= <-]; right; now left|]. split; [now left | reflexivity].
  - injection Hs as <-. apply tokensFrom_clear.
Qed.

Lemma tokensFrom_more (s s' : Store) (a a' r r' : list (option string)) :
  tokensFrom s a r s' -> tokensFrom s (a' ++ a) (r' ++ r) s'.
Proof.
  intros [Ha [Hr Hs]]. split; [|split; [|exact Hs]].
  - intros t Ht. destruct (Ha t Ht); [now left | right; apply in_or_app; now right].
  - intros t Ht. destruct (Hr t Ht); [now left | right; apply in_or_app; now right].
Qed.

Lemma step_tokensInv (B : string) (s : Store) (pre : list Action) (a : Action)
      (st st' : State) :
  tokensFrom s (map deliveredAccess pre) (map deliveredRefresh pre) (store st) ->
  restoresFrom (map deliveredAccess pre) st ->
  step B a st = Some st' ->
  tokensFrom s (map deliveredAccess (pre ++ [a])) (map deliveredRefresh (pre ++ [a]))
             (store st')
  /\ restoresFrom (map deliveredAccess (pre ++ [a])) st'.
Proof.
  intros Ht Hr Hs. rewrite !map_app. simpl map.
  assert (Hkeep : forall st1, store st1 = store st ->
            tokensFrom s (map deliveredAccess pre ++ [deliveredAccess a])
                       (map deliveredRefresh pre ++ [deliveredRefresh a]) (store st1)).
  { intros st1 ->.
    apply (tokensFrom_trans _ (store st) _ _ _ _ _ Ht). apply tokensFrom_same. }
  destruct (isRestoreAction a) eqn:Era.
  - destruct a as [u|k now|k status|k r now|k|tok ex rt now| |k r now|k now|];
      try discriminate Era; simpl in Hs.
    + injection Hs as <-. unfold restoreStart.
      assert (Hfail : forall f st1, restores st1 = restores st ++ [RestoreSettled (inl f)] ->
                restoresFrom (map deliveredAccess pre ++ [None]) st1).
      { intros f st1 E tok ex Hin. rewrite E in Hin.
        apply in_app_or in Hin as [Hin | [Hin | []]]; [|discriminate].
        apply in_or_app. left. now apply Hr with ex. }
      assert (Hsame : restoresFrom (map deliveredAccess pre ++ [None]) st).
      { intros tok ex Hin. apply in_or_app. left. now apply Hr with ex. }
      destruct (JS.truthyO (getAccessToken (store st))); [split; [now apply Hkeep | exact Hsame]|].
      destruct (negb (hasPersistedSession (store st)));
        [split; [now apply Hkeep | exact Hsame]|].
      destruct (getRefreshToken (store st)) as [rt|];
        [|split; [now apply Hkeep | now apply Hfail with NoRefreshToken]].
      destruct (JS.truthy rt);
        [|split; [now apply Hkeep | now apply Hfail with NoRefreshToken]].
      split; [now apply Hkeep|].
      intros tok ex Hin. st_unfold.
      apply in_app_or in Hin as [Hin | [Hin | []]]; [|discriminate].
      apply in_or_app. left. now apply Hr with ex.
    + destruct (nth_error (restores st) k) as [[|r0]|]; try discriminate.
      destruct r as [tok ex | status]; simpl in Hs; injection Hs as <-; st_unfold.
      * split.
        -- apply (tokensFrom_trans _ (store st) _ _ _ _ _ Ht).
           unfold tokensFrom, setAccessToken. simpl. split; [|split; auto].
           intros t [= <-]. right. now left.
        -- intros tok' ex' Hin. apply replace_In in Hin as [Hin | Hin].
           ++ injection Hin as -> _. apply in_or_app. right. now left.
           ++ apply in_or_app. left. now apply Hr with ex'.
      * split; [now apply Hkeep|].
        intros tok' ex' Hin. apply replace_In in Hin as [Hin | Hin]; [discriminate|].
        apply in_or_app. left. now apply Hr with ex'.
    + destruct (pick k (restores st)) as [[[|r0] rest]|] eqn:Ep; try discriminate.
      injection Hs as <-. st_unfold. destruct (pick_In _ _ _ _ Ep) as [Hin0 Hrest].
      split.
      * destruct r0 as [f | [tok ex]]; simpl.
        -- apply (tokensFrom_trans _ (store st) _ _ _ _ _ Ht). apply tokensFrom_clear.
        -- destruct Ht as [Ha [Hrt Hav]].
           unfold tokensFrom, setAccessToken. simpl. split; [|split].
           ++ intros t [= <-]. right. apply in_or_app. left. now apply Hr with ex.
           ++ intros rt Hp. destruct (Hrt rt Hp); [now left | right].
              apply in_or_app. now left.
           ++ exact Hav.
      * intros tok' ex' Hin. apply in_or_app. left. apply Hr with ex'. now apply Hrest.
  - split.
    + apply (tokensFrom_trans _ (store st) _ _ _ _ _ Ht).
      now apply step_tokensFrom with B.
    + intros tok ex Hin. rewrite (ClientFacts.step_restores _ _ _ _ Era Hs) in Hin.
      apply in_or_app. left. now apply Hr with ex.
Qed.

Lemma run_tokensInv (B : string) (s : Store) (acts : list Action) :
  forall pre st st',
    tokensFrom s (map deliveredAccess pre) (map deliveredRefresh pre) (store st) ->
    restoresFrom (map deliveredAccess pre) st ->
    run B acts st = Some st' ->
    tokensFrom s (map deliveredAccess (pre ++ acts)) (map deliveredRefresh (pre ++ acts))
               (store st').
Proof.
  induction acts as [|a acts IH]; intros pre st st' Ht Hr Hrun; simpl in Hrun.
  - injection Hrun as <-. now rewrite app_nil_r.
  - destruct (step B a st) as [st1|] eqn:E; [|discriminate].
    destruct (step_tokensInv B s pre a st st1 Ht Hr E) as [Ht1 Hr1].
    replace (pre ++ a :: acts) with ((pre ++ [a]) ++ acts) by now rewrite <- app_assoc.
    now apply IH with st1.
Qed.

Lemma run_tokensFrom (B : string) (acts : list Action) :
  forall s st', run B acts (init s) = Some st' ->
    tokensFrom s (map deliveredAccess acts) (map deliveredRefresh acts) (store st').
Proof.
  intros s st' Hr.
  apply (run_tokensInv B s acts [] (init s) st'); [apply tokensFrom_refl | | exact Hr].
  intros tok ex [].
Qed.

(** X13. The client never makes up a credential.  Whatever the callers and
    the server do, an access token found in the store was there at the start
    or was handed over by a login, a restored session or a successful answer
    of the refresh endpoint; a persisted refresh token was there at the
    start or came from a login (a refresh never replaces it: the answer's
    fields other than [access_token] and [expires_in] are not read); the
    interceptors themselves only ever clear. *)
Theorem client_never_invents_tokens :
  forall (B : string) (s : Store) (acts : list Action) (st : State),
    run B acts (init s) = Some st ->
    (forall t, accessToken (store st) = Some t ->
       accessToken s = Some t \/ In (Some t) (map deliveredAccess acts))
    /\ (forall rt, getRefreshToken (store st) = Some rt ->
          getRefreshToken s = Some rt \/ In (Some rt) (map deliveredRefresh acts))
    /\ (Forall (fun a => deliveredAccess a = None) acts ->
          accessToken (store st) = accessToken s \/ accessToken (store st) = None).
Proof.
  intros B s acts st Hrun.
  destruct (run_tokensFrom B acts _ _ Hrun) as [Ha [Hr Hav]]. simpl in *.
  split; [exact Ha|]. split.
  - unfold getRefreshToken. rewrite Hav.
    destruct (storageAvailable s); [exact Hr | discriminate].
  - intro Hnone. destruct (accessToken (store st)) as [t|] eqn:Et; [|now right].
    destruct (Ha t eq_refl) as [H | H]; [left; now rewrite H|].
    apply in_map_iff in H as [a [Hd Hin]].
    rewrite Forall_forall in Hnone. rewrite (Hnone a Hin) in Hd. discriminate.
Qed.

(** After a login, a 401 and a successful refresh, the stored access token
    is the one the refresh returned and the refresh token is still the one
    of the login. *)
Lemma client_never_invents_tokens_witness :
  exists st,
    run "http://localhost:5003" twice401 (init (empty true None)) = Some st
    /\ accessToken (store st) = Some "tok1"%string
    /\ In (Some "tok1"%string) (map deliveredAccess twice401)
    /\ getRefreshToken (store st) = Some "rt0"%string.
Proof.
  destruct (run "http://localhost:5003" twice401 (init (empty true None)))
    as [st|] eqn:E; [|vm_compute in E; discriminate].
  exists st. split; [reflexivity|].
  assert (Ht : accessToken (store st) = Some "tok1"%string)
    by (vm_compute in E; injection E as <-; reflexivity).
  destruct (client_never_invents_tokens _ _ _ _ E) as [Ha _].
  split; [exact Ht|]. split.
  - destruct (Ha _ Ht) as [H | H]; [discriminate H | exact H].
  - vm_compute in E. injection E as <-. reflexivity.
Defined.

(** *** A refresh that fails after a 401 *)

(** X14. On the 401 path a failed refresh ends the session, whatever made it
    fail (no refresh token stored, or the POST rejected or lost): when the
    response interceptor resumes, the store is cleared, the flag is reset,
    the queue is emptied, the original caller and every queued caller are
    rejected with the refresh error, nothing is re-issued or sent, and no
    further refresh is attempted.  And whenever the refresh POST itself
    fails, on either path, the store is cleared as soon as the answer
    arrives. *)
Theorem failed_refresh_after_401_ends_the_session :
  forall (B : string) (st : State) (l : Leader) (f : RefreshFailure),
    leaders st = [l] -> lkind l = RespLeader -> lawait l = Settled (inl f) ->
    (exists st',
        step B (LeaderResume 0) st = Some st'
        /\ cleared (store st')
        /\ isRefreshing st' = false
        /\ refreshQueue st' = []
        /\ leaders st' = []
        /\ In (lcfg l, Rejected (errorOf B f)) (settled st')
        /\ (forall w, In w (refreshQueue st) ->
              In (waiterConfig w, Rejected (errorOf B f)) (settled st'))
        /\ pending st' = pending st
        /\ wire st' = wire st
        /\ trace st' = trace st)
    /\ (forall k status now st1,
          step B (RefreshReply k (RefreshFailed status) now) st = Some st1 ->
          cleared (store st1)).
Proof.
  intros B st l f Hl Hk Ha. split.
  - simpl. rewrite Hl. simpl. rewrite Ha. eexists. split; [reflexivity|].
    destruct (response_path_failure_clears B l f (set_leaders [] st) Hk)
      as [Hc [Hr [Hq [Ht Hw]]]].
    split; [exact Hc|]. split; [exact Hr|]. split; [exact Hq|].
    rewrite leaderResume_eq in *. unfold resumed in *. rewrite Hk in *. simpl in *.
    split; [reflexivity|]. split.
    + apply in_or_app. right. apply in_or_app. right. now left.
    + split; [exact Hw|]. repeat split.
  - intros k status now st1 Hs. simpl in Hs.
    destruct (nth_error (leaders st) k) as [l1|]; [|discriminate].
    destruct (lawait l1); [|discriminate]. injection Hs as <-. simpl.
    apply (finishRefresh_failed_clears status now (store st)).
Qed.

(** The server answers 401 to the refresh POST of a caller answered 401:
    the session is over and the caller gets the refresh error. *)
Lemma failed_refresh_after_401_ends_the_session_witness :
  exists st st',
    rejectedRefresh_state = Some st
    /\ step "http://localhost:5003" (LeaderResume 0) st = Some st'
    /\ accessToken (store st') = None
    /\ getRefreshToken (store st') = None
    /\ map snd (settled st')
       = [Rejected (AxiosError (Some 401)
                      (Some (refreshConfig "http://localhost:5003")))].
Proof.
  destruct rejectedRefresh_state as [st|] eqn:E; [|discriminate E].
  assert (Hst : exists l, leaders st = [l] /\ lkind l = RespLeader
                          /\ lawait l = Settled (inl (PostFailed (Some 401)))).
  { vm_compute in E. injection E as <-. eexists. repeat split. }
  destruct Hst as [l [Hl [Hk Ha]]].
  destruct (failed_refresh_after_401_ends_the_session "http://localhost:5003"
              st l _ Hl Hk Ha) as [[st' [Hs [[Hc1 [_ Hc3]] _]]] _].
  exists st, st'. split; [reflexivity|]. split; [exact Hs|].
  split; [exact Hc1|]. split; [exact Hc3|].
  vm_compute in E. injection E as <-. vm_compute in Hs. injection Hs as <-.
  reflexivity.
Defined.

(** *** The logout request *)

(** X15. The two interceptors disagree on the logout endpoint.  The request
    interceptor treats it as any other request: it gets the bearer token,
    and when the token is about to expire it first triggers (or waits for) a
    refresh.  The response interceptor treats it as an auth endpoint: an
    error answer, 401 included, is handed back at once, with no refresh, no
    retry and no change to the store. *)
Theorem logout_request_is_authorized_but_never_retried :
  forall (cfg : RequestConfig) (st : State) (now : Z),
    isLogoutRequest cfg = true ->
    (forall token,
       getAccessToken (store st) = Some token -> token <> ""%string ->
       (isTokenExpiringSoon 60 now (store st) = false ->
          requestInterceptor now cfg st = dispatch (setAuthorization token cfg) st)
       /\ (isTokenExpiringSoon 60 now (store st) = true ->
             requestInterceptor now cfg st
             = if isRefreshing st
               then set_refreshQueue (refreshQueue st ++ [ReqWaiter cfg]) st
               else startRefresh ReqLeader cfg st))
    /\ (forall caller status,
          handleError caller (AxiosError status (Some cfg)) st
          = settle caller (Rejected (AxiosError status (Some cfg))) st).
Proof.
  intros cfg st now Hlog. unfold isLogoutRequest in Hlog.
  destruct (url cfg) as [u|] eqn:Hu; [|discriminate].
  apply andb_true_iff in Hlog as [Hlog Hr]. apply andb_true_iff in Hlog as [Ho Hl].
  apply negb_true_iff in Hr. apply negb_true_iff in Hl.
  assert (Hreq : reqIsAuthEndpoint cfg = false)
    by (unfold reqIsAuthEndpoint; now rewrite Hu, Hl, Hr).
  assert (Hresp : respIsAuthEndpoint cfg = true)
    by (unfold respIsAuthEndpoint; now rewrite Hu, Hl, Hr, Ho).
  split.
  - intros token Ht Hne.
    assert (Htr : JS.truthyO (getAccessToken (store st)) = true)
      by (rewrite Ht; destruct token; [now elim Hne | reflexivity]).
    pose proof (requestInterceptor_cases now cfg st) as Hc. cbv zeta in Hc.
    rewrite Hreq, Htr in Hc. cbn [negb andb] in Hc. split; intro He; rewrite Hc, He.
    + rewrite Ht. unfold attach. destruct token; [now elim Hne | reflexivity].
    + now destruct (isRefreshing st).
  - intros caller status. unfold handleError. cbn [configOf].
    destruct (is401 (AxiosError status (Some cfg))); [|reflexivity].
    simpl. now rewrite Hresp.
Qed.

(** The logout call of a session five minutes old leaves with the token;
    a 401 answer to it is passed on. *)
Lemma logout_request_is_authorized_but_never_retried_witness :
  requestInterceptor 300000 logoutRequest (init freshStore)
  = dispatch (setAuthorization "tok0" logoutRequest) (init freshStore)
  /\ handleError logoutRequest (AxiosError (Some 401) (Some logoutRequest)) (init freshStore)
     = settle logoutRequest (Rejected (AxiosError (Some 401) (Some logoutRequest)))
              (init freshStore).
Proof.
  destruct (logout_request_is_authorized_but_never_retried
              logoutRequest (init freshStore) 300000 eq_refl) as [H1 H2].
  split; [|apply H2].
  destruct (H1 "tok0"%string eq_refl) as [H _]; [discriminate|].
  now apply H.
Defined.

(** *** Every caller is accounted for *)

Lemma configs_length (q : list Waiter) :
  (length (reqConfigs q) + length (respConfigs q) = length q)%nat.
Proof. induction q as [|[c|o] q IH]; simpl; lia. Qed.

Lemma tokensOK_leaders (st st' : State) :
  leaders st' = leaders st -> tokensOK st -> tokensOK st'.
Proof. unfold tokensOK. intros ->. auto. Qed.

Lemma startRefresh_accounted (kind : LeaderKind) (c : RequestConfig) (st : State) :
  accounted (startRefresh kind c st) = S (accounted st)
  /\ (tokensOK st -> tokensOK (startRefresh kind c st)).
Proof.
  rewrite startRefresh_eq. unfold accounted, tokensOK. simpl. split.
  - rewrite length_app. simpl. lia.
  - intros H l t Hin Hl. apply in_app_or in Hin as [Hin | [<- | []]]; [now apply H with l|].
    simpl in Hl. unfold startAwait in Hl.
    destruct (JS.truthyO (getRefreshToken (store st))); discriminate.
Qed.

Lemma requestInterceptor_accounted (now : Z) (c : RequestConfig) (st : State) :
  accounted (requestInterceptor now c st) = S (accounted st)
  /\ (tokensOK st -> tokensOK (requestInterceptor now c st)).
Proof.
  rewrite requestInterceptor_cases. cbv zeta.
  destruct (negb (reqIsAuthEndpoint c) && JS.truthyO (getAccessToken (store st))
            && isTokenExpiringSoon 60 now (store st)).
  - destruct (negb (isRefreshing st)); [apply startRefresh_accounted|].
    unfold accounted, tokensOK. st_unfold. rewrite length_app. simpl. split; [lia | auto].
  - unfold accounted, tokensOK. st_unfold. rewrite length_app. simpl. split; [lia | auto].
Qed.

Lemma handleError_accounted (c : RequestConfig) (status : option Z) (st : State) :
  accounted (handleError c (AxiosError status (Some c)) st) = S (accounted st)
  /\ (tokensOK st -> tokensOK (handleError c (AxiosError status (Some c)) st)).
Proof.
  rewrite handleError_cases. cbv zeta.
  match goal with |- context [if ?b then _ else settle _ _ _] => destruct b end.
  - destruct (negb (isRefreshing st)); [apply startRefresh_accounted|].
    unfold accounted, tokensOK. st_unfold. rewrite length_app. simpl. split; [lia | auto].
  - match goal with |- context [if ?b then set_store _ _ else _] => destruct b end;
      unfold accounted, tokensOK; st_unfold; rewrite length_app; simpl; (split; [lia | auto]).
Qed.

Lemma resumed_accounted (B : string) (l : Leader) (r : RefreshFailure + string) (st : State) :
  (accounted (resumed B l r st)
   + match r with
     | inr t => if JS.truthy t then 0 else length (refreshQueue st)
     | inl _ => 0
     end
   = S (accounted st))%nat
  /\ leaders (resumed B l r st) = leaders st.
Proof.
  pose proof (configs_length (refreshQueue st)) as Hq.
  unfold resumed, accounted, rejections, woken.
  destruct (lkind l); destruct r as [f|t]; simpl; (split; [|reflexivity]);
    try destruct (JS.truthy t); simpl;
    repeat (rewrite length_app || rewrite length_map); simpl;
    repeat (rewrite length_app || rewrite length_map); simpl; lia.
Qed.

Lemma step_accounted (B : string) (a : Action) (st st' : State) :
  step B a st = Some st' ->
  (accounted st' + dropped a st = accounted st + (if isSubmit a then 1 else 0))%nat
  /\ (tokensOK st -> emptyTokenReply a = false -> tokensOK st').
Proof.
  intro Hs. destruct (isRestoreAction a) eqn:Era.
  { destruct (restore_step_frame _ _ _ _ Era Hs) as (_ & Eq & El & Ep & Ew & Es & _).
    assert (dropped a st = 0%nat) as -> by (destruct a; try discriminate Era; reflexivity).
    assert (isSubmit a = false) as -> by (destruct a; try discriminate Era; reflexivity).
    split; [unfold accounted; rewrite Eq, El, Ep, Ew, Es; lia|].
    intros Hok _. now apply tokensOK_leaders with st. }
  destruct a as [u|k now|k status|k r now|k|tok ex rt now| |k r now|k now|];
    try discriminate Era; simpl in Hs; simpl dropped; simpl isSubmit.
  - injection Hs as <-. unfold accounted, tokensOK. st_unfold.
    rewrite length_app. simpl. split; [lia | auto].
  - destruct (pick k (pending st)) as [[c rest]|] eqn:Ep; [|discriminate].
    injection Hs as <-. apply pick_length in Ep.
    destruct (requestInterceptor_accounted now c (set_pending rest st)) as [H1 H2].
    split.
    + rewrite H1. unfold accounted. st_unfold. lia.
    + intros Hok _. apply H2. now apply tokensOK_leaders with st.
  - destruct (pick k (wire st)) as [[c rest]|] eqn:Ep; [|discriminate].
    apply pick_length in Ep.
    assert (Hh : forall status',
               (accounted (handleError c (AxiosError status' (Some c)) (set_wire rest st))
                + 0 = accounted st + 0)%nat
               /\ (tokensOK st -> false = false ->
                   tokensOK (handleError c (AxiosError status' (Some c)) (set_wire rest st)))).
    { intro status'.
      destruct (handleError_accounted c status' (set_wire rest st)) as [H1 H2].
      split.
      - rewrite H1. unfold accounted. st_unfold. lia.
      - intros Hok _. apply H2. now apply tokensOK_leaders with st. }
    destruct status as [s|]; [|injection Hs as <-; apply Hh].
    destruct ((200 <=? s) && (s <? 300)); injection Hs as <-; [|apply Hh].
    split.
    + unfold accounted. st_unfold. rewrite length_app. simpl. lia.
    + intros Hok _. now apply tokensOK_leaders with st.
  - destruct (nth_error (leaders st) k) as [l|] eqn:El; [|discriminate].
    destruct (lawait l) eqn:Ea; [|discriminate].
    destruct (finishRefresh r now (store st)) as [s' res] eqn:Ef.
    injection Hs as <-. unfold accounted, tokensOK. st_unfold.
    rewrite replace_length. split; [lia|].
    intros Hok Hempty l' t Hin Hl'. apply replace_In in Hin as [-> | Hin];
      [|now apply Hok with l'].
    simpl in Hl'. injection Hl' as Hres. subst res.
    destruct r as [tok ex | status]; simpl in Ef; [|discriminate].
    injection Ef as _ Ht. subst t. simpl in Hempty. now apply negb_false_iff in Hempty.
  - destruct (pick k (leaders st)) as [[l rest]|] eqn:Ep; [|discriminate].
    rewrite (pick_nth_error _ _ _ _ Ep).
    destruct (lawait l) as [|res] eqn:Ea; [discriminate|]. injection Hs as <-.
    rewrite leaderResume_eq.
    destruct (resumed_accounted B l res (set_leaders rest st)) as [H1 H2].
    pose proof (pick_length _ _ _ _ Ep) as Hlen.
    destruct (pick_In _ _ _ _ Ep) as [_ Hrest].
    split.
    + unfold accounted in *. st_unfold.
      destruct res as [f|t]; [lia|]. destruct (JS.truthy t); lia.
    + intros Hok _ l' t Hin Hl'. rewrite H2 in Hin. simpl in Hin.
      apply Hok with l'; [now apply Hrest | exact Hl'].
  - injection Hs as <-. unfold accounted, tokensOK. st_unfold. split; [lia | auto].
  - injection Hs as <-. unfold accounted, tokensOK. st_unfold. split; [lia | auto].
Qed.

Lemma dropped_tokensOK (a : Action) (st : State) :
  tokensOK st -> dropped a st = 0%nat.
Proof.
  intro Hok. destruct a; try reflexivity. simpl.
  destruct (nth_error (leaders st) k) as [l|] eqn:El; [|reflexivity].
  destruct (lawait l) as [|[f|t]] eqn:Ea; try reflexivity.
  rewrite (Hok l t); [reflexivity | now apply nth_error_In with k | exact Ea].
Qed.

Lemma run_accounted (B : string) (acts : list Action) :
  forall st st', run B acts st = Some st' ->
    (accounted st' + droppedAlong B acts st = accounted st + submitted acts)%nat
    /\ (tokensOK st -> Forall (fun a => emptyTokenReply a = false) acts ->
          droppedAlong B acts st = 0%nat).
Proof.
  induction acts as [|a acts IH]; intros st st' Hr; simpl in Hr.
  - injection Hr as <-. unfold submitted. simpl. split; [lia | reflexivity].
  - destruct (step B a st) as [st1|] eqn:E; [|discriminate].
    destruct (step_accounted B a st st1 E) as [H1 H2].
    destruct (IH st1 st' Hr) as [H3 H4].
    simpl droppedAlong. rewrite E. unfold submitted in *. simpl filter.
    split.
    + destruct (isSubmit a); simpl length; lia.
    + intros Hok Hall. inversion Hall as [|? ? Ha Hrest]; subst.
      rewrite (dropped_tokensOK a st Hok), (H4 (H2 Hok Ha) Hrest). reflexivity.
Qed.

(** X16. Every call handed to the client is accounted for.  At any moment
    the calls submitted so far are those waiting for their request
    interceptor, on the wire, in the waiter queue, held by the interceptor
    performing a refresh, or settled, plus those the client has forgotten;
    and it forgets callers in one way only: when a refresh resolves with an
    empty token the whole queue is dropped.  If the refresh endpoint never
    answers with an empty token, no caller is ever lost. *)
Theorem every_caller_is_accounted_for :
  forall (B : string) (s : Store) (acts : list Action) (st : State),
    run B acts (init s) = Some st ->
    (accounted st + droppedAlong B acts (init s))%nat = submitted acts
    /\ (Forall (fun a => emptyTokenReply a = false) acts ->
          accounted st = submitted acts).
Proof.
  intros B s acts st Hrun.
  destruct (run_accounted B acts _ _ Hrun) as [H1 H2].
  unfold accounted at 2 in H1. simpl in H1. split; [exact H1|].
  intro Hall. rewrite H2 in H1; [lia | | exact Hall].
  intros l t [].
Qed.

(** Two callers answered 401 and a refresh that returns [tok1]: both of the
    two calls submitted are still held, re-issued and waiting to be sent. *)
Lemma every_caller_is_accounted_for_witness :
  exists st,
    run "http://localhost:5003"
        (two401_pre ++ two401_window (RefreshOk "tok1" 900) ++ [LeaderResume 0])
        (init (empty true None)) = Some st
    /\ accounted st = 2%nat
    /\ length (pending st) = 2%nat.
Proof.
  destruct (run "http://localhost:5003"
                (two401_pre ++ two401_window (RefreshOk "tok1" 900) ++ [LeaderResume 0])
                (init (empty true None))) as [st|] eqn:E; [|vm_compute in E; discriminate].
  destruct (every_caller_is_accounted_for _ _ _ _ E) as [_ H].
  exists st. split; [reflexivity|]. split.
  - rewrite H; [reflexivity|]. repeat constructor.
  - vm_compute in E. injection E as <-. reflexivity.
Defined.

End SessionFacts.

(* ================================================================= *)
(** ** Reading an error *)

Module ApiFacts.

Import Api.

(** X17. An error that carries the backend's envelope is recognized, and the
    code and the message shown are the envelope's: for every object, an
    [Error] (such as an AxiosError, whatever its own [message]) or not,
    whose [response.data.error] is an object with [code] and [message]. *)
Theorem envelope_code_and_message_are_read :
  forall (isError e1 e2 e3 : bool) (props rprops dprops eprops : list (string * Value))
         (code message : Value),
    getOwn "response" props = Some (VObject e1 rprops) ->
    getOwn "data" rprops = Some (VObject e2 dprops) ->
    getOwn "error" dprops = Some (VObject e3 eprops) ->
    getOwn "code" eprops = Some code ->
    getOwn "message" eprops = Some message ->
    isApiError (VObject isError props) = true
    /\ getErrorCode (VObject isError props) = Returns code
    /\ getErrorMessage (VObject isError props) = Returns message.
Proof.
  intros isError e1 e2 e3 props rprops dprops eprops code message Hr Hd He Hc Hm.
  assert (Hapi : isApiError (VObject isError props) = true).
  { unfold isApiError, field. simpl. rewrite Hr. simpl. rewrite Hd. simpl.
    now rewrite He. }
  assert (Henv : envelope (VObject isError props) = VObject e3 eprops).
  { unfold envelope, field. simpl. rewrite Hr. simpl. rewrite Hd. simpl.
    now rewrite He. }
  split; [exact Hapi|].
  unfold getErrorCode, getErrorMessage. rewrite Hapi, Henv. simpl.
  now rewrite Hc, Hm.
Qed.

(** An AxiosError with its own message and a 403 body. *)
Lemma envelope_code_and_message_are_read_witness :
  let error :=
    VObject true [("message", VString "Request failed with status code 403");
                  ("response", VObject false
                     [("status", VNumber 403);
                      ("data", errorBody "FORBIDDEN" "Not your ticket")])] in
  getErrorCode error = Returns (VString "FORBIDDEN")
  /\ getErrorMessage error = Returns (VString "Not your ticket").
Proof.
  intro error.
  destruct (envelope_code_and_message_are_read true false false false
              [("message", VString "Request failed with status code 403");
               ("response", VObject false
                  [("status", VNumber 403);
                   ("data", errorBody "FORBIDDEN" "Not your ticket")])]
              [("status", VNumber 403);
               ("data", errorBody "FORBIDDEN" "Not your ticket")]
              [("error", VObject false [("code", VString "FORBIDDEN");
                                        ("message", VString "Not your ticket")])]
              [("code", VString "FORBIDDEN"); ("message", VString "Not your ticket")]
              (VString "FORBIDDEN") (VString "Not your ticket")
              eq_refl eq_refl eq_refl eq_refl eq_refl) as [_ [H1 H2]].
  split; [exact H1 | exact H2].
Defined.

(** X18. What the two accessors do with any other value.  A value that is
    not an API error (a string, [null], a plain [Error], an object without
    [response.data.error]) gets the code [UNKNOWN_ERROR] and, as message,
    its own [message] if it is an [Error] and the stock sentence otherwise.
    The guard only checks that [response.data] has an [error] key, not what
    is under it: the accessors throw exactly when the guard passes and that
    value is [null] or [undefined]; under any other value a missing [code]
    or [message] reads as [undefined]. *)
Theorem error_accessors_fall_back_or_throw :
  forall error : Value,
    (isApiError error = false ->
       getErrorCode error = Returns (VString "UNKNOWN_ERROR")
       /\ (instanceofError error = false ->
             getErrorMessage error = Returns (VString "An unexpected error occurred"))
       /\ (forall props, error = VObject true props ->
             getErrorMessage error
             = Returns (match getOwn "message" props with
                        | Some m => m
                        | None => VString ""
                        end)))
    /\ (getErrorCode error = Throws <->
          isApiError error = true
          /\ (envelope error = VNull \/ envelope error = VUndefined))
    /\ (getErrorMessage error = Throws <-> getErrorCode error = Throws).
Proof.
  intro error.
  assert (Hread : forall k v, read k v = Throws <-> v = VNull \/ v = VUndefined).
  { intros k v. destruct v as [| | | | |e props]; simpl;
      try (split; [discriminate | intros [H | H]; discriminate]);
      try (split; auto; fail).
    destruct (getOwn k props); [split; [discriminate | intros [H | H]; discriminate]|].
    destruct (e && (k =? "message")%string);
      split; try discriminate; intros [H | H]; discriminate. }
  assert (Herr : forall props, isApiError (VObject true props) = false ->
                               read "message" (VObject true props) <> Throws).
  { intros props _ H. apply Hread in H as [H | H]; discriminate. }
  split; [|split].
  - intro Hno. unfold getErrorCode, getErrorMessage. rewrite Hno.
    split; [reflexivity|]. split.
    + intros ->. reflexivity.
    + intros props ->. simpl. now destruct (getOwn "message" props).
  - unfold getErrorCode. destruct (isApiError error).
    + rewrite Hread. split; [intro H; now split | intros [_ H]; exact H].
    + split; [discriminate | intros [H _]; discriminate].
  - unfold getErrorCode, getErrorMessage. destruct (isApiError error) eqn:Ha.
    + rewrite !Hread. reflexivity.
    + split; [|discriminate].
      destruct (instanceofError error) eqn:Hi; [|discriminate].
      destruct error as [| | | | |e props]; try discriminate. simpl in Hi. subst e.
      intro H. now elim (Herr props Ha).
Qed.

End ApiFacts.

(* ================================================================= *)
(** ** The upload, priority, reassign and close dialogs *)

Module DialogFacts.

Import TicketActions Dialogs DialogSpec.


(** *** Upload *)

Lemma uploadStep_fileOK (t : TicketDetail) (ev : UploadEvent) (st st' : UploadState)
      (r : option MultipartRequest) (files : list File) :
  fileOK files st ->
  uploadStep t ev st = (st', r) ->
  fileOK (files ++ chosenFiles [(t, ev)]) st'
  /\ (forall req, r = Some req ->
        ev = UpSubmit /\ (attachments t < 5)%nat
        /\ exists file, In file files /\ (file_size file <= maxFileSize)%Z
                        /\ req = uploadAttachment (id t) file).
Proof.
  intros Hok Hs.
  assert (Hmono : fileOK (files ++ chosenFiles [(t, ev)]) st).
  { intros f Hf. destruct (Hok f Hf) as [H1 H2]. split; [|exact H2].
    apply in_or_app. now left. }
  assert (Hkeep : forall form phase, u_file st = u_file (mkUpload form (u_file st) phase))
    by reflexivity.
  assert (Hsame : forall form phase,
             fileOK (files ++ chosenFiles [(t, ev)]) (mkUpload form (u_file st) phase))
    by (intros form phase f Hf; now apply Hmono).
  assert (Hnone : forall form phase,
             fileOK (files ++ chosenFiles [(t, ev)]) (mkUpload form None phase))
    by (intros form phase f Hf; discriminate).
  unfold uploadStep in Hs.
  destruct ev as [|fo| |a|a|].
  - destruct (canUpload t); injection Hs as <- <-; (split; [|discriminate]); auto.
  - destruct (canUpload t && isOpen (u_form st) && negb (isSubmitting (u_form st)));
      [|injection Hs as <- <-; split; [exact Hmono | discriminate]].
    destruct fo as [f|]; [|injection Hs as <- <-; split; [apply Hnone | discriminate]].
    destruct (file_size f >? maxFileSize)%Z eqn:Hsize;
      injection Hs as <- <-; (split; [|discriminate]); [apply Hsame|].
    intros f' Hf'. simpl in Hf'. injection Hf' as <-. split.
    + apply in_or_app. right. now left.
    + rewrite Z.gtb_ltb in Hsize. now apply Z.ltb_ge in Hsize.
  - destruct (canUpload t && isOpen (u_form st)) eqn:Hc;
      [|injection Hs as <- <-; split; [exact Hmono | discriminate]].
    unfold MutationForm_handleSubmit in Hs.
    destruct (isSome (u_file st) && negb (isSubmitting (u_form st)));
      [|injection Hs as <- <-; split; [exact Hmono | discriminate]].
    destruct (u_file st) as [file|] eqn:Hfile;
      [|injection Hs as <- <-; split; [exact Hmono | discriminate]].
    injection Hs as <- <-. split.
    + intros f Hf. simpl in Hf. apply Hmono. congruence.
    + intros req [= <-]. split; [reflexivity|].
      apply andb_true_iff in Hc as [Hc _]. unfold canUpload in Hc.
      apply Nat.ltb_lt in Hc. split; [exact Hc|].
      destruct (Hok file Hfile) as [H1 H2]. now exists file.
  - destruct (u_phase st); try (injection Hs as <- <-; split; [exact Hmono | discriminate]).
    destruct a as [e|]; simpl in Hs; injection Hs as <- <-; (split; [|discriminate]);
      [apply Hsame | apply Hnone].
  - destruct (u_phase st); injection Hs as <- <-; (split; [|discriminate]);
      try exact Hmono; apply Hsame.
  - destruct (canUpload t && isOpen (u_form st));
      injection Hs as <- <-; (split; [|discriminate]); [apply Hsame | exact Hmono].
Qed.

Lemma chosenFiles_cons (x : TicketDetail * UploadEvent)
      (evs : list (TicketDetail * UploadEvent)) :
  chosenFiles (x :: evs) = chosenFiles [x] ++ chosenFiles evs.
Proof. destruct x as [t [|[f|]| | | |]]; reflexivity. Qed.

Lemma uploadRun_uploadOK (evs : list (TicketDetail * UploadEvent)) :
  forall (st : UploadState) (files : list File),
    fileOK files st ->
    forall req, In req (snd (uploadRun evs st)) ->
                uploadOK evs (files ++ chosenFiles evs) req.
Proof.
  induction evs as [|[t ev] evs IH]; intros st files Hok req Hin; [contradiction|].
  simpl in Hin.
  destruct (uploadStep t ev st) as [st1 r] eqn:E1.
  destruct (uploadRun evs st1) as [st2 rs] eqn:E2.
  destruct (uploadStep_fileOK t ev st st1 r files Hok E1) as [Hok1 Hreq].
  assert (Hrest : In req rs -> uploadOK ((t, ev) :: evs) (files ++ chosenFiles ((t, ev) :: evs)) req).
  { intro Hrs. specialize (IH st1 _ Hok1 req). rewrite E2 in IH.
    destruct (IH Hrs) as [t' [file [H1 [H2 [H3 [H4 H5]]]]]].
    exists t', file. split; [now right|]. split; [exact H2|].
    split; [|now split].
    rewrite <- app_assoc in H3. now rewrite chosenFiles_cons. }
  destruct r as [req0|]; [|now apply Hrest].
  destruct Hin as [<- | Hin]; [|now apply Hrest].
  destruct (Hreq req0 eq_refl) as [-> [Hc [file [H1 [H2 H3]]]]].
  exists t, file. split; [now left|]. split; [exact Hc|].
  split; [apply in_or_app; now left | now split].
Qed.

(** X19. The upload dialog keeps both limits.  In any session, with the
    ticket changing under it as it may, every upload request was submitted
    while the ticket was shown with fewer than five attachments, and carries
    a file the user chose that is at most 25 MiB.  Choosing a bigger file
    never replaces the file already held; it only makes the dialog show the
    code [FILE_TOO_LARGE]. *)
Theorem upload_keeps_size_and_count_limits :
  forall evs : list (TicketDetail * UploadEvent),
    (forall req, In req (snd (uploadRun evs UploadState_initial)) ->
       uploadOK evs (chosenFiles evs) req)
    /\ (forall t st f,
          (file_size f > maxFileSize)%Z ->
          u_file (fst (uploadStep t (UpChoose (Some f)) st)) = u_file st
          /\ (fst (uploadStep t (UpChoose (Some f)) st) = st
              \/ Api.getErrorCode (error (u_form (fst (uploadStep t (UpChoose (Some f)) st))))
                 = Api.Returns (Api.VString "FILE_TOO_LARGE"))).
Proof.
  intro evs. split.
  - intros req Hin.
    apply (uploadRun_uploadOK evs UploadState_initial [] ); [|exact Hin].
    intros f Hf. discriminate.
  - intros t st f Hbig. unfold uploadStep.
    destruct (canUpload t && isOpen (u_form st) && negb (isSubmitting (u_form st)));
      [|split; [reflexivity | now left]].
    apply Z.gtb_gt in Hbig. rewrite Hbig. simpl. split; [reflexivity|]. now right.
Qed.

(** The user opens the dialog on a ticket with four attachments, picks a
    file that is too big, then a small one, and submits: only the small one
    is sent. *)
Lemma upload_keeps_size_and_count_limits_witness :
  let evs := [ (teamTicket, UpOpen); (teamTicket, UpChoose (Some hugeFile));
               (teamTicket, UpChoose (Some smallFile)); (teamTicket, UpSubmit) ] in
  snd (uploadRun evs UploadState_initial) = [uploadAttachment "t4" smallFile]
  /\ uploadOK evs (chosenFiles evs) (uploadAttachment "t4" smallFile).
Proof.
  intro evs. split; [reflexivity|].
  destruct (upload_keeps_size_and_count_limits evs) as [H _].
  apply H. simpl. now left.
Defined.

(** *** Priority *)

Lemma priorityOK_mono (t0 : TicketDetail) (evs more : list (TicketDetail * PriorityEvent))
      (p : Z) :
  priorityOK t0 evs p -> priorityOK t0 (evs ++ more) p.
Proof.
  intros [H | [H | [t [H1 H2]]]]; [now left | right; now left |].
  right. right. exists t. split; [apply in_or_app; now left | exact H2].
Qed.

Lemma priorityRequestOK_mono (t0 : TicketDetail)
      (evs more : list (TicketDetail * PriorityEvent)) (req : Mutations.Request) :
  priorityRequestOK t0 evs req -> priorityRequestOK t0 (evs ++ more) req.
Proof.
  intros [t [p [n [H1 [H2 [H3 H4]]]]]]. exists t, p, n.
  split; [apply in_or_app; now left|]. split; [exact H2|]. split; [exact H3|].
  now apply priorityOK_mono.
Qed.

Lemma priorityStep_OK (t0 t : TicketDetail) (ev : PriorityEvent) (st st' : PriorityState)
      (r : option Mutations.Request) (past : list (TicketDetail * PriorityEvent)) :
  priorityOK t0 past (p_priority st) ->
  priorityStep t ev st = (st', r) ->
  priorityOK t0 (past ++ [(t, ev)]) (p_priority st')
  /\ (forall req, r = Some req -> priorityRequestOK t0 (past ++ [(t, ev)]) req).
Proof.
  intros Hok Hs.
  pose proof (priorityOK_mono t0 past [(t, ev)] _ Hok) as Hmono.
  unfold priorityStep in Hs.
  destruct ev as [|p|note| |a|a|].
  - injection Hs as <- <-. split; [|discriminate].
    right. right. exists t. split; [apply in_or_app; right; now left | reflexivity].
  - destruct (isOpen (p_form st) && negb (isSubmitting (p_form st))
              && existsb (Z.eqb p) PRIORITY_VALUES) eqn:E;
      injection Hs as <- <-; (split; [|discriminate]); [|exact Hmono].
    apply andb_true_iff in E as [_ E]. apply existsb_exists in E as [q [Hq Hpq]].
    apply Z.eqb_eq in Hpq. subst q. now left.
  - destruct (isOpen (p_form st)); injection Hs as <- <-; (split; [|discriminate]);
      exact Hmono.
  - destruct (isOpen (p_form st));
      [|injection Hs as <- <-; split; [exact Hmono | discriminate]].
    unfold MutationForm_handleSubmit in Hs.
    destruct (noteValid (p_note st) && negb (isSubmitting (p_form st))) eqn:E;
      injection Hs as <- <-; (split; [exact Hmono|]); [|discriminate].
    intros req [= <-]. exists t, (p_priority st), (p_note st).
    apply andb_true_iff in E as [E _].
    split; [apply in_or_app; right; now left|]. now repeat split.
  - destruct (p_phase st); try (injection Hs as <- <-; split; [exact Hmono | discriminate]).
    destruct a; simpl in Hs; injection Hs as <- <-; (split; [exact Hmono | discriminate]).
  - destruct (p_phase st); injection Hs as <- <-; (split; [exact Hmono | discriminate]).
  - destruct (isOpen (p_form st)); injection Hs as <- <-; (split; [exact Hmono | discriminate]).
Qed.

Lemma priorityRun_OK (t0 : TicketDetail) (evs : list (TicketDetail * PriorityEvent)) :
  forall st past, priorityOK t0 past (p_priority st) ->
    forall req, In req (snd (priorityRun evs st)) ->
                priorityRequestOK t0 (past ++ evs) req.
Proof.
  induction evs as [|[t ev] evs IH]; intros st past Hok req Hin; [contradiction|].
  simpl in Hin.
  destruct (priorityStep t ev st) as [st1 r] eqn:E1.
  destruct (priorityRun evs st1) as [st2 rs] eqn:E2.
  destruct (priorityStep_OK t0 t ev st st1 r past Hok E1) as [Hok1 Hreq].
  specialize (IH st1 _ Hok1 req). rewrite E2, <- app_assoc in IH. simpl in IH.
  destruct r as [req0|]; [|now apply IH].
  destruct Hin as [<- | Hin]; [|now apply IH].
  change (past ++ (t, ev) :: evs) with (past ++ [(t, ev)] ++ evs).
  rewrite app_assoc. now apply priorityRequestOK_mono, Hreq.
Qed.

(** X20. The priority dialog sends what it shows.  In any session, with the
    ticket changing under it as it may, every request is made by a submit,
    for the ticket shown at that moment, with a note that is not blank and a
    priority that is one of the four listed values or the one the dialog
    started from: the priority (3 when there is none) of the ticket the
    button was mounted with or of the ticket shown when the dialog was
    opened.  Unlike the status dialog it does not leave out the current
    value: opening, typing a note and submitting re-sends the ticket's own
    priority.  If every ticket shown has no priority or one within 0..4,
    every priority sent is within 1..4. *)
Theorem priority_dialog_sends_listed_or_current_priority :
  forall (t0 : TicketDetail) (evs : list (TicketDetail * PriorityEvent)),
    (forall req, In req (snd (priorityRun evs (PriorityState_initial t0))) ->
       priorityRequestOK t0 evs req)
    /\ (forall t n, noteValid n = true ->
          snd (priorityRun [(t, PrOpen); (t, PrType n); (t, PrSubmit)]
                           (PriorityState_initial t0))
          = [Mutations.updateTicketPriority (id t) (priorityOrDefault t) n])
    /\ ((forall t, t = t0 \/ In (t, PrOpen) evs ->
           priority t = None \/ exists p, priority t = Some p /\ (0 <= p <= 4)%Z) ->
          forall p, priorityOK t0 evs p -> (1 <= p <= 4)%Z).
Proof.
  intros t0 evs. split; [|split].
  - intros req Hin.
    apply (priorityRun_OK t0 evs (PriorityState_initial t0) []); [|exact Hin].
    right. now left.
  - intros t n Hn. simpl. unfold MutationForm_handleSubmit. simpl. now rewrite Hn.
  - intros Hp p Hok.
    assert (Hdef : forall t, t = t0 \/ In (t, PrOpen) evs ->
                             (1 <= priorityOrDefault t <= 4)%Z).
    { intros t Ht. unfold priorityOrDefault.
      destruct (Hp t Ht) as [-> | [q [-> Hq]]]; [lia|].
      destruct (q =? 0)%Z eqn:E; [lia|]. apply Z.eqb_neq in E. lia. }
    destruct Hok as [Hin | [-> | [t [Hin ->]]]].
    + unfold PRIORITY_VALUES in Hin. simpl in Hin. lia.
    + apply Hdef. now left.
    + apply Hdef. now right.
Qed.

(** *** Reassign *)

Lemma strictEq_Some_false (x : string) (o : option string) :
  strictEq (Some x) o = false -> o <> Some x.
Proof.
  intros H ->. simpl in H. now rewrite String.eqb_refl in H.
Qed.

Lemma offeredMembers_app (evs more : list (TicketDetail * ReassignEvent)) :
  offeredMembers (evs ++ more) = offeredMembers evs ++ offeredMembers more.
Proof.
  induction evs as [|[t ev] evs IH]; [reflexivity|].
  destruct ev as [|k [e|members]| | | | | |]; simpl; rewrite IH; try reflexivity.
  now rewrite app_assoc.
Qed.

Lemma memberOK_mono (evs more : list (TicketDetail * ReassignEvent)) (x : string) :
  memberOK evs x -> memberOK (evs ++ more) x.
Proof.
  intros [H1 [t [H2 H3]]]. split.
  - rewrite offeredMembers_app. apply in_or_app. now left.
  - exists t. split; [apply in_or_app; now left | exact H3].
Qed.

Lemma reassignInv_mono (evs more : list (TicketDetail * ReassignEvent))
      (st : ReassignState) :
  reassignInv evs st -> reassignInv (evs ++ more) st.
Proof.
  intros [H1 [H2 H3]]. split; [|split].
  - destruct H1 as [H1 | H1]; [now left | right; now apply memberOK_mono].
  - intros m Hm. now apply memberOK_mono, H2.
  - intros a Ha. destruct (H3 a Ha) as [t [Ht Hat]].
    exists t. split; [apply in_or_app; now left | exact Hat].
Qed.

Lemma reassignOK_mono (evs more : list (TicketDetail * ReassignEvent))
      (req : Mutations.Request) :
  reassignOK evs req -> reassignOK (evs ++ more) req.
Proof.
  intros [t [target [n [H0 [H1 [H2 [H3 H4]]]]]]]. exists t, target, n.
  split; [apply in_or_app; now left|].
  split; [exact H1|]. split; [exact H2|]. split; [exact H3|].
  now apply memberOK_mono.
Qed.

(** Whoever passes the filter of a list that came back was offered, and is
    not the assignee the call had captured. *)
Lemma selectable_OK (past : list (TicketDetail * ReassignEvent)) (t t' : TicketDetail)
      (k : nat) (members : list TeamMember) (m : TeamMember) :
  In (t', ReOpen) past ->
  In m (selectable (optId (assigned_to t')) members) ->
  memberOK (past ++ [(t, ReTeam k (inr members))]) (member_id m).
Proof.
  unfold selectable. intros Ht' H. apply filter_In in H as [Hin Hne]. split.
  - rewrite offeredMembers_app. apply in_or_app. right. simpl. rewrite app_nil_r.
    now apply in_map.
  - exists t'. split; [apply in_or_app; now left|].
    apply negb_true_iff in Hne. now apply strictEq_Some_false.
Qed.

(** The state after a step that leaves the selection, the list and the
    outstanding loads alone (or only drops a load) keeps the invariant. *)
Ltac keep :=
  solve [ eassumption
        | split; [eassumption | split; eassumption] ].

Lemma reassignStep_inv (t : TicketDetail) (ev : ReassignEvent) (st st' : ReassignState)
      (r : option Mutations.Request) (past : list (TicketDetail * ReassignEvent)) :
  reassignInv past st ->
  reassignStep t ev st = (st', r) ->
  reassignInv (past ++ [(t, ev)]) st'
  /\ (forall req, r = Some req -> reassignOK (past ++ [(t, ev)]) req).
Proof.
  intros Hinv Hs.
  pose proof (reassignInv_mono past [(t, ev)] st Hinv) as Hmono.
  destruct Hinv as [Hsel [Hteam Hloads]].
  pose proof Hmono as [Hsel' [Hteam' Hloads']].
  unfold reassignStep in Hs.
  destruct ev as [|k answer|memberId|n| |a|a|].
  - injection Hs as <- <-. split; [|discriminate].
    split; [exact Hsel'|]. split; [exact Hteam'|]. simpl.
    intros a Ha. apply in_app_or in Ha as [Ha | [<- | []]]; [now apply Hloads'|].
    exists t. split; [apply in_or_app; right; now left | reflexivity].
  - destruct (Client.pick k (r_loads st)) as [[assignee rest]|] eqn:Ep;
      [|injection Hs as <- <-; split; [keep | discriminate]].
    destruct (ClientFacts.pick_In _ _ _ _ Ep) as [Hassignee Hrest].
    assert (Hrest' : forall a, In a rest ->
              exists t0, In (t0, ReOpen) (past ++ [(t, ReTeam k answer)])
                         /\ a = optId (assigned_to t0))
      by (intros a Ha; now apply Hloads', Hrest).
    destruct answer as [e | members]; injection Hs as <- <-;
      (split; [|discriminate]); [keep|].
    destruct (Hloads assignee Hassignee) as [t' [Ht' ->]].
    split; [|split]; simpl.
    + destruct (selectable (optId (assigned_to t')) members) as [|m rest'] eqn:Esel;
        [exact Hsel'|].
      right. apply (selectable_OK past t t' k members m Ht').
      rewrite Esel. now left.
    + intros m Hm. now apply (selectable_OK past t t' k members m Ht').
    + exact Hrest'.
  - destruct (isOpen (r_form st) && negb (r_loadingTeam st)
              && negb (isSubmitting (r_form st))
              && existsb (fun m => (member_id m =? memberId)%string) (r_teamMembers st)) eqn:E;
      injection Hs as <- <-; (split; [|discriminate]); [|keep].
    apply andb_true_iff in E as [_ E]. apply existsb_exists in E as [m [Hm Heq]].
    apply String.eqb_eq in Heq. subst memberId.
    split; [|split]; simpl; [right; now apply Hteam' | exact Hteam' | exact Hloads'].
  - destruct (isOpen (r_form st)); injection Hs as <- <-; (split; [|discriminate]);
      keep.
  - destruct (isOpen (r_form st));
      [|injection Hs as <- <-; split; [keep | discriminate]].
    unfold MutationForm_handleSubmit in Hs.
    destruct (nonEmpty (r_assignedTo st) && noteValid (r_note st)
              && negb (isSubmitting (r_form st))) eqn:E;
      injection Hs as <- <-; (split; [keep|]); [|discriminate].
    intros req [= <-]. exists t, (r_assignedTo st), (r_note st).
    apply andb_true_iff in E as [E _]. apply andb_true_iff in E as [Hne Hnote].
    assert (Hnz : r_assignedTo st <> "").
    { intro H0. rewrite H0 in Hne. discriminate. }
    split; [apply in_or_app; right; now left|].
    split; [reflexivity|]. split; [exact Hnz|]. split; [exact Hnote|].
    destruct Hsel' as [H | H]; [now elim Hnz | exact H].
  - destruct (r_phase st); try (injection Hs as <- <-; split; [keep | discriminate]).
    destruct a; simpl in Hs; injection Hs as <- <-; (split; [keep | discriminate]).
  - destruct (r_phase st); injection Hs as <- <-; (split; [keep | discriminate]).
  - destruct (isOpen (r_form st)); injection Hs as <- <-;
      (split; [keep | discriminate]).
Qed.

Lemma reassignRun_OK (evs : list (TicketDetail * ReassignEvent)) :
  forall st past, reassignInv past st ->
    forall req, In req (snd (reassignRun evs st)) -> reassignOK (past ++ evs) req.
Proof.
  induction evs as [|[t ev] evs IH]; intros st past Hinv req Hin; [contradiction|].
  simpl in Hin.
  destruct (reassignStep t ev st) as [st1 r] eqn:E1.
  destruct (reassignRun evs st1) as [st2 rs] eqn:E2.
  destruct (reassignStep_inv t ev st st1 r past Hinv E1) as [Hinv1 Hreq].
  specialize (IH st1 _ Hinv1 req). rewrite E2, <- app_assoc in IH. simpl in IH.
  destruct r as [req0|]; [|now apply IH].
  destruct Hin as [<- | Hin]; [|now apply IH].
  change (past ++ (t, ev) :: evs) with (past ++ [(t, ev)] ++ evs).
  rewrite app_assoc. now apply reassignOK_mono, Hreq.
Qed.

(** X21. The reassign dialog only ever targets somebody the server offered.
    In any session, with the ticket changing under it as it may, every
    request is made by a submit, for the ticket shown at that moment, with a
    note that is not blank and a target that is not empty, that belongs to a
    team list received in that session, and that was not the assignee of the
    ticket shown at one of the moments the dialog was opened (the assignee
    captured then is filtered out of the list that comes back).  So as long
    as the ticket's assignee does not change during the session, nobody is
    reassigned to the person who already holds the ticket; and if no list
    came back, or none holding anybody, nothing can be sent. *)
Theorem reassign_dialog_targets_an_offered_other_member :
  forall evs : list (TicketDetail * ReassignEvent),
    (forall req, In req (snd (reassignRun evs ReassignState_initial)) ->
       reassignOK evs req)
    /\ (forall assignee,
          (forall t ev, In (t, ev) evs -> optId (assigned_to t) = assignee) ->
          forall i target n,
            In (Mutations.reassignTicket i target n)
               (snd (reassignRun evs ReassignState_initial)) ->
            assignee <> Some target)
    /\ (offeredMembers evs = [] -> snd (reassignRun evs ReassignState_initial) = []).
Proof.
  intro evs.
  assert (H : forall req, In req (snd (reassignRun evs ReassignState_initial)) ->
                          reassignOK evs req).
  { intros req Hin.
    apply (reassignRun_OK evs ReassignState_initial []); [|exact Hin].
    split; [now left|]. split; [intros m [] | intros a []]. }
  split; [exact H|]. split.
  - intros assignee Hsame i target n Hin.
    destruct (H _ Hin) as [t [target' [n' [_ [Heq [_ [_ [_ [t' [Ht' Hne]]]]]]]]]].
    unfold Mutations.reassignTicket in Heq. injection Heq as _ Htarget _.
    subst target'. now rewrite (Hsame t' ReOpen Ht') in Hne.
  - intro Hnone. destruct (snd (reassignRun evs ReassignState_initial)) as [|req rs];
      [reflexivity|].
    destruct (H req (or_introl eq_refl)) as [t [target [n [_ [_ [_ [_ [Hin _]]]]]]]].
    rewrite Hnone in Hin. contradiction.
Qed.

(** A manager hands a ticket from [u1] to [u2]; the ticket comes back
    assigned to [u2]; the dialog is opened again and submitted before the
    team list arrives: the request names [u2], who holds the ticket by then.
    The target is still one that was offered, and was not the assignee when
    the dialog was first opened. *)
Lemma reassign_dialog_targets_an_offered_other_member_witness :
  let evs := [ (teamTicket, ReOpen); (teamTicket, ReTeam 0 (inr team));
               (teamTicket, ReType note); (teamTicket, ReSubmit);
               (teamTicket, ReAnswered None); (teamTicket', ReRefreshed None);
               (teamTicket', ReOpen); (teamTicket', ReType note);
               (teamTicket', ReSubmit) ] in
  snd (reassignRun evs ReassignState_initial)
  = [Mutations.reassignTicket "t4" "u2" note; Mutations.reassignTicket "t4" "u2" note]
  /\ reassignOK evs (Mutations.reassignTicket "t4" "u2" note).
Proof.
  intro evs. split; [reflexivity|].
  destruct (reassign_dialog_targets_an_offered_other_member evs) as [H _].
  apply H. simpl. now left.
Defined.

(** *** Close *)

Lemma offeredCodes_app (evs more : list (TicketDetail * CloseEvent)) :
  offeredCodes (evs ++ more) = offeredCodes evs ++ offeredCodes more.
Proof.
  induction evs as [|[t ev] evs IH]; [reflexivity|].
  destruct ev as [|[e|codes]| | | | | |]; simpl; rewrite IH; try reflexivity.
  now rewrite app_assoc.
Qed.

Lemma closeInv_mono (evs more : list (TicketDetail * CloseEvent)) (st : CloseState) :
  closeInv evs st -> closeInv (evs ++ more) st.
Proof.
  intros [H1 H2]. split.
  - destruct H1 as [H1 | H1]; [now left|].
    right. rewrite offeredCodes_app. apply in_or_app. now left.
  - intros c Hc. rewrite offeredCodes_app. apply in_or_app. left. now apply H2.
Qed.

Lemma closeOK_mono (evs more : list (TicketDetail * CloseEvent)) (req : Mutations.Request) :
  closeOK evs req -> closeOK (evs ++ more) req.
Proof.
  intros [t [code [n [H0 [H1 [H2 [H3 H4]]]]]]]. exists t, code, n.
  split; [apply in_or_app; now left|].
  split; [exact H1|]. split; [exact H2|]. split; [exact H3|].
  rewrite offeredCodes_app. apply in_or_app. now left.
Qed.

Lemma closeStep_inv (t : TicketDetail) (ev : CloseEvent) (st st' : CloseState)
      (r : option Mutations.Request) (past : list (TicketDetail * CloseEvent)) :
  closeInv past st ->
  closeStep t ev st = (st', r) ->
  closeInv (past ++ [(t, ev)]) st'
  /\ (forall req, r = Some req -> closeOK (past ++ [(t, ev)]) req).
Proof.
  intros Hinv Hs.
  pose proof (closeInv_mono past [(t, ev)] st Hinv) as Hmono.
  destruct Hinv as [Hsel Hcodes].
  unfold closeStep in Hs.
  destruct ev as [|answer|codeId|n| |a|a|].
  - injection Hs as <- <-. split; [exact Hmono | discriminate].
  - destruct (c_loads st) as [|k];
      [injection Hs as <- <-; split; [exact Hmono | discriminate]|].
    destruct answer as [e | codes]; injection Hs as <- <-;
      (split; [|discriminate]); [exact Hmono|].
    unfold closeInv. rewrite offeredCodes_app. simpl offeredCodes. rewrite app_nil_r.
    split; simpl.
    + destruct codes as [|c rest].
      * destruct Hsel as [H | H]; [now left | right; apply in_or_app; now left].
      * right. apply in_or_app. right. now left.
    + intros c Hc. apply in_or_app. right. now apply in_map.
  - destruct (isOpen (c_form st) && negb (c_loadingCodes st)
              && negb (isSubmitting (c_form st))
              && existsb (fun c => (code_id c =? codeId)%string) (c_closureCodes st)) eqn:E;
      injection Hs as <- <-; (split; [|discriminate]); [|exact Hmono].
    apply andb_true_iff in E as [_ E]. apply existsb_exists in E as [c [Hc Heq]].
    apply String.eqb_eq in Heq. subst codeId.
    destruct Hmono as [_ Hcodes'].
    split; simpl; [right; now apply Hcodes' | exact Hcodes'].
  - destruct (isOpen (c_form st)); injection Hs as <- <-; (split; [|discriminate]);
      exact Hmono.
  - destruct (isOpen (c_form st));
      [|injection Hs as <- <-; split; [exact Hmono | discriminate]].
    unfold MutationForm_handleSubmit in Hs.
    destruct (nonEmpty (c_closureCodeId st) && noteValid (c_note st)
              && negb (isSubmitting (c_form st))) eqn:E;
      injection Hs as <- <-; (split; [exact Hmono|]); [|discriminate].
    intros req [= <-]. exists t, (c_closureCodeId st), (c_note st).
    apply andb_true_iff in E as [E _]. apply andb_true_iff in E as [Hne Hnote].
    assert (Hnz : c_closureCodeId st <> "").
    { intro H0. rewrite H0 in Hne. discriminate. }
    split; [apply in_or_app; right; now left|].
    split; [reflexivity|]. split; [exact Hnz|]. split; [exact Hnote|].
    destruct Hmono as [[H | H] _]; [now elim Hnz | exact H].
  - destruct (c_phase st); try (injection Hs as <- <-; split; [exact Hmono | discriminate]).
    destruct a; simpl in Hs; injection Hs as <- <-; (split; [exact Hmono | discriminate]).
  - destruct (c_phase st); injection Hs as <- <-; (split; [exact Hmono | discriminate]).
  - destruct (isOpen (c_form st)); injection Hs as <- <-; (split; [exact Hmono | discriminate]).
Qed.

Lemma closeRun_OK (evs : list (TicketDetail * CloseEvent)) :
  forall st past, closeInv past st ->
    forall req, In req (snd (closeRun evs st)) -> closeOK (past ++ evs) req.
Proof.
  induction evs as [|[t ev] evs IH]; intros st past Hinv req Hin; [contradiction|].
  simpl in Hin.
  destruct (closeStep t ev st) as [st1 r] eqn:E1.
  destruct (closeRun evs st1) as [st2 rs] eqn:E2.
  destruct (closeStep_inv t ev st st1 r past Hinv E1) as [Hinv1 Hreq].
  specialize (IH st1 _ Hinv1 req). rewrite E2, <- app_assoc in IH. simpl in IH.
  destruct r as [req0|]; [|now apply IH].
  destruct Hin as [<- | Hin]; [|now apply IH].
  change (past ++ (t, ev) :: evs) with (past ++ [(t, ev)] ++ evs).
  rewrite app_assoc. now apply closeOK_mono, Hreq.
Qed.

(** X22. A ticket is only ever closed with a closure code the server
    returned.  In any session on the close dialog, every request is made by
    a submit, for the ticket shown at that moment, with a note that is not
    blank and a closure code that is not empty and belongs to a list of
    codes received in that session; so while no code has been received (the
    list is still loading, failed to load, or came back empty) the ticket
    cannot be closed. *)
Theorem close_dialog_sends_a_received_closure_code :
  forall evs : list (TicketDetail * CloseEvent),
    (forall req, In req (snd (closeRun evs CloseState_initial)) -> closeOK evs req)
    /\ (offeredCodes evs = [] -> snd (closeRun evs CloseState_initial) = []).
Proof.
  intro evs.
  assert (H : forall req, In req (snd (closeRun evs CloseState_initial)) ->
                          closeOK evs req).
  { intros req Hin.
    apply (closeRun_OK evs CloseState_initial []); [|exact Hin].
    split; [now left | intros c []]. }
  split; [exact H|].
  intro Hnone. destruct (snd (closeRun evs CloseState_initial)) as [|req rs];
    [reflexivity|].
  destruct (H req (or_introl eq_refl)) as [t [code [n [_ [_ [_ [_ Hin]]]]]]].
  rewrite Hnone in Hin. contradiction.
Qed.

End DialogFacts.

(* ================================================================= *)
(** ** The pager *)

Module PaginationFacts.

Import Pagination.
Local Open Scope Z_scope.

Lemma ceilDiv_bounds (a b : Z) :
  0 < b -> (ceilDiv a b - 1) * b < a <= ceilDiv a b * b.
Proof.
  intro Hb. unfold ceilDiv.
  pose proof (Z.div_mod (- a) b ltac:(lia)) as Hdm.
  pose proof (Z.mod_pos_bound (- a) b Hb) as Hm.
  nia.
Qed.

(** X23. The pager counts pages by rounding up, and hides itself exactly when
    one page is enough.  For a positive page size, [totalPages] is the least
    number of pages that hold [totalCount] items (the last page is not
    empty), nothing is rendered exactly when [totalCount <= pageSize], and
    otherwise Previous is enabled from page 2 on and Next below the last
    page. *)
Theorem pagination_counts_pages_by_rounding_up :
  forall page pageSize totalCount : Z,
    0 < pageSize ->
    let pages := ceilDiv totalCount pageSize in
    (pages - 1) * pageSize < totalCount <= pages * pageSize
    /\ (Pagination page pageSize totalCount = None <-> totalCount <= pageSize)
    /\ (forall v, Pagination page pageSize totalCount = Some v ->
          totalPages v = pages /\ 2 <= pages
          /\ canGoPrevious v = (1 <? page)
          /\ canGoNext v = (page <? pages)
          /\ visiblePages v = getVisiblePages page pages).
Proof.
  intros page pageSize totalCount Hp pages.
  pose proof (ceilDiv_bounds totalCount pageSize Hp) as Hb. fold pages in Hb.
  split; [exact Hb|]. unfold Pagination. fold pages.
  destruct (pages <=? 1) eqn:E.
  - apply Z.leb_le in E. split; [|discriminate].
    split; [intros _; nia | reflexivity].
  - apply Z.leb_gt in E. split.
    + split; [discriminate | intro H; nia].
    + intros v [= <-]. simpl.
      split; [reflexivity|]. split; [lia|]. split; [apply Z.gtb_ltb|].
      split; reflexivity.
Qed.

(** 51 tickets at 25 per page make three pages; 25 make one, and no pager. *)
Lemma pagination_counts_pages_by_rounding_up_witness :
  ceilDiv 51 25 = 3
  /\ Pagination 1 25 25 = None
  /\ (exists v, Pagination 3 25 51 = Some v /\ canGoNext v = false).
Proof.
  destruct (pagination_counts_pages_by_rounding_up 1 25 25 eq_refl) as [_ [H _]].
  destruct (pagination_counts_pages_by_rounding_up 3 25 51 eq_refl) as [_ [_ H3]].
  split; [reflexivity|]. split; [apply H; lia|].
  eexists. split; [reflexivity|].
  now destruct (H3 _ eq_refl) as [_ [_ [_ [-> _]]]].
Defined.

Lemma countFrom_length (n : nat) (i : Z) : length (countFrom n i) = n.
Proof. revert i. induction n as [|n IH]; intro i; simpl; [reflexivity | now rewrite IH]. Qed.

Lemma countFrom_In (n : nat) (i p : Z) :
  In p (countFrom n i) <-> i <= p < i + Z.of_nat n.
Proof.
  revert i. induction n as [|n IH]; intro i; simpl.
  - split; [contradiction | lia].
  - rewrite IH. lia.
Qed.

Lemma countFrom_last (n : nat) (i : Z) :
  rev (countFrom (S n) i) = (i + Z.of_nat n) :: rev (countFrom n i).
Proof.
  revert i. induction n as [|n IH]; intro i.
  - simpl. now rewrite Z.add_0_r.
  - change (countFrom (S (S n)) i) with (i :: countFrom (S n) (i + 1)).
    change (rev (i :: countFrom (S n) (i + 1)))
      with (rev (countFrom (S n) (i + 1)) ++ [i]).
    rewrite IH. simpl. f_equal. lia.
Qed.

(** The window the pager shows, in closed form. *)
Lemma getVisiblePages_window (page pages : Z) :
  1 <= pages ->
  let len := Z.min 5 pages in
  let start := Z.max 1 (Z.min (page - 2) (pages - len + 1)) in
  getVisiblePages page pages = countFrom (Z.to_nat len) start
  /\ 1 <= start /\ start + len - 1 <= pages.
Proof.
  intros Hp len start. unfold getVisiblePages, range. cbv zeta.
  change (5 / 2) with 2.
  destruct (Z.min pages (Z.max 1 (page - 2) + 5 - 1) - Z.max 1 (page - 2) + 1 <? 5) eqn:E.
  - apply Z.ltb_lt in E. split; [|unfold start, len; lia].
    f_equal; unfold start, len; lia.
  - apply Z.ltb_ge in E. split; [|unfold start, len; lia].
    f_equal; unfold start, len; lia.
Qed.

(** X24. The pager shows a window of consecutive page numbers: as many as
    there are pages, up to five, all between 1 and the last page, around the
    current page whenever that is a page that exists.  Page 1 and the last
    page are always one click away: each is in the window or has its own
    button, and an ellipsis stands exactly where numbers are skipped. *)
Theorem pager_window_is_consecutive_and_holds_the_page :
  forall page pages : Z,
    1 <= pages ->
    let window := getVisiblePages page pages in
    (exists start, window = countFrom (Z.to_nat (Z.min 5 pages)) start
                   /\ 1 <= start /\ start + Z.min 5 pages - 1 <= pages)
    /\ (forall p, In p window -> 1 <= p <= pages)
    /\ (1 <= page <= pages -> In page window)
    /\ (firstAbove window 1 = negb (existsb (Z.eqb 1) window))
    /\ (lastBelow window pages = negb (existsb (Z.eqb pages) window))
    /\ (firstAbove window 2 = true <-> ~ In 1 window /\ ~ In 2 window)
    /\ (lastBelow window (pages - 1) = true <->
          ~ In pages window /\ ~ In (pages - 1) window).
Proof.
  intros page pages Hp window.
  destruct (getVisiblePages_window page pages Hp) as [Hw [Hs He]].
  cbv zeta in Hw, Hs, He. fold window in Hw.
  set (len := Z.min 5 pages) in *.
  set (start := Z.max 1 (Z.min (page - 2) (pages - len + 1))) in *.
  assert (Hlen : 1 <= len) by (unfold len; lia).
  assert (Hin : forall p, In p window <-> start <= p < start + len).
  { intro p. rewrite Hw, countFrom_In. rewrite Z2Nat.id by lia. reflexivity. }
  assert (Hex : forall k, existsb (Z.eqb k) window = true <-> In k window).
  { intro k. rewrite existsb_exists. split.
    - intros [x [Hx Hk]]. apply Z.eqb_eq in Hk. now subst.
    - intro H. exists k. split; [exact H | apply Z.eqb_refl]. }
  assert (Hfirst : forall k, firstAbove window k = (k <? start)).
  { intro k. rewrite Hw. destruct (Z.to_nat len) as [|n] eqn:En; [lia|].
    simpl. apply Z.gtb_ltb. }
  assert (Hlast : forall k, lastBelow window k = (start + len - 1 <? k)).
  { intro k. unfold lastBelow. rewrite Hw.
    destruct (Z.to_nat len) as [|n] eqn:En; [lia|].
    rewrite countFrom_last. f_equal. lia. }
  split; [exists start; now split|].
  split; [intros p Hpin; apply Hin in Hpin; lia|].
  split; [intros Hpage; apply Hin; unfold start, len; lia|].
  split.
  { rewrite Hfirst. apply eq_true_iff_eq.
    rewrite negb_true_iff, Z.ltb_lt, <- not_true_iff_false, Hex, Hin. lia. }
  split.
  { rewrite Hlast. apply eq_true_iff_eq.
    rewrite negb_true_iff, Z.ltb_lt, <- not_true_iff_false, Hex, Hin. lia. }
  split.
  - rewrite Hfirst, Z.ltb_lt, !Hin. lia.
  - rewrite Hlast, Z.ltb_lt, !Hin. lia.
Qed.

(** Page 7 of 20: the window is 5..9, with a button and an ellipsis on each
    side. *)
Lemma pager_window_is_consecutive_and_holds_the_page_witness :
  getVisiblePages 7 20 = [5; 6; 7; 8; 9]
  /\ In 7 (getVisiblePages 7 20)
  /\ firstAbove (getVisiblePages 7 20) 2 = true.
Proof.
  destruct (pager_window_is_consecutive_and_holds_the_page 7 20 ltac:(lia))
    as [_ [_ [H _]]].
  split; [reflexivity|]. split; [apply H; lia | reflexivity].
Defined.

End PaginationFacts.

(* ================================================================= *)
(** ** Ages *)

Module ElapsedFacts.

Import Elapsed.
Local Open Scope Z_scope.

(** The three quotients of an age given by its days, hours, minutes and
    the rest. *)
Lemma age_quotients (D d h m r : Z) :
  0 <= d -> 0 <= h < 24 -> 0 <= m < 60 -> 0 <= r < 60000 ->
  D = ((d * 24 + h) * 60 + m) * 60000 + r ->
  D / 60000 = (d * 24 + h) * 60 + m
  /\ D / 3600000 = d * 24 + h
  /\ D / 86400000 = d.
Proof.
  intros Hd Hh Hm Hr ->. split; [|split]; symmetry.
  - apply Z.div_unique with r; lia.
  - apply Z.div_unique with (m * 60000 + r); lia.
  - apply Z.div_unique with ((h * 60 + m) * 60000 + r); lia.
Qed.

(** X25. [getTimeElapsedString] shows the two leading units of an age.  For
    a ticket created [d] days, [h] hours, [m] minutes and some seconds ago it
    prints days and hours when [d > 0] (dropping a zero hour count), hours
    and minutes when [d = 0 < h] (dropping a zero minute count), minutes
    alone below one hour, and [Just now] below one minute. *)
Theorem elapsed_string_shows_the_two_leading_units :
  forall now t d h m r : Z,
    0 <= d -> 0 <= h < 24 -> 0 <= m < 60 -> 0 <= r < 60000 ->
    now - t = ((d * 24 + h) * 60 + m) * 60000 + r ->
    getTimeElapsedString now (Some t)
    = if 0 <? d then
        if 0 <? h then (decimal d ++ "d " ++ decimal h ++ "h ago")%string
        else (decimal d ++ "d ago")%string
      else if 0 <? h then
        if 0 <? m then (decimal h ++ "h " ++ decimal m ++ "m ago")%string
        else (decimal h ++ "h ago")%string
      else if 0 <? m then (decimal m ++ "m ago")%string
      else "Just now"%string.
Proof.
  intros now t d h m r Hd Hh Hm Hr HD.
  destruct (age_quotients (now - t) d h m r Hd Hh Hm Hr HD) as [Q1 [Q2 Q3]].
  unfold getTimeElapsedString, minus, floorDiv, remainder, lt, gt, show. simpl option_map.
  change (1000 * 60 * 60 * 24) with 86400000.
  change (1000 * 60 * 60) with 3600000.
  change (1000 * 60) with 60000.
  rewrite Q1, Q2, Q3.
  assert ((now - t <? 0) = false) as -> by (apply Z.ltb_ge; nia).
  rewrite !Z.gtb_ltb.
  assert (Z.rem (d * 24 + h) 24 = h) as ->.
  { rewrite Z.rem_mod_nonneg by lia.
    symmetry. apply Z.mod_unique with d; lia. }
  destruct (0 <? d) eqn:Ed; [reflexivity|].
  apply Z.ltb_ge in Ed. assert (d = 0) as -> by lia. simpl (0 * 24 + h).
  assert (Z.rem (h * 60 + m) 60 = m) as ->.
  { rewrite Z.rem_mod_nonneg by lia.
    symmetry. apply Z.mod_unique with h; lia. }
  destruct (0 <? h) eqn:Eh; [reflexivity|].
  apply Z.ltb_ge in Eh. assert (h = 0) as -> by lia. reflexivity.
Qed.

(** Two days, five hours and some minutes; exactly three hours; half a
    minute. *)
Lemma elapsed_string_shows_the_two_leading_units_witness :
  getTimeElapsedString 191580000 (Some 0) = "2d 5h ago"%string
  /\ getTimeElapsedString 10800000 (Some 0) = "3h ago"%string
  /\ getTimeElapsedString 30000 (Some 0) = "Just now"%string.
Proof.
  split; [|split].
  - rewrite (elapsed_string_shows_the_two_leading_units 191580000 0 2 5 13 0);
      [reflexivity | lia | lia | lia | lia | reflexivity].
  - rewrite (elapsed_string_shows_the_two_leading_units 10800000 0 0 3 0 0);
      [reflexivity | lia | lia | lia | lia | reflexivity].
  - rewrite (elapsed_string_shows_the_two_leading_units 30000 0 0 0 0 30000);
      [reflexivity | lia | lia | lia | lia | reflexivity].
Defined.

Lemma hours_to_days (D : Z) : D / 3600000 / 24 = D / 86400000.
Proof. rewrite Z.div_div by lia. reflexivity. Qed.

(** X26. The age badge turns to warning at exactly three days and to urgent
    at exactly seven: the urgency of [TimeElapsed] is urgent when the ticket
    is at least 7 x 24 hours old, warning from 3 x 24 hours up to that, and
    normal below, as it is for a date that cannot be parsed.  From one day
    on the text is the number of whole days. *)
Theorem age_badge_thresholds :
  forall now t : Z,
    let age := now - t in
    (snd (TimeElapsed now (Some t)) = urgent <-> 7 * 86400000 <= age)
    /\ (snd (TimeElapsed now (Some t)) = warning <-> 3 * 86400000 <= age < 7 * 86400000)
    /\ (snd (TimeElapsed now (Some t)) = normal <-> age < 3 * 86400000)
    /\ (86400000 <= age ->
          fst (TimeElapsed now (Some t)) = (decimal (age / 86400000) ++ "d ago")%string)
    /\ snd (TimeElapsed now None) = normal.
Proof.
  intros now t age.
  unfold TimeElapsed, minus, floorDiv, gt, ge, le, show. simpl option_map.
  change (1000 * 60 * 60) with 3600000. change (1000 * 60) with 60000.
  fold age. rewrite hours_to_days.
  pose proof (Z.div_mod age 86400000 ltac:(lia)) as Hdm.
  pose proof (Z.mod_pos_bound age 86400000 ltac:(lia)) as Hmb.
  set (days := age / 86400000) in *.
  rewrite Z.gtb_ltb, !Z.geb_leb.
  destruct (0 <? days) eqn:E0.
  - apply Z.ltb_lt in E0. simpl.
    destruct (7 <=? days) eqn:E7.
    + apply Z.leb_le in E7.
      repeat split; try discriminate; try reflexivity; intros; try lia.
    + apply Z.leb_gt in E7. destruct (3 <=? days) eqn:E3.
      * apply Z.leb_le in E3.
        repeat split; try discriminate; try reflexivity; intros; try lia.
      * apply Z.leb_gt in E3.
        repeat split; try discriminate; try reflexivity; intros; try lia.
  - apply Z.ltb_ge in E0.
    assert (Hn : forall a b : string, snd (if age / 3600000 >? 0 then (a, normal)
                                           else (b, normal)) = normal)
      by (intros a b; now destruct (age / 3600000 >? 0)).
    rewrite Hn.
    repeat split; try discriminate; try reflexivity; intros; try lia.
Qed.

(** X27. Below one minute, in the future, or unparsable: the three
    formatters on the edge.  An age of less than a minute, a creation date
    that lies in the future included, reads [Just now] in all three.  A date
    string that cannot be parsed reads [Just now] in [getTimeElapsedString],
    but [NaN minute ago] in [formatTimeElapsed] and [NaNm ago] in
    [TimeElapsed], where every comparison with [NaN] is false and the last
    branch prints the number. *)
Theorem recent_future_and_invalid_dates :
  forall now : Z,
    (forall t, now - t < 60000 ->
       getTimeElapsedString now (Some t) = "Just now"%string
       /\ formatTimeElapsed now (Some t) = "Just now"%string
       /\ TimeElapsed now (Some t) = ("Just now"%string, normal))
    /\ getTimeElapsedString now None = "Just now"%string
    /\ formatTimeElapsed now None = "NaN minute ago"%string
    /\ TimeElapsed now None = ("NaNm ago"%string, normal)
    /\ getTimeElapsedMs now None = None.
Proof.
  intro now. split; [|repeat split].
  intros t Hage.
  unfold getTimeElapsedString, formatTimeElapsed, TimeElapsed,
    minus, floorDiv, remainder, lt, gt, ge, le, show. simpl option_map.
  change (1000 * 60 * 60 * 24) with 86400000.
  change (1000 * 60 * 60) with 3600000.
  change (1000 * 60) with 60000.
  rewrite hours_to_days.
  set (age := now - t) in *.
  assert (H1 : age / 86400000 <= 0).
  { apply Z.lt_succ_r. apply Z.div_lt_upper_bound; lia. }
  assert (H2 : age / 3600000 <= 0).
  { apply Z.lt_succ_r. apply Z.div_lt_upper_bound; lia. }
  assert (H3 : age / 60000 <= 0).
  { apply Z.lt_succ_r. apply Z.div_lt_upper_bound; lia. }
  rewrite !Z.gtb_ltb.
  assert ((0 <? age / 86400000) = false) as -> by (apply Z.ltb_ge; lia).
  assert ((0 <? age / 3600000) = false) as -> by (apply Z.ltb_ge; lia).
  assert ((0 <? age / 60000) = false) as -> by (apply Z.ltb_ge; lia).
  assert ((age / 60000 <=? 0) = true) as -> by (apply Z.leb_le; lia).
  now destruct (age <? 0).
Qed.

(** A ticket dated one second ahead of the clock. *)
Lemma recent_future_and_invalid_dates_witness :
  formatTimeElapsed 5000 (Some 6000) = "Just now"%string
  /\ formatTimeElapsed 5000 None = "NaN minute ago"%string.
Proof.
  destruct (recent_future_and_invalid_dates 5000) as [H [_ [H' _]]].
  destruct (H 6000) as [_ [H2 _]]; [lia|].
  split; [exact H2 | exact H'].
Defined.

End ElapsedFacts.

(* ================================================================= *)
(** ** The provider *)

Module AuthContextFacts.

Import TokenStorage AuthContext AuthSpec.
Local Open Scope Z_scope.

Lemma cleared_clearTokens (s : Store) : cleared (clearTokens s).
Proof.
  unfold cleared, clearTokens, getAccessToken, getRefreshToken. simpl.
  repeat split. now destruct (storageAvailable s).
Qed.

Lemma loadUser_outcome (getMe : Call User) (w : Session) :
  match loadUser getMe w with
  | Returned w' _ =>
      isLoading w' = false
      /\ (user w' = None -> JS.truthyO (getAccessToken (store w')) = false)
      /\ (forall u, user w' = Some u ->
            JS.truthyO (getAccessToken (store w)) = true
            /\ getMe (store w) = Settles (store w') (inr u))
  | Suspended w' =>
      JS.truthyO (getAccessToken (store w)) = true
      /\ getMe (store w) = Never (store w')
      /\ user w' = user w
      /\ isLoading w' = isLoading w
  end.
Proof.
  unfold loadUser.
  destruct (JS.truthyO (getAccessToken (store w))) eqn:Et; simpl.
  - destruct (getMe (store w)) as [s [e|u] | s] eqn:Eg; simpl.
    + split; [reflexivity|]. split; [reflexivity | discriminate].
    + split; [reflexivity|]. split; [discriminate|].
      intros u' [= <-]. now split.
    + repeat split.
  - split; [reflexivity|]. split; [intros _; exact Et | discriminate].
Qed.

Lemma loadUser_returns (getMe : Call User) (w : Session) :
  returns (loadUser getMe w)
  = negb (JS.truthyO (getAccessToken (store w))) || settles (getMe (store w)).
Proof.
  unfold loadUser.
  destruct (JS.truthyO (getAccessToken (store w))); simpl; [|reflexivity].
  now destruct (getMe (store w)) as [s [e|u] | s].
Qed.

(** X28. Starting the application: what restoring the session leaves.  It
    returns when the calls it awaits settle: the POST of the silent refresh,
    if one is sent, and the profile call, if one is made; and then loading
    has ended.  With no token in memory and no refresh token persisted
    nothing is called and nothing changes.  If the silent refresh fails (the
    refresh token is empty or rejected, or the network is down) the visitor
    is anonymous and the store is cleared.  Nobody becomes authenticated
    unless the profile call succeeded, with an access token in the store when
    it was made; and a visitor who ends up anonymous holds no usable access
    token.  When one of the two calls never settles, the restore stays
    suspended there: user and loading flag are what they were, so that the
    application keeps loading. *)
Theorem session_restore_outcomes :
  forall (server : string -> option (Thrown + RefreshResponse)) (getMe : Call User)
         (now1 now2 : Z) (w : Session),
    let run := tryRestoreSession server getMe now1 now2 w in
    ((forall rt, server rt <> None) -> (forall s, settles (getMe s) = true) ->
       returns run = true)
    /\ (forall w', run = Returned w' tt ->
          isLoading w' = false
          /\ (JS.truthyO (getAccessToken (store w)) = false ->
              hasPersistedSession (store w) = false ->
                w' = mkSession (store w) (user w) false)
          /\ (JS.truthyO (getAccessToken (store w)) = false ->
              hasPersistedSession (store w) = true ->
              forall s e, apiRefresh server now1 (store w) = Settles s (inl e) ->
                user w' = None /\ cleared (store w'))
          /\ (user w = None ->
              forall u, user w' = Some u ->
                exists s, JS.truthyO (getAccessToken s) = true
                          /\ getMe s = Settles (store w') (inr u))
          /\ (user w = None -> user w' = None ->
                JS.truthyO (getAccessToken (store w')) = false))
    /\ (forall w', run = Suspended w' ->
          user w' = user w
          /\ isLoading w' = isLoading w
          /\ ((exists rt, getRefreshToken (store w) = Some rt
                          /\ server rt = None /\ store w' = store w)
              \/ (exists s, JS.truthyO (getAccessToken s) = true
                            /\ getMe s = Never (store w')))).
Proof.
  intros server getMe now1 now2 w run. unfold run, tryRestoreSession.
  destruct (JS.truthyO (getAccessToken (store w))) eqn:Et.
  - pose proof (loadUser_outcome getMe w) as Hout.
    pose proof (loadUser_returns getMe w) as Hret.
    split; [intros _ Hg; rewrite Hret, (Hg (store w)); apply orb_true_r|].
    destruct (loadUser getMe w) as [w1 []|w1].
    + split; [|discriminate]. intros w' [= <-]. destruct Hout as [H1 [H2 H3]].
      split; [exact H1|]. split; [discriminate|]. split; [discriminate|].
      split; [|intros _; exact H2].
      intros _ u Hu. destruct (H3 u Hu) as [Ht Hg]. now exists (store w).
    + split; [discriminate|]. intros w' [= <-]. destruct Hout as [H1 [H2 [H3 H4]]].
      split; [exact H3|]. split; [exact H4|]. right. now exists (store w).
  - destruct (hasPersistedSession (store w)) eqn:Ep; cbn [negb].
    + unfold apiRefresh. unfold hasPersistedSession in Ep.
      destruct (getRefreshToken (store w)) as [rt|] eqn:Ert; [|discriminate].
      destruct (JS.truthy rt) eqn:Etr; cbn [negb].
      * destruct (server rt) as [[e|response]|] eqn:Es.
        -- split; [reflexivity|]. split; [|discriminate]. intros w' [= <-].
           split; [reflexivity|]. split; [discriminate|].
           split; [intros _ _ s e' _; split; [reflexivity | apply cleared_clearTokens]|].
           split; [discriminate|]. intros _ _. reflexivity.
        -- set (w1 := mkSession _ (user w) (isLoading w)).
           pose proof (loadUser_outcome getMe w1) as Hout.
           pose proof (loadUser_returns getMe w1) as Hret.
           split; [intros _ Hg; rewrite Hret, (Hg (store w1)); apply orb_true_r|].
           destruct (loadUser getMe w1) as [w2 []|w2].
           ++ split; [|discriminate]. intros w' [= <-]. destruct Hout as [H1 [H2 H3]].
              split; [exact H1|]. split; [discriminate|].
              split; [intros _ _ s e He; discriminate|].
              split; [|intros _; exact H2].
              intros _ u Hu. destruct (H3 u Hu) as [Ht Hg]. now exists (store w1).
           ++ split; [discriminate|]. intros w' [= <-].
              destruct Hout as [H1 [H2 [H3 H4]]].
              split; [exact H3|]. split; [exact H4|]. right. now exists (store w1).
        -- split; [intros Hs _; now elim (Hs rt)|].
           split; [discriminate|]. intros w' [= <-].
           split; [reflexivity|]. split; [reflexivity|]. left. now exists rt.
      * split; [reflexivity|]. split; [|discriminate]. intros w' [= <-].
        split; [reflexivity|]. split; [discriminate|].
        split; [intros _ _ s e' _; split; [reflexivity | apply cleared_clearTokens]|].
        split; [discriminate|]. intros _ _. reflexivity.
    + split; [reflexivity|]. split; [|discriminate]. intros w' [= <-].
      split; [reflexivity|]. split; [reflexivity|]. split; [discriminate|].
      split; [intros Hn u Hu; simpl in Hu; congruence|].
      intros _ _. exact Et.
Qed.

(** A reload with a refresh token the server no longer accepts: the visitor
    is anonymous and the refresh token is gone.  The same reload when the
    refresh POST is never answered: the application keeps loading, with the
    refresh token still stored. *)
Lemma session_restore_outcomes_witness :
  (exists w', tryRestoreSession (fun _ => Some (inl networkError)) (succeeding alice)
                                0 0 reloaded = Returned w' tt
              /\ user w' = None /\ getRefreshToken (store w') = None
              /\ isLoading w' = false)
  /\ (exists w', tryRestoreSession (fun _ => None) (succeeding alice) 0 0 reloaded
                 = Suspended w'
                 /\ isLoading w' = true
                 /\ getRefreshToken (store w') = Some "rt0"%string).
Proof.
  split.
  - destruct (session_restore_outcomes (fun _ => Some (inl networkError))
                (succeeding alice) 0 0 reloaded) as [_ [Hret _]].
    eexists. split; [reflexivity|].
    destruct (Hret _ eq_refl) as [Hl [_ [Hf _]]].
    destruct (Hf eq_refl eq_refl _ networkError eq_refl) as [Hu [_ [_ Hr]]].
    split; [exact Hu|]. split; [exact Hr | exact Hl].
  - destruct (session_restore_outcomes (fun _ => None) (succeeding alice) 0 0 reloaded)
      as [_ [_ Hsus]].
    eexists. split; [reflexivity|].
    destruct (Hsus _ eq_refl) as [_ [Hl _]]. split; [exact Hl | reflexivity].
Defined.

(** X29. Logging in and out: what the provider leaves.  [login] returns
    when the login POST is answered and the profile call that follows a
    success settles; it rethrows exactly the error of the login call, and
    then the visitor is anonymous with a cleared store.  When the login call
    succeeds with a non-empty access token, the outcome rests on the profile
    call: if it succeeds its result is the user; if it fails the tokens just
    stored are cleared and the visitor is anonymous, although [login] itself
    resolves without an error; if it never settles [login] stays suspended
    with the tokens stored and the loading flag set.  [logout] returns when
    its POST settles, whatever the server answers, and then the visitor is
    anonymous with a cleared store; while the POST does not settle the
    tokens are not cleared, the user stays and the loading flag is set.
    Neither returns with the loading flag set. *)
Theorem login_and_logout_outcomes :
  forall (answer : option (Thrown + LoginResponse)) (getMe : Call User) (post : Call unit)
         (now : Z) (w : Session),
    (answer <> None -> (forall s, settles (getMe s) = true) ->
       returns (login answer getMe now w) = true)
    /\ (forall w' thrown, login answer getMe now w = Returned w' thrown ->
          isLoading w' = false
          /\ (forall e, thrown = Some e <-> answer = Some (inl e))
          /\ (forall e, answer = Some (inl e) -> user w' = None /\ cleared (store w')))
    /\ (forall response, answer = Some (inr response) -> access_token response <> ""%string ->
          match getMe (loggedIn response now (store w)) with
          | Settles s (inr u) =>
              login answer getMe now w = Returned (mkSession s (Some u) false) None
          | Settles s (inl _) =>
              login answer getMe now w = Returned (mkSession (clearTokens s) None false) None
          | Never s =>
              login answer getMe now w
              = Suspended (mkSession s (Some (userOfLogin response)) true)
          end)
    /\ (answer = None ->
          login answer getMe now w = Suspended (mkSession (store w) (user w) true))
    /\ (forall s r, post (store w) = Settles s r ->
          logout post w = Returned (mkSession (clearTokens s) None false) tt
          /\ cleared (store (sessionOf (logout post w))))
    /\ (forall s, post (store w) = Never s ->
          logout post w = Suspended (mkSession s (user w) true)).
Proof.
  intros answer getMe post now w.
  split; [|split; [|split; [|split; [|split]]]].
  - intros Ha Hg. unfold login, apiLogin.
    destruct answer as [[e|response]|]; [reflexivity| |now elim Ha].
    match goal with |- context [loadUser getMe ?w1] =>
      pose proof (loadUser_returns getMe w1) as Hret;
      destruct (loadUser getMe w1) as [w2 []|w2] end; [reflexivity|].
    rewrite Hg, orb_true_r in Hret. discriminate.
  - intros w' thrown. unfold login, apiLogin.
    destruct answer as [[e|response]|]; [| |discriminate].
    + intros [= <- <-]. split; [reflexivity|].
      split; [intro e'; split; [now intros [= ->] | now intros [= ->]]|].
      intros e' _. split; [reflexivity | apply cleared_clearTokens].
    + destruct (loadUser getMe _) as [w2 []|w2]; [|discriminate].
      intros [= <- <-]. split; [reflexivity|].
      split; [intro e'; split; discriminate | discriminate].
  - intros response -> Hne. unfold login, apiLogin, loadUser, loggedIn.
    cbn [store user isLoading].
    assert (JS.truthyO (getAccessToken
              (setRefreshToken (refresh_token response)
                 (setAccessToken (access_token response) (expires_in response) now
                                 (store w)))) = true) as ->.
    { unfold setRefreshToken, setAccessToken, getAccessToken. simpl.
      destruct (storageAvailable (store w)); simpl;
        (destruct (access_token response); [now elim Hne | reflexivity]). }
    cbn [negb]. now destruct (getMe _) as [s [e|u] | s].
  - intros ->. reflexivity.
  - intros s r Hp. unfold logout, apiLogout. rewrite Hp. simpl.
    split; [reflexivity | apply cleared_clearTokens].
  - intros s Hp. unfold logout, apiLogout. now rewrite Hp.
Qed.

(** The login succeeds but the profile call fails: [login] resolves, and
    nobody is logged in.  A logout whose POST never settles leaves the
    tokens in the store. *)
Lemma login_and_logout_outcomes_witness :
  let w := mkSession (empty true None) None false in
  login (Some (inr aliceLogin)) (failing networkError) 0 w
  = Returned (mkSession (empty true None) None false) None
  /\ (let w1 := mkSession (loggedIn aliceLogin 0 (empty true None)) (Some alice) false in
      logout hanging w1 = Suspended (mkSession (store w1) (Some alice) true)
      /\ getAccessToken (store (sessionOf (logout hanging w1))) = Some "tok0"%string).
Proof.
  intro w.
  destruct (login_and_logout_outcomes (Some (inr aliceLogin)) (failing networkError)
              hanging 0 w) as [_ [_ [Hok _]]].
  specialize (Hok aliceLogin eq_refl ltac:(discriminate)).
  split; [exact Hok|]. intro w1.
  destruct (login_and_logout_outcomes None (failing networkError) hanging 0 w1)
    as [_ [_ [_ [_ [_ Hhang]]]]].
  rewrite (Hhang (store w1) eq_refl). split; reflexivity.
Defined.

End AuthContextFacts.

(* ================================================================= *)
(** ** Creating a ticket *)

Module CreateTicketFacts.

Import Dialogs CreateTicket.





End CreateTicketFacts.
